(** * IntelStudy: the document-intelligence pipeline of the backend

    A shallow embedding of the backend's AI service
    ([services/ai.service.js], [services/pdf.service.js],
    [utils/retry.js], [utils/circuitBreaker.js]) and the properties the
    specification states about it.

    Conventions of the embedding.
    - A JavaScript string is the list of its UTF-16 code units
      ([jsstring := list N]); [length] is the JS [.length].
    - An [async] function is a state transformer over the part of the
      world it can observe: the clock read by [Date.now()], the replies
      of the inference service and the module-level circuit breaker.
      [await] is sequencing, [throw] is the [Throw] outcome and
      [try/catch] is [try_catch].
    - The body of a request (model name, prompt, sampling parameters)
      only travels to the service and is not part of the world; the
      reply to the n-th request is arbitrary.
    - [String.prototype.toLowerCase] and [JSON.parse] are parameters of
      the service's functions.
    - [logger] calls have no effect on any value and are left out. *)

From Stdlib Require Import String Ascii DecimalString.
From Stdlib Require Import List Arith ZArith NArith Lia Bool.
From Stdlib Require Import Permutation Sorted.
Import ListNotations.

Set Implicit Arguments.
Set Warnings "-register-all".

(** ** JavaScript strings *)

Module Js.

Definition char := N.
Definition jsstring := list char.

(** A source literal, given as its ASCII text. *)
Definition str (s : string) : jsstring :=
  map N_of_ascii (list_ascii_of_string s).

Definition nl : char := 10%N.
Definition sp : char := 32%N.
Definition dot : char := 46%N.

Definition eqc (a b : char) : bool := N.eqb a b.

Fixpoint eqs (a b : jsstring) : bool :=
  match a, b with
  | [], [] => true
  | x :: a', y :: b' => eqc x y && eqs a' b'
  | _, _ => false
  end.

(** The class [\s] of a regular expression, which is also the set that
    [String.prototype.trim] strips (WhiteSpace and LineTerminator). *)
Definition is_space (c : char) : bool :=
  ((9 <=? c) && (c <=? 13) || (c =? 32) || (c =? 160) || (c =? 5760)
   || (8192 <=? c) && (c <=? 8202) || (c =? 8232) || (c =? 8233)
   || (c =? 8239) || (c =? 8287) || (c =? 12288) || (c =? 65279))%N.

(** The class [\w]: [A-Za-z0-9_]. *)
Definition is_word_char (c : char) : bool :=
  ((65 <=? c) && (c <=? 90) || (97 <=? c) && (c <=? 122)
   || (48 <=? c) && (c <=? 57) || (c =? 95))%N.

(** The class [[.!?]]. *)
Definition is_terminal (c : char) : bool :=
  ((c =? 46) || (c =? 33) || (c =? 63))%N.

Fixpoint drop_while (p : char -> bool) (s : jsstring) : jsstring :=
  match s with
  | [] => []
  | c :: s' => if p c then drop_while p s' else s
  end.

Definition trimStart (s : jsstring) : jsstring := drop_while is_space s.

(** The string without its trailing whitespace run. *)
Fixpoint trimEnd (s : jsstring) : jsstring :=
  match s with
  | [] => []
  | c :: s' =>
      match trimEnd s' with
      | [] => if is_space c then [] else [c]
      | r => c :: r
      end
  end.

(** [s.trim()] *)
Definition trim (s : jsstring) : jsstring := trimStart (trimEnd s).

(** [!text || text.trim().length === 0] for a string [text]. *)
Definition is_blank (s : jsstring) : bool :=
  match s with
  | [] => true
  | _ => Nat.eqb (length (trim s)) 0
  end.

Definition cons_head (c : char) (l : list jsstring) : list jsstring :=
  match l with
  | w :: ws => (c :: w) :: ws
  | [] => [[c]]
  end.

(** [s.split(/[sep]/)] and [s.split('c')]: every separator character ends
    a field. *)
Fixpoint split_each (sep : char -> bool) (s : jsstring) : list jsstring :=
  match s with
  | [] => [[]]
  | c :: s' =>
      if sep c then [] :: split_each sep s'
      else cons_head c (split_each sep s')
  end.

Definition starts_with_class (p : char -> bool) (s : jsstring) : bool :=
  match s with
  | c :: _ => p c
  | [] => false
  end.

(** [s.split(/[sep]+/)]: every maximal run of separator characters ends a
    field; a leading run leaves an empty first field and a trailing run
    an empty last one. *)
Fixpoint split_runs (sep : char -> bool) (s : jsstring) : list jsstring :=
  match s with
  | [] => [[]]
  | c :: s' =>
      if sep c then
        if starts_with_class sep s' then split_runs sep s'
        else [] :: split_runs sep s'
      else cons_head c (split_runs sep s')
  end.

(** [words.join(sep)] *)
Fixpoint join (sep : jsstring) (l : list jsstring) : jsstring :=
  match l with
  | [] => []
  | [w] => w
  | w :: l' => w ++ sep ++ join sep l'
  end.

(** [s.substring(a, b)] for [0 <= a <= b]. *)
Definition substring (a b : nat) (s : jsstring) : jsstring :=
  firstn (b - a) (skipn a s).

(** [arr.slice(a, b)] for [0 <= a <= b]. *)
Definition slice {A : Type} (a b : nat) (l : list A) : list A :=
  firstn (b - a) (skipn a l).

Fixpoint starts_with (p s : jsstring) : bool :=
  match p, s with
  | [], _ => true
  | x :: p', y :: s' => eqc x y && starts_with p' s'
  | _ :: _, [] => false
  end.

(** [s.includes(p)] *)
Fixpoint includes (s p : jsstring) : bool :=
  starts_with p s ||
  match s with
  | [] => false
  | _ :: s' => includes s' p
  end.

(** [arr.includes(x)] for an array of strings. *)
Definition arr_includes (l : list jsstring) (x : jsstring) : bool :=
  existsb (eqs x) l.

(** [s.match(/[.!?]$/)] is not null. *)
Definition ends_with_terminal (s : jsstring) : bool :=
  match s with
  | [] => false
  | _ => is_terminal (last s 0%N)
  end.

(** [s.replace(/[^\w]/g, '')] *)
Definition strip_non_word (s : jsstring) : jsstring := filter is_word_char s.

(** [s.replace(/\s+/g, ' ')]: [in_run] tells that the previous character
    belonged to the run already replaced. *)
Fixpoint collapse_from (in_run : bool) (s : jsstring) : jsstring :=
  match s with
  | [] => []
  | c :: s' =>
      if is_space c then
        if in_run then collapse_from true s' else sp :: collapse_from true s'
      else c :: collapse_from false s'
  end.

Definition collapse_ws (s : jsstring) : jsstring := collapse_from false s.

(** For the text after a line feed: the suffix after the last line feed of
    the leading whitespace run, when that run has one. *)
Fixpoint after_last_nl (s : jsstring) : option jsstring :=
  match s with
  | c :: s' =>
      if is_space c then
        match after_last_nl s' with
        | Some r => Some r
        | None => if eqc c nl then Some s' else None
        end
      else None
  | [] => None
  end.

(** [s.split(/\n\s*\n/)]: a separator starts at a line feed whose
    following whitespace run holds another line feed, and (the star being
    greedy) reaches the last line feed of that run; [skip] counts the
    characters of a separator still to pass. *)
Fixpoint split_blank_from (skip : nat) (s : jsstring) : list jsstring :=
  match s with
  | [] => [[]]
  | c :: s' =>
      match skip with
      | S k => split_blank_from k s'
      | O =>
          if eqc c nl then
            match after_last_nl s' with
            | Some r => [] :: split_blank_from (length s' - length r) s'
            | None => cons_head c (split_blank_from 0 s')
            end
          else cons_head c (split_blank_from 0 s')
      end
  end.

Definition split_blank_lines (s : jsstring) : list jsstring :=
  split_blank_from 0 s.

(** [s.replace(/\n\s*\n\s*\n/g, '\n\n')]: a match starts at a line feed
    whose following whitespace run holds two more line feeds and reaches
    the last of them. *)
Fixpoint count_nl_in_run (s : jsstring) : nat :=
  match s with
  | c :: s' =>
      if is_space c then (if eqc c nl then 1 else 0) + count_nl_in_run s'
      else 0
  | [] => 0
  end.

Fixpoint squeeze_nl_from (skip : nat) (s : jsstring) : jsstring :=
  match s with
  | [] => []
  | c :: s' =>
      match skip with
      | S k => squeeze_nl_from k s'
      | O =>
          if eqc c nl && (2 <=? count_nl_in_run s') then
            match after_last_nl s' with
            | Some r => nl :: nl :: squeeze_nl_from (length s' - length r) s'
            | None => c :: squeeze_nl_from 0 s'
            end
          else c :: squeeze_nl_from 0 s'
      end
  end.

Definition squeeze_blank_lines (s : jsstring) : jsstring := squeeze_nl_from 0 s.

(** [s.replace(/\.\s*\./g, '.')]: a match is a full stop, the whitespace
    run after it, and a full stop; matches do not overlap. *)
Fixpoint squeeze_dots_from (skip : nat) (s : jsstring) : jsstring :=
  match s with
  | [] => []
  | c :: s' =>
      match skip with
      | S k => squeeze_dots_from k s'
      | O =>
          if eqc c dot then
            match drop_while is_space s' with
            | d :: r =>
                if eqc d dot then dot :: squeeze_dots_from (length s' - length r) s'
                else c :: squeeze_dots_from 0 s'
            | [] => c :: squeeze_dots_from 0 s'
            end
          else c :: squeeze_dots_from 0 s'
      end
  end.

Definition squeeze_dots (s : jsstring) : jsstring := squeeze_dots_from 0 s.

(** [s.match(/\[[\s\S]*\]/)]: from the first opening bracket to the last
    closing bracket after it. *)
Definition lbracket : char := 91%N.
Definition rbracket : char := 93%N.

Definition upto_last_rbracket (s : jsstring) : option jsstring :=
  let r := drop_while (fun c => negb (eqc c rbracket)) (rev s) in
  match r with
  | [] => None
  | _ => Some (rev r)
  end.

Definition match_json_array (s : jsstring) : option jsstring :=
  match drop_while (fun c => negb (eqc c lbracket)) s with
  | [] => None
  | b :: rest =>
      match upto_last_rbracket rest with
      | Some body => Some (b :: body)
      | None => None
      end
  end.

(** Decimal rendering of a number in a template literal. *)
Definition of_nat (n : nat) : jsstring :=
  str (NilEmpty.string_of_uint (Nat.to_uint n)).

End Js.

Import Js.

(** ** Errors, outcomes and the sequencing of [async] code *)

(** A thrown [Error]: its [message], [error.response?.status] when the
    error carries a response, and [error.code]. *)
Record JsError : Type := mkError {
  message : jsstring;
  response_status : option nat;
  code : option jsstring
}.

(** [new Error(msg)] *)
Definition new_Error (msg : jsstring) : JsError :=
  {| message := msg; response_status := None; code := None |}.

Inductive outcome (A : Type) : Type :=
| Ok (a : A)
| Throw (e : JsError).

Arguments Ok {A} a.
Arguments Throw {A} e.

(** A computation over a state of type [S]. *)
Definition M (S A : Type) : Type := S -> outcome A * S.

Definition ret {S A : Type} (a : A) : M S A := fun s => (Ok a, s).

Definition throw {S A : Type} (e : JsError) : M S A := fun s => (Throw e, s).

Definition bind {S A B : Type} (m : M S A) (k : A -> M S B) : M S B :=
  fun s =>
    match m s with
    | (Ok a, s') => k a s'
    | (Throw e, s') => (Throw e, s')
    end.

(** [try { m } catch (error) { h error }] *)
Definition try_catch {S A : Type} (m : M S A) (h : JsError -> M S A) : M S A :=
  fun s =>
    match m s with
    | (Ok a, s') => (Ok a, s')
    | (Throw e, s') => h e s'
    end.

Notation "x <- m ;; k" := (bind m (fun x => k))
  (at level 61, m at next level, right associativity).

(** ** utils/retry.js *)

Module Retry.

Section RetryOnCondition.
Variables St A : Type.
Variable fn : M St A.
(** The predicate is a JavaScript function: it may keep state. *)
Variable shouldRetry : JsError -> M St bool.

(** The loop [for (attempt = 0; attempt <= maxRetries; attempt++)],
    entered at [attempt] with [left = maxRetries - attempt]; the test
    [attempt === maxRetries] is [left = 0], and [||] does not call
    [shouldRetry] then. *)
Fixpoint retry_from (left : nat) : M St A :=
  try_catch fn (fun error =>
    match left with
    | O => throw error
    | S left' =>
        retry <- shouldRetry error ;;
        if negb retry then throw error else retry_from left'
    end).

Definition retryOnCondition (maxRetries : nat) : M St A :=
  retry_from maxRetries.
End RetryOnCondition.

Section RetryWithBackoff.
Variables St A : Type.
Variable fn : M St A.
(** [await new Promise(resolve => setTimeout(resolve, delay))] *)
Variable sleep : Z -> M St unit.

(** The loop [for (attempt = 0; attempt <= maxRetries; attempt++)],
    entered at [attempt] with [left = maxRetries - attempt]. *)
Fixpoint backoff_from (baseDelay : Z) (left attempt : nat) : M St A :=
  try_catch fn (fun error =>
    match left with
    | O => throw error
    | S left' =>
        let delay := (baseDelay * 2 ^ Z.of_nat attempt)%Z in
        bind (sleep delay) (fun _ => backoff_from baseDelay left' (S attempt))
    end).

Definition retryWithBackoff (maxRetries : nat) (baseDelay : Z) : M St A :=
  backoff_from baseDelay maxRetries 0.
End RetryWithBackoff.

End Retry.

(** ** utils/circuitBreaker.js *)

Module CircuitBreaker.

Inductive State : Type := CLOSED | OPEN | HALF_OPEN.

Record t : Type := mk {
  failureThreshold : nat;
  resetTimeout : Z;
  state : State;
  failureCount : nat;
  nextAttempt : Z
}.

(** [options.x || dflt]: zero is falsy. *)
Definition or_default_nat (x : option nat) (dflt : nat) : nat :=
  match x with
  | Some (S n) => S n
  | _ => dflt
  end.

Definition or_default_Z (x : option Z) (dflt : Z) : Z :=
  match x with
  | Some z => if Z.eqb z 0 then dflt else z
  | None => dflt
  end.

(** [new CircuitBreaker(options)] at time [now]. *)
Definition constructor (threshold : option nat) (timeout : option Z) (now : Z) : t :=
  {| failureThreshold := or_default_nat threshold 5;
     resetTimeout := or_default_Z timeout 60000;
     state := CLOSED;
     failureCount := 0;
     nextAttempt := now |}.

Definition onSuccess (cb : t) : t :=
  {| failureThreshold := failureThreshold cb;
     resetTimeout := resetTimeout cb;
     state := CLOSED;
     failureCount := 0;
     nextAttempt := nextAttempt cb |}.

Definition onFailure (now : Z) (cb : t) : t :=
  let count := S (failureCount cb) in
  if failureThreshold cb <=? count then
    {| failureThreshold := failureThreshold cb;
       resetTimeout := resetTimeout cb;
       state := OPEN;
       failureCount := count;
       nextAttempt := (now + resetTimeout cb)%Z |}
  else
    {| failureThreshold := failureThreshold cb;
       resetTimeout := resetTimeout cb;
       state := state cb;
       failureCount := count;
       nextAttempt := nextAttempt cb |}.

Definition set_state (st : State) (cb : t) : t :=
  {| failureThreshold := failureThreshold cb;
     resetTimeout := resetTimeout cb;
     state := st;
     failureCount := failureCount cb;
     nextAttempt := nextAttempt cb |}.

Definition open_message : jsstring :=
  str "Circuit breaker is OPEN. Service temporarily unavailable.".

(** [getState()] *)
Record Snapshot : Type := mkSnapshot {
  seen_state : State;
  seen_failureCount : nat;
  seen_nextAttempt : Z
}.

Definition getState (cb : t) : Snapshot :=
  {| seen_state := state cb;
     seen_failureCount := failureCount cb;
     seen_nextAttempt := nextAttempt cb |}.

Section Execute.
(** The wrapped operation is a closure: it runs over a state [W] of its
    own, of which the breaker reads the clock, and it can read the
    breaker it runs under (its fields, or [getState()]). It is therefore
    given the breaker as it is while [fn] runs. *)
Variables W A : Type.
Variable Date_now : W -> Z.

Definition run (fn : t -> M W A) (cb : t) (w : W) : outcome A * (t * W) :=
  match fn cb w with
  | (Ok result, w') => (Ok result, (onSuccess cb, w'))
  | (Throw error, w') => (Throw error, (onFailure (Date_now w') cb, w'))
  end.

Definition execute (fn : t -> M W A) : M (t * W) A :=
  fun '(cb, w) =>
    match state cb with
    | OPEN =>
        if (Date_now w <? nextAttempt cb)%Z
        then (Throw (new_Error open_message), (cb, w))
        else run fn (set_state HALF_OPEN cb) w
    | _ => run fn cb w
    end.
End Execute.

End CircuitBreaker.

(** ** Values of the inference service and of [JSON.parse] *)

Inductive value : Type :=
| VUndefined
| VNull
| VBool (b : bool)
| VNum (z : Z)
| VStr (s : jsstring)
| VArr (items : list value)
| VObj (fields : list (jsstring * value)).

(** The truthiness that [if], [&&], [||] and [filter(Boolean)] test. *)
Definition truthy (v : value) : bool :=
  match v with
  | VUndefined | VNull => false
  | VBool b => b
  | VNum z => negb (Z.eqb z 0)
  | VStr s => negb (eqs s [])
  | VArr _ | VObj _ => true
  end.

Definition is_nullish (v : value) : bool :=
  match v with
  | VUndefined | VNull => true
  | _ => false
  end.

Definition isArray (v : value) : bool :=
  match v with
  | VArr _ => true
  | _ => false
  end.

Fixpoint lookup (key : jsstring) (fields : list (jsstring * value)) : value :=
  match fields with
  | [] => VUndefined
  | (k, v) :: rest => if eqs k key then v else lookup key rest
  end.

Definition TypeError (msg : string) : JsError := new_Error (str msg).

(** [v.key] for the property names the service reads ([summary_text],
    [generated_text], [error], [question], [options], [answer]), none of
    which a string, a number, a boolean or an array carries. *)
Definition get (v : value) (key : string) : outcome value :=
  match v with
  | VUndefined | VNull => Throw (TypeError "Cannot read properties of null or undefined")
  | VObj fields => Ok (lookup (str key) fields)
  | _ => Ok VUndefined
  end.

(** [v[0]] *)
Definition first_item (v : value) : outcome value :=
  match v with
  | VUndefined | VNull => Throw (TypeError "Cannot read properties of null or undefined")
  | VArr (x :: _) => Ok x
  | VStr (c :: _) => Ok (VStr [c])
  | VObj fields => Ok (lookup (str "0") fields)
  | _ => Ok VUndefined
  end.

(** [v?.key] and [v?.[0]] *)
Definition get_opt (v : value) (key : string) : value :=
  match get v key with
  | Ok x => x
  | Throw _ => VUndefined
  end.

Definition first_item_opt (v : value) : value :=
  match first_item v with
  | Ok x => x
  | Throw _ => VUndefined
  end.

Definition Z_to_str (z : Z) : jsstring :=
  match z with
  | Zneg p => str "-" ++ of_nat (Pos.to_nat p)
  | _ => of_nat (Z.to_nat z)
  end.

(** The string conversion [new Error(v)] applies to its argument. *)
Fixpoint ToString (v : value) : jsstring :=
  match v with
  | VUndefined => str "undefined"
  | VNull => str "null"
  | VBool true => str "true"
  | VBool false => str "false"
  | VNum z => Z_to_str z
  | VStr s => s
  | VArr items =>
      join (str ",")
        (map (fun x => if is_nullish x then [] else ToString x) items)
  | VObj _ => str "[object Object]"
  end.

(** ** The world an [async] function of the service runs in *)

(** What the network gives back for one request, before axios looks at
    it: an HTTP response, or no response at all (a timeout has
    [code = ECONNABORTED]). *)
Inductive NetOutcome : Type :=
| HttpResponse (status : nat) (statusText : jsstring) (data : value)
| NoResponse (code : option jsstring) (msg : jsstring).

Record World : Type := mkWorld {
  now : Z;                              (* what [Date.now()] reads *)
  calls : nat;                          (* requests sent so far *)
  service : nat -> NetOutcome * Z;      (* reply to the n-th request, and the clock when it arrives *)
  breaker : CircuitBreaker.t            (* [hfCircuitBreaker] *)
}.

Definition set_breaker (cb : CircuitBreaker.t) (w : World) : World :=
  {| now := now w; calls := calls w; service := service w; breaker := cb |}.

Record AxiosResponse : Type := mkResponse {
  status : nat;
  statusText : jsstring;
  data : value
}.

(** [validateStatus: (status) => status < 500] *)
Definition validateStatus (status : nat) : bool := status <? 500.

(** [hfAxios.post(url, body)]: axios resolves with the response when
    [validateStatus] accepts its status and rejects with an error that
    carries the response otherwise; without a response it rejects with
    an error that carries none. *)
Definition hfAxios_post : M World AxiosResponse :=
  fun w =>
    let '(reply, arrival) := service w (calls w) in
    let w' := {| now := arrival; calls := S (calls w);
                 service := service w; breaker := breaker w |} in
    match reply with
    | HttpResponse st txt d =>
        if validateStatus st
        then (Ok {| status := st; statusText := txt; data := d |}, w')
        else (Throw {| message := str "Request failed with status code " ++ of_nat st;
                       response_status := Some st;
                       code := Some (str "ERR_BAD_RESPONSE") |}, w')
    | NoResponse c msg =>
        (Throw {| message := msg; response_status := None; code := c |}, w')
    end.

Definition lift {A : Type} (r : outcome A) : M World A := fun w => (r, w).

(** ** services/pdf.service.js *)

Definition MAX_PDF_SIZE : N := (10 * 1024 * 1024)%N.
Definition MIN_TEXT_LENGTH : nat := 50.

(** The bytes of a [Buffer]. *)
Definition Buffer := list N.

(** [extractTextFromPDF(buffer)]; [None] is a buffer that is [null] or
    [undefined]. [pdfParse] is the library function: it rejects with an
    error or resolves with an object of which the source reads the
    string [data.text]. The error thrown in the [try] for a text without
    characters is caught by the [catch] of the same statement. *)
Definition extractTextFromPDF (pdfParse : Buffer -> outcome jsstring)
    (buffer : option Buffer) : outcome jsstring :=
  match buffer with
  | None | Some [] => Throw (new_Error (str "PDF buffer is empty"))
  | Some bytes =>
      if (MAX_PDF_SIZE <? N.of_nat (length bytes))%N then
        Throw (new_Error (str "PDF size exceeds maximum allowed size of "
                          ++ of_nat (N.to_nat (MAX_PDF_SIZE / 1024 / 1024))
                          ++ str " MB"))
      else
        let attempt :=
          match pdfParse bytes with
          | Ok text =>
              if is_blank text then
                Throw (new_Error (str "PDF contains no extractable text. The PDF may be image-based or corrupted."))
              else Ok text
          | Throw error => Throw error
          end in
        match attempt with
        | Ok text => Ok text
        | Throw error =>
            if includes (message error) (str "Invalid PDF") then
              Throw (new_Error (str "Invalid PDF file. Please ensure the file is a valid PDF document."))
            else if includes (message error) (str "password") then
              Throw (new_Error (str "PDF is password protected. Please provide an unprotected PDF."))
            else
              Throw (new_Error (str "Failed to extract text from PDF: " ++ message error))
        end
  end.

Definition cleanText (text : jsstring) : outcome jsstring :=
  match text with
  | [] => Throw (new_Error (str "Text is invalid or not a string"))
  | _ =>
      let lines := filter (fun line => 0 <? length line)
                     (map trim (split_each (eqc nl) text)) in
      let cleaned := trim (collapse_ws (join [sp] lines)) in
      if length cleaned <? MIN_TEXT_LENGTH
      then Throw (new_Error (str "PDF contains insufficient text (minimum 50 characters required). The document may be mostly images or empty."))
      else Ok cleaned
  end.

(** [text.split(/\s+/)] and its length, the word count of the source. *)
Definition split_ws (text : jsstring) : list jsstring := split_runs is_space text.
Definition wordCount (text : jsstring) : nat := length (split_ws text).

(** [RangeError: Invalid array length], the error of an array that
    cannot grow. *)
Definition RangeError (msg : string) : JsError := new_Error (str msg).

(** The loop [for (let i = 0; i < words.length; i += wordsPerChunk)]
    entered at [i]. An array holds a bounded number of elements, and
    [chunks.push] throws a [RangeError] when [chunks] is full: [room] is
    the number of elements [chunks] can still take. *)
Fixpoint chunk_loop (room : nat) (words : list jsstring) (wordsPerChunk i : nat)
    (chunks : list jsstring) {struct room} : outcome (list jsstring) :=
  if i <? length words then
    match room with
    | O => Throw (RangeError "Invalid array length")
    | S room' =>
        let chunk := join [sp] (slice i (i + wordsPerChunk) words) in
        chunk_loop room' words wordsPerChunk (i + wordsPerChunk) (chunks ++ [chunk])
    end
  else Ok chunks.

(** [chunkText(text, wordsPerChunk)]. The array [chunks] has room for
    at least as many elements as the array [words] holds. With a
    positive step the loop pushes at most one chunk per word, so that
    any larger room gives the same chunks; with step 0 the loop never
    advances and fills whatever room there is. *)
Definition chunkText (text : jsstring) (wordsPerChunk : nat)
    : outcome (list jsstring) :=
  if is_blank text then Throw (new_Error (str "Text is empty"))
  else
    let words := split_ws text in
    if length words <=? wordsPerChunk then Ok [text]
    else chunk_loop (length words) words wordsPerChunk 0 [].

(** ** Sample inputs

    Concrete texts, services and runtime functions on which the
    properties below are exercised. *)

(** [toLowerCase] on texts of ASCII characters. *)
Definition lower_ascii (s : jsstring) : jsstring :=
  map (fun c => if ((65 <=? c) && (c <=? 90))%N then (c + 32)%N else c) s.

(** The JSON text of an array of one object that has an [answer], the
    letter E, and nothing else. *)
Definition answer_only_json : jsstring :=
  str "[{" ++ [34%N] ++ str "answer" ++ [34%N] ++ str ":" ++ [34%N] ++ str "E" ++ [34%N]
  ++ str "}]".

(** [JSON.parse] on the two texts the samples hand to it: the text [[0]]
    is the array of the number 0, and [answer_only_json] the array of
    its one object. *)
Definition parse_sample (s : jsstring) : option value :=
  if eqs s (str "[0]") then Some (VArr [VNum 0])
  else if eqs s answer_only_json
  then Some (VArr [VObj [(str "answer", VStr (str "E"))]])
  else None.

(** [new CircuitBreaker({ failureThreshold: 5, resetTimeout: 60000 })] *)
Definition hfCircuitBreaker : CircuitBreaker.t :=
  CircuitBreaker.constructor (Some 5) (Some 60000%Z) 0.

Definition world_with (svc : nat -> NetOutcome * Z) : World :=
  {| now := 0; calls := 0; service := svc; breaker := hfCircuitBreaker |}.

(** A service that cannot be reached. *)
Definition offline : nat -> NetOutcome * Z :=
  fun _ => (NoResponse None (str "socket hang up"), 0%Z).

(** A service whose endpoint is gone: every request gets status 410. *)
Definition gone : nat -> NetOutcome * Z :=
  fun _ => (HttpResponse 410 (str "Gone") (VStr []), 0%Z).

(** A service that answers every request with the given status and no
    body. *)
Definition failing_with (st : nat) : nat -> NetOutcome * Z :=
  fun _ => (HttpResponse st (str "Server Error") VNull, 0%Z).

(** A service that answers every request with the given body. *)
Definition answering (body : value) : nat -> NetOutcome * Z :=
  fun _ => (HttpResponse 200 (str "OK") body, 0%Z).

Definition summary_reply (text : jsstring) : value :=
  VArr [VObj [(str "summary_text", VStr text)]].

Definition generated_reply (text : jsstring) : value :=
  VArr [VObj [(str "generated_text", VStr text)]].

(** A summary that is long enough for [summarizeText] only through a run
    of fifty spaces: three characters are left of it. *)
Definition padded_summary : jsstring := str "a" ++ repeat sp 50 ++ str "b".

(** A summary of twenty, twenty and nineteen characters, of which forty
    are left when the whitespace run is replaced. *)
Definition short_summary : jsstring :=
  repeat 97%N 20 ++ repeat sp 20 ++ repeat 98%N 19.

(** [n] times the word [w], separated by single spaces. *)
Definition words_of (w : string) (n : nat) : jsstring := join [sp] (repeat (str w) n).

(** A cleaned text of exactly 50 characters. *)
Definition fifty_chars : jsstring :=
  str "aaaaa bbbb cccc dddd eeee ffff gggg hhhh iiii jjjj".

(** A cleaned text whose first sentence is one of the fixed distractors. *)
Definition distractor_text : jsstring :=
  str "It is not discussed in the text. Further filler words go here to reach fifty chars".

(** A cleaned text of six sentences. *)
Definition six_sentences : jsstring :=
  str "The study of reliable systems is a long tradition in computing. Researchers investigate methods that make services robust against failures. This document presents an approach based on circuit breakers and retries. The results show that fallback algorithms produce usable output. We conclude that deterministic extraction is a valuable safety net. Another sentence to make the text a little longer than before.".

(** A summary as a model gives it, of more than 50 characters. *)
Definition model_summary : jsstring :=
  str "The document explains how circuit breakers and retries keep a service usable under load.".

(** The six sentences as a file has them: between blank lines, with a
    run of spaces inside. *)
Definition untidy_text : jsstring :=
  [sp; nl; nl] ++ str "The study of reliable systems is a long tradition in computing."
  ++ [sp; sp; nl]
  ++ str "Researchers investigate methods that make services robust against failures. This document presents an approach based on circuit breakers and retries. The results show that fallback algorithms produce usable output. We conclude that deterministic extraction is a valuable safety net. Another sentence to make the text a little longer than before."
  ++ [nl; sp].

(** 4000 words after 3000 spaces. *)
Definition indented_text : jsstring := repeat sp 3000 ++ words_of "a" 4000.

(** A text that names [__proto__] twice. *)
Definition proto_text : jsstring :=
  str "builders set __proto__ and read __proto__ where others write methods".

(** A text that names the inherited function [constructor] twice. *)
Definition constructor_text : jsstring :=
  str "every constructor calls another constructor".

(** 4000 words, all the same. *)
Definition uniform_text : jsstring := words_of "a" 4000.

(** 500 words of five letters. *)
Definition lorem : jsstring := words_of "lorem" 500.

(** What is left of [short_summary]. *)
Definition forty_chars : jsstring := repeat 97%N 20 ++ [sp] ++ repeat 98%N 19.

(** The chunks of a text at 1000 words per chunk. *)
Definition chunks_of (text : jsstring) : list jsstring :=
  match chunkText text 1000 with
  | Ok chunks => chunks
  | Throw _ => []
  end.

(** A breaker that opens at the second failure, for 100 ms, over a world
    that is its clock, and an operation that fails and takes 1 ms. *)
Definition two_strikes : CircuitBreaker.t :=
  CircuitBreaker.constructor (Some 2) (Some 100%Z) 0.

Definition clock (t : Z) : Z := t.
Definition down_error (t : Z) : JsError := new_Error (str "down").
Definition tick (t : Z) : Z := (t + 1)%Z.
(** An operation that returns the state it finds the breaker in. *)
Definition probe (cb : CircuitBreaker.t) : M Z CircuitBreaker.State :=
  ret (CircuitBreaker.seen_state (CircuitBreaker.getState cb)).

(** What a computation returned, or the message of what it threw. *)
Definition returned {A : Type} (r : outcome A * World) : option A :=
  match fst r with
  | Ok a => Some a
  | Throw _ => None
  end.

Definition thrown {A : Type} (r : outcome A * World) : option jsstring :=
  match fst r with
  | Ok _ => None
  | Throw e => Some (message e)
  end.

(** ** services/ai.service.js *)

Section AiService.

(** Two functions of the JavaScript runtime are taken as they are:
    [String.prototype.toLowerCase] (the Unicode case mapping) and
    [JSON.parse], which gives [None] where it throws a [SyntaxError]. *)
Variable toLowerCase : jsstring -> jsstring.
Variable JSON_parse : jsstring -> option value.

(** *** callHuggingFace *)

Definition shouldRetry (error : JsError) : bool :=
  match response_status error with
  | Some status => (status =? 503) || (status =? 429) || (status =? 408)
  | None => true
  end.

(** The operation handed to [retryOnCondition]: one request, and the
    [try/catch] around it. The request body never comes back to the
    caller; the reply is whatever [service] holds for this request. *)
Definition invoke_once : M World value :=
  try_catch
    (response <- hfAxios_post ;;
     if status response =? 503 then
       throw (new_Error (str "Model is loading. Please wait a moment and try again."))
     else if status response =? 429 then
       throw (new_Error (str "Rate limit exceeded. Please try again later."))
     else if status response =? 410 then
       throw (new_Error (str "API endpoint deprecated. Please update the application."))
     else if 400 <=? status response then
       throw (new_Error (str "API error: " ++ of_nat (status response)
                           ++ str " - " ++ statusText response))
     else if truthy (get_opt (data response) "error") then
       throw (new_Error (ToString (get_opt (data response) "error")))
     else ret (data response))
    (fun error =>
       match response_status error with
       | Some _ => throw error
       | None =>
           match code error with
           | Some c =>
               if eqs c (str "ECONNABORTED") then
                 throw (new_Error (str "Request timeout. The model is taking too long to respond."))
               else throw (new_Error (str "Network error: " ++ message error))
           | None => throw (new_Error (str "Network error: " ++ message error))
           end
       end).

Definition callHuggingFace : M World value :=
  fun w =>
    let op := Retry.retryOnCondition invoke_once (fun error => ret (shouldRetry error)) 3 in
    match CircuitBreaker.execute now (fun _ => op) (breaker w, w) with
    | (r, (cb, w')) => (r, set_breaker cb w')
    end.

(** *** The word-frequency table

    [wordFreq] is an object literal used as a map from words to counts,
    so a word is looked up among the properties every object inherits
    from [Object.prototype] as well. Its own properties are kept in
    insertion order; [Object.entries] lists the keys that are array
    indices first, in ascending numeric order, and the other keys in
    insertion order.

    For a word that names an inherited function, [wordFreq[word] || 0]
    is that function the first time; adding [1] to it gives a string,
    the text of the function followed by [1], which is stored as an own
    property, and every later occurrence appends another [1]. For the
    word [__proto__] the value read is the prototype object and the sum
    is a string again, but the assignment goes to the setter of
    [__proto__], which takes objects and [null] only: the word never
    becomes an own property. *)

Inductive Count : Type :=
| Num (n : nat)          (* a number *)
| Concat (ones : nat).   (* the text of a function followed by [ones] digits 1 *)

Definition WordFreq := list (jsstring * Count).

(** The function-valued properties of [Object.prototype]. *)
Definition inherited_functions : list jsstring :=
  map str ["constructor"; "hasOwnProperty"; "isPrototypeOf"; "propertyIsEnumerable";
           "toLocaleString"; "toString"; "valueOf"; "__defineGetter__";
           "__defineSetter__"; "__lookupGetter__"; "__lookupSetter__"]%string.

Definition proto_key : jsstring := str "__proto__".

(** [(wordFreq[k] || 0) + 1] for an own property holding [c]: a count is
    at least 1 and a string is not empty, so neither gives way to the [0]. *)
Definition plus_one (c : Count) : Count :=
  match c with
  | Num n => Num (S n)
  | Concat ones => Concat (S ones)
  end.

(** What [wordFreq[k] = (wordFreq[k] || 0) + 1] stores under a [k] that
    is no own property yet; [None] when nothing is stored. *)
Definition first_count (k : jsstring) : option Count :=
  if eqs k proto_key then None
  else if arr_includes inherited_functions k then Some (Concat 1)
  else Some (Num 1).

(** [wordFreq[k] = (wordFreq[k] || 0) + 1] *)
Fixpoint bump (k : jsstring) (m : WordFreq) : WordFreq :=
  match m with
  | [] => match first_count k with
          | Some c => [(k, c)]
          | None => []
          end
  | (k', c) :: m' => if eqs k' k then (k', plus_one c) :: m' else (k', c) :: bump k m'
  end.

Definition is_digit (c : char) : bool := ((48 <=? c) && (c <=? 57))%N.

Definition digits_value (k : jsstring) : N :=
  fold_left (fun acc c => (acc * 10 + (c - 48))%N) k 0%N.

(** The array index a key denotes, when it is the canonical decimal of a
    number below 2^32 - 1. *)
Definition array_index (k : jsstring) : option N :=
  match k with
  | [] => None
  | c :: rest =>
      if forallb is_digit k
         && (negb (eqc c 48%N) || (length rest =? 0))
         && (digits_value k <=? 4294967294)%N
      then Some (digits_value k)
      else None
  end.

Fixpoint insert_index (e : N * (jsstring * Count)) (l : list (N * (jsstring * Count)))
    : list (N * (jsstring * Count)) :=
  match l with
  | [] => [e]
  | x :: l' => if (fst e <=? fst x)%N then e :: l else x :: insert_index e l'
  end.

Definition index_entries (m : WordFreq) : list (N * (jsstring * Count)) :=
  fold_right
    (fun e acc => match array_index (fst e) with
                  | Some i => insert_index (i, e) acc
                  | None => acc
                  end) [] m.

(** [Object.entries(wordFreq)] *)
Definition entries (m : WordFreq) : list (jsstring * Count) :=
  map snd (index_entries m)
  ++ filter (fun e => match array_index (fst e) with Some _ => false | None => true end) m.

(** [(a, b) => b[1] - a[1]], as the sort reads the result: a string that
    is no numeral makes the difference [NaN], which the sort takes for
    [+0]. *)
Definition compare_desc (a b : jsstring * Count) : Z :=
  match snd a, snd b with
  | Num x, Num y => Z.of_nat y - Z.of_nat x
  | _, _ => 0
  end.

(** [.sort((a, b) => b[1] - a[1])]: descending by count; the sort of the
    language is stable, which fixes the result whenever all the counts
    are numbers. With a count that is a string the comparator is not a
    consistent one and the language leaves the order to the
    implementation; the model then goes on inserting by the comparator,
    and no property below rests on the order it gives there. *)
Fixpoint insert_desc (e : jsstring * Count) (l : list (jsstring * Count))
    : list (jsstring * Count) :=
  match l with
  | [] => [e]
  | x :: l' => if (0 <? compare_desc e x)%Z then x :: insert_desc e l' else e :: l
  end.

Definition sort_desc (l : list (jsstring * Count)) : list (jsstring * Count) :=
  fold_right insert_desc [] l.

(** The [forEach] over the words that fills the table; [keep] is the test
    on the cleaned word. *)
Definition count_words (keep : jsstring -> bool) (words : list jsstring) : WordFreq :=
  fold_left
    (fun wordFreq word =>
       let cleanWord := strip_non_word word in
       if keep cleanWord then bump cleanWord wordFreq else wordFreq)
    words [].

(** [Object.entries(wordFreq).sort(...).slice(0, n).map(([word]) => word)] *)
Definition top_words (n : nat) (m : WordFreq) : list jsstring :=
  map fst (slice 0 n (sort_desc (entries m))).

(** [text.split(/[.!?]+/).filter(s => s.trim().length > 20)] *)
Definition sentences_of (text : jsstring) : list jsstring :=
  filter (fun s => 20 <? length (trim s)) (split_runs is_terminal text).

(** *** extractKeyInformation *)

Record Extracted : Type := mkExtracted {
  introSection : list jsstring;
  importantSentences : list jsstring;
  keyTerms : list jsstring;
  paragraphs : list jsstring
}.

Definition stopwords : list jsstring :=
  map str ["the"; "this"; "that"; "with"; "from"; "which"; "their"; "there"]%string.

(** [Math.floor(sentences.length * 0.2)] is the integer quotient by 5 for
    every array length a program can hold. *)
Definition extractKeyInformation (text : jsstring) : Extracted :=
  let sentences := sentences_of text in
  let paragraphs := filter (fun p => 50 <? length (trim p)) (split_blank_lines text) in
  let introSection := slice 0 (length sentences / 5) sentences in
  let words := split_ws (toLowerCase text) in
  let wordFreq :=
    count_words (fun cleanWord => (5 <? length cleanWord)
                                  && negb (arr_includes stopwords cleanWord)) words in
  let keyTerms := top_words 15 wordFreq in
  let importantSentences :=
    slice 0 10
      (filter (fun sentence =>
                 let lowerSentence := toLowerCase sentence in
                 existsb (fun term => includes lowerSentence term) keyTerms)
              sentences) in
  {| introSection := introSection;
     importantSentences := importantSentences;
     keyTerms := keyTerms;
     paragraphs := slice 0 5 paragraphs |}.

(** *** createStructuredSummary *)

Definition problemIndicators : list jsstring :=
  map str ["problem"; "issue"; "challenge"; "aim"; "goal"; "purpose"; "objective";
           "propose"; "present"; "introduce"; "study"; "research"; "investigate"]%string.

Definition methodIndicators : list jsstring :=
  map str ["method"; "approach"; "technique"; "algorithm"; "system"; "framework";
           "model"; "process"; "procedure"]%string.

Definition resultIndicators : list jsstring :=
  map str ["result"; "finding"; "show"; "demonstrate"; "achieve"; "obtain";
           "observe"; "conclude"; "indicate"]%string.

(** [indicators.some(indicator => s.toLowerCase().includes(indicator))] *)
Definition mentions (indicators : list jsstring) (s : jsstring) : bool :=
  existsb (fun indicator => includes (toLowerCase s) indicator) indicators.

(** [a || b] on strings that may be undefined. *)
Definition or_else (a b : option jsstring) : option jsstring :=
  match a with
  | Some (c :: s) => Some (c :: s)
  | _ => b
  end.

Definition is_truthy_str (a : option jsstring) : bool :=
  match a with
  | Some (_ :: _) => true
  | _ => false
  end.

Definition get_str (a : option jsstring) : jsstring :=
  match a with
  | Some s => s
  | None => []
  end.

Definition ellipsis : jsstring := str "...".

(** The introduction block. *)
Definition intro_block (introSection : list jsstring) : jsstring :=
  if 0 <? length introSection then
    let problemSentence :=
      or_else (find (mentions problemIndicators) introSection)
              (nth_error introSection 0) in
    if is_truthy_str problemSentence then
      trim (get_str problemSentence)
      ++ (if (length (get_str problemSentence) <? 150) && (1 <? length introSection)
          then [sp] ++ trim (get_str (nth_error introSection 1)) else [])
      ++ [nl; nl]
    else
      let intro := join [sp] (slice 0 2 introSection) in
      substring 0 250 intro
      ++ (if 250 <? length intro then ellipsis else [])
      ++ [nl; nl]
  else [].

(** The [forEach] that fills [organizedSentences] and the set [used]. *)
Definition organize (importantSentences : list jsstring) : list jsstring :=
  fst
    (fold_left
       (fun '(organizedSentences, used) sentence =>
          if negb (arr_includes used sentence)
             && (40 <? length (trim sentence))
             && (length (trim sentence) <? 250)
          then (organizedSentences ++ [trim sentence], used ++ [sentence])
          else (organizedSentences, used))
       importantSentences ([], [])).

(** The three code units the source has for the bullet, and a space. *)
Definition bullet : jsstring := [226; 8364; 162; 32]%N.

Definition main_points_block (importantSentences : list jsstring) : jsstring :=
  if 0 <? length importantSentences then
    let organizedSentences := organize importantSentences in
    if 0 <? length organizedSentences then
      str "Main Points:" ++ [nl]
      ++ fold_left
           (fun summary sentence =>
              let cleanSentence := trim sentence in
              let cleanSentence :=
                if negb (ends_with_terminal cleanSentence)
                then cleanSentence ++ [dot] else cleanSentence in
              summary ++ bullet ++ cleanSentence ++ [nl])
           (slice 0 6 organizedSentences) []
      ++ [nl]
    else []
  else [].

(** The [Approach] and [Key Findings] lines. *)
Definition indicator_block (label : jsstring) (indicators : list jsstring)
    (importantSentences : list jsstring) : jsstring :=
  match filter (mentions indicators) importantSentences with
  | [] => []
  | first :: _ =>
      label ++ trim first
      ++ (if negb (ends_with_terminal first) then [dot] else [])
      ++ [nl; nl]
  end.

Definition conclusion_block (paragraphs : list jsstring) : jsstring :=
  if 0 <? length paragraphs then
    let conclusion := nth (length paragraphs - 1) paragraphs [] in
    if negb (eqs conclusion []) && (50 <? length conclusion) then
      let conclusionText := trim conclusion in
      str "Conclusion: "
      ++ substring 0 200 conclusionText
      ++ (if 200 <? length conclusionText then ellipsis else [])
      ++ (if negb (ends_with_terminal conclusionText) then [dot] else [])
    else []
  else [].

(** [.replace(/^\s+|\s+$/g, '')]: the whitespace run at the start and the
    one at the end are removed. *)
Definition strip_ends (s : jsstring) : jsstring := trimStart (trimEnd s).

Definition createStructuredSummary (extracted : Extracted) : jsstring :=
  let summary :=
    intro_block (introSection extracted)
    ++ main_points_block (importantSentences extracted)
    ++ indicator_block (str "Approach: ") methodIndicators (importantSentences extracted)
    ++ indicator_block (str "Key Findings: ") resultIndicators (importantSentences extracted)
    ++ conclusion_block (paragraphs extracted) in
  strip_ends (squeeze_dots (squeeze_blank_lines (collapse_ws (trim summary)))).

(** The deterministic summary of a text. *)
Definition extractiveSummary (text : jsstring) : jsstring :=
  createStructuredSummary (extractKeyInformation text).

(** *** summarizeText *)

Definition summary_models : list jsstring :=
  map str ["google/flan-t5-large"; "google/flan-t5-base"; "Falconsai/text_summarization";
           "facebook/bart-large-cnn"; "google/pegasus-xsum";
           "sshleifer/distilbart-cnn-12-6"]%string.

(** [models[models.length - 1]] *)
Definition last_model (models : list jsstring) : jsstring := last models [].

Definition bind_outcome {A B : Type} (r : outcome A) (k : A -> outcome B) : outcome B :=
  match r with
  | Ok a => k a
  | Throw e => Throw e
  end.

(** The chain of [if / else if] that reads the summary out of the reply;
    [result.summary_text] throws a [TypeError] on [null]. *)
Definition pick_summary (result : value) : outcome value :=
  if isArray result && truthy (get_opt (first_item_opt result) "summary_text") then
    Ok (get_opt (first_item_opt result) "summary_text")
  else
    bind_outcome (get result "summary_text") (fun direct =>
    if truthy direct then Ok direct
    else if isArray result && truthy (get_opt (first_item_opt result) "generated_text") then
      Ok (get_opt (first_item_opt result) "generated_text")
    else
      bind_outcome (get result "generated_text") (fun generated =>
      if truthy generated then Ok generated else Ok VNull)).

(** The body of the [try] for one model: [Some s] is [return s], [None]
    runs on to the next model. Calling [.trim()] on a value that is not a
    string throws a [TypeError]. *)
Definition summarize_with_model (text : jsstring) : M World (option jsstring) :=
  result <- callHuggingFace ;;
  summary <- lift (pick_summary result) ;;
  if truthy summary then
    match summary with
    | VStr s =>
        if 50 <? length (trim s) then
          let cleanedSummary := squeeze_dots (collapse_ws (trim s)) in
          if (10 <? length (split_each is_terminal cleanedSummary))
             && (length cleanedSummary <? 200)
          then
            let structured := extractiveSummary text in
            ret (Some (if length cleanedSummary <? length structured
                       then structured else cleanedSummary))
          else ret (Some cleanedSummary)
        else ret None
    | _ => throw (TypeError "summary.trim is not a function")
    end
  else ret None.

Fixpoint summarize_loop (models rest : list jsstring) (text : jsstring)
    : M World jsstring :=
  match rest with
  | [] => ret (extractiveSummary text)
  | model :: rest' =>
      r <- try_catch (summarize_with_model text)
             (fun error =>
                if eqs model (last_model models)
                then ret (Some (extractiveSummary text))
                else ret None) ;;
      match r with
      | Some s => ret s
      | None => summarize_loop models rest' text
      end
  end.

Definition summarizeText (text : jsstring) : M World jsstring :=
  if is_blank text then throw (new_Error (str "Text is empty or invalid"))
  else if wordCount text <? 500 then ret (extractiveSummary text)
  else summarize_loop summary_models summary_models text.

(** *** generateMCQs *)

Record MCQ : Type := mkMCQ {
  question : value;
  options : value;
  answer : value
}.

Definition mcq_models : list jsstring :=
  map str ["google/flan-t5-large"; "google/flan-t5-base"; "microsoft/DialoGPT-large";
           "gpt2"; "distilgpt2"]%string.

Definition default_options : value :=
  VArr (map (fun s => VStr (str s)) ["Option A"; "Option B"; "Option C"; "Option D"]%string).

Definition is_four_array (v : value) : bool :=
  match v with
  | VArr items => length items =? 4
  | _ => false
  end.

(** The function mapped over the parsed array; reading a property of a
    [null] element throws a [TypeError]. *)
Definition to_mcq (mcq : value) : outcome MCQ :=
  bind_outcome (get mcq "question") (fun q =>
  bind_outcome (get mcq "options") (fun opts =>
  bind_outcome (get mcq "answer") (fun a =>
  Ok {| question := if truthy q then q else VStr (str "Question not generated");
        options := if is_four_array opts then opts else default_options;
        answer := if truthy a then a
                  else if truthy (first_item_opt opts) then first_item_opt opts
                  else VStr (str "Option A") |}))).

Fixpoint map_outcome {A B : Type} (f : A -> outcome B) (l : list A) : outcome (list B) :=
  match l with
  | [] => Ok []
  | x :: l' =>
      bind_outcome (f x) (fun y =>
      bind_outcome (map_outcome f l') (fun ys => Ok (y :: ys)))
  end.

(** The chain of [if / else if] that reads the generated text. *)
Definition pick_text (result : value) : outcome value :=
  if isArray result && truthy (get_opt (first_item_opt result) "generated_text") then
    Ok (get_opt (first_item_opt result) "generated_text")
  else
    bind_outcome (get result "generated_text") (fun generated =>
    if truthy generated then Ok generated
    else match result with
         | VStr _ => Ok result
         | _ => Ok (VStr [])
         end).

(** The inner [try]: [JSON.parse] and the mapping; everything thrown in
    it is caught there, and the loop goes on. *)
Definition parse_mcqs (json : jsstring) : option (list MCQ) :=
  match JSON_parse json with
  | Some (VArr items) =>
      if 0 <? length items then
        match map_outcome to_mcq (slice 0 5 items) with
        | Ok mcqs => Some mcqs
        | Throw _ => None
        end
      else None
  | _ => None
  end.

(** The body of the outer [try] for one model: [Some l] is [return l]. *)
Definition mcqs_with_model : M World (option (list MCQ)) :=
  result <- callHuggingFace ;;
  mcqText <- lift (pick_text result) ;;
  if truthy mcqText then
    match mcqText with
    | VStr s =>
        match match_json_array s with
        | Some json => ret (parse_mcqs json)
        | None => ret None
        end
    | _ => throw (TypeError "mcqText.match is not a function")
    end
  else ret None.

Definition dq : char := 34%N.
Definition quoted (phrase : jsstring) : jsstring := [dq] ++ phrase ++ [dq].

(** [questionTypes[k](phrase)] *)
Definition questionTypes (k : nat) (phrase : jsstring) : jsstring :=
  match k with
  | 0 => str "What is mentioned about " ++ quoted phrase ++ str "?"
  | 1 => str "According to the text, which statement is true regarding "
         ++ quoted phrase ++ str "?"
  | 2 => str "How does the text describe " ++ quoted phrase ++ str "?"
  | 3 => str "Why is " ++ quoted phrase ++ str " important according to the document?"
  | _ => str "Identify the key aspect of " ++ quoted phrase ++ str " mentioned in the text."
  end.

Definition distractors : list jsstring :=
  map str ["It is not discussed in the text";
           "The text provides conflicting information";
           "Further research is needed on this topic"]%string.

(** One turn of the [for] loop over the first sentences. The local
    [keyTerm] of the source is computed and never used; it is left out. *)
Definition sentence_mcq (sentences : list jsstring) (i : nat) : option MCQ :=
  let sentence := trim (nth i sentences []) in
  if length sentence <? 30 then None
  else
    let keyPhrase := substring 0 (Nat.min 60 (length sentence)) sentence in
    let question :=
      questionTypes (i mod 5)
        (substring 0 40 keyPhrase ++ (if 40 <? length keyPhrase then ellipsis else [])) in
    let options :=
      (substring 0 (Nat.min 80 (length sentence)) sentence
       ++ (if 80 <? length sentence then ellipsis else []))
      :: distractors in
    Some {| question := VStr question;
            options := VArr (map VStr (slice 0 4 options));
            answer := VStr (nth 0 options []) |}.

Definition generic_mcq (importantWords : list jsstring) : MCQ :=
  let topics := slice 0 4 importantWords in
  let topic := get_str (or_else (nth_error topics 0) (Some (str "the subject"))) in
  {| question := VStr (str "What is the main focus regarding " ++ quoted topic
                       ++ str " in this document?");
     options := VArr (map (fun s => VStr (str s))
                        ["It is the primary topic discussed"; "It is mentioned briefly";
                         "It is not relevant to the document";
                         "It requires additional context"]%string);
     answer := VStr (str "It is the primary topic discussed") |}.

Definition generateIntelligentMCQs (text : jsstring) : list MCQ :=
  let sentences := sentences_of text in
  let words := split_ws (toLowerCase text) in
  let wordFreq := count_words (fun cleanWord => 4 <? length cleanWord) words in
  let importantWords := top_words 10 wordFreq in
  let mcqs :=
    fold_left
      (fun mcqs i =>
         match sentence_mcq sentences i with
         | Some mcq => mcqs ++ [mcq]
         | None => mcqs
         end)
      (seq 0 (Nat.min 5 (length sentences))) [] in
  (* while (mcqs.length < 5) mcqs.push(...) *)
  let mcqs := mcqs ++ repeat (generic_mcq importantWords) (5 - length mcqs) in
  slice 0 5 mcqs.

Fixpoint mcq_loop (rest : list jsstring) (text : jsstring) : M World (list MCQ) :=
  match rest with
  | [] => ret (generateIntelligentMCQs text)
  | model :: rest' =>
      r <- try_catch mcqs_with_model (fun error => ret None) ;;
      match r with
      | Some mcqs => ret mcqs
      | None => mcq_loop rest' text
      end
  end.

Definition generateMCQs (text : jsstring) : M World (list MCQ) :=
  if is_blank text then throw (new_Error (str "Text is empty or invalid"))
  else mcq_loop mcq_models text.

(** *** processDocument *)

Record ProcessingResult : Type := mkResult {
  summary : jsstring;
  mcqs : list MCQ
}.

(** [[chunks[0], chunks[Math.floor(chunks.length / 2)],
      chunks[chunks.length - 1]].filter(Boolean)]: an index out of range
    reads [undefined], which the filter drops as it drops the empty
    string. *)
Definition priorityChunks (chunks : list jsstring) : list jsstring :=
  flat_map
    (fun chunk => if is_truthy_str chunk then [get_str chunk] else [])
    [nth_error chunks 0;
     nth_error chunks (length chunks / 2);
     nth_error chunks (length chunks - 1)].

(** The loop over the priority chunks. *)
Fixpoint summarize_sections (chunks : list jsstring) (sectionSummaries : list jsstring)
    : M World (list jsstring) :=
  match chunks with
  | [] => ret sectionSummaries
  | chunk :: rest =>
      sectionSummaries' <-
        try_catch
          (summary <- summarizeText chunk ;;
           if negb (eqs summary []) && (50 <? length summary)
           then ret (sectionSummaries ++ [summary])
           else ret sectionSummaries)
          (fun error => ret sectionSummaries) ;;
      summarize_sections rest sectionSummaries'
  end.

(** The first part of [processDocument]: the summary of either path,
    before the floor is applied. *)
Definition summaryStage (text : jsstring) : M World jsstring :=
  if 3000 <? wordCount text then
    chunks <- lift (chunkText text 1000) ;;
    sectionSummaries <- summarize_sections (priorityChunks chunks) [] ;;
    if 0 <? length sectionSummaries then
      let combined := join [nl; nl] sectionSummaries in
      if 500 <? length combined then summarizeText combined
      else ret combined
    else summarizeText (substring 0 3000 text)
  else summarizeText text.

(** The floor on the summary: [finalSummary] after the [if]. *)
Definition applyFloor (text finalSummary : jsstring) : jsstring :=
  if eqs finalSummary [] || (length (trim finalSummary) <? 100) then
    let enhanced := extractiveSummary text in
    if length finalSummary <? length enhanced then enhanced else finalSummary
  else finalSummary.

Definition processDocument (text : jsstring) : M World ProcessingResult :=
  if is_blank text then throw (new_Error (str "Document text is empty or invalid"))
  else
    finalSummary <- summaryStage text ;;
    let finalSummary := applyFloor text finalSummary in
    mcqs <- generateMCQs text ;;
    ret {| summary := trim finalSummary; mcqs := slice 0 5 mcqs |}.

(** ** controllers/study.controller.js *)

(** What the handler sends: [res.status(code).json({ message, ... })]. *)
Record Reply : Type := mkReply {
  statusCode : nat;
  replyMessage : jsstring
}.

(** The [catch] of [uploadPDF]. *)
Definition upload_failure (error : JsError) : Reply :=
  let errorMessage :=
    match message error with
    | [] => str "Failed to process PDF"
    | m => m
    end in
  if includes errorMessage (str "extract") || includes errorMessage (str "PDF") then
    {| statusCode := 400; replyMessage := errorMessage |}
  else if includes errorMessage (str "timeout") || includes errorMessage (str "loading") then
    {| statusCode := 504;
       replyMessage := str "Processing is taking longer than expected. Please try again in a few moments." |}
  else
    {| statusCode := 500; replyMessage := errorMessage |}.

(** The body of the [try] of [uploadPDF]; [save] is [session.save()] of
    the session built from the result. *)
Definition upload_steps (pdfParse : Buffer -> outcome jsstring)
    (save : ProcessingResult -> M World unit) (buffer : option Buffer)
    : M World unit :=
  rawText <- lift (extractTextFromPDF pdfParse buffer) ;;
  cleanedText <- lift (cleanText rawText) ;;
  result <- processDocument cleanedText ;;
  save result.

Definition uploadPDF (pdfParse : Buffer -> outcome jsstring)
    (save : ProcessingResult -> M World unit) (buffer : option Buffer)
    : World -> Reply * World :=
  fun w =>
    match upload_steps pdfParse save buffer w with
    | (Ok _, w') =>
        ({| statusCode := 201; replyMessage := str "PDF processed successfully" |}, w')
    | (Throw error, w') => (upload_failure error, w')
    end.

(** ** Test doubles

    Operations and predicates that count how often they are called, for
    the properties that speak about the number of invocations. *)

Record Counters : Type := mkCounters {
  invoked : nat;   (* calls of the operation *)
  asked : nat      (* calls of the predicate *)
}.

(** An operation that fails on its first [failures] calls and succeeds
    with [a] afterwards. *)
Definition flaky_op {A : Type} (failures : nat) (a : A) (e : JsError) : M Counters A :=
  fun c =>
    (if invoked c <? failures then Throw e else Ok a,
     {| invoked := S (invoked c); asked := asked c |}).

(** An operation that always fails. *)
Definition failing_op {A : Type} (e : JsError) : M Counters A :=
  fun c => (Throw e, {| invoked := S (invoked c); asked := asked c |}).

(** A predicate that answers [true] on its first [accepts] calls and
    [false] afterwards. *)
Definition accept_first (accepts : nat) (error : JsError) : M Counters bool :=
  fun c =>
    (Ok (asked c <? accepts),
     {| invoked := invoked c; asked := S (asked c) |}).

(** An operation whose [n]-th call gives [script n], and a predicate that
    is a function of the error it is asked about; the journal holds the
    number of calls made and the errors shown to the predicate, in
    order. *)
Record Journal : Type := mkJournal {
  made : nat;
  shown : list JsError
}.

Definition scripted_op {A : Type} (script : nat -> outcome A) : M Journal A :=
  fun j => (script (made j), {| made := S (made j); shown := shown j |}).

Definition deciding (p : JsError -> bool) (error : JsError) : M Journal bool :=
  fun j => (Ok (p error), {| made := made j; shown := shown j ++ [error] |}).

(** The errors of the calls [first], ..., [first + n - 1] of a script. *)
Definition errors_of {A : Type} (script : nat -> outcome A) (first n : nat)
    : list JsError :=
  flat_map (fun i => match script i with
                     | Throw e => [e]
                     | Ok _ => []
                     end) (seq first n).

(** The state of the breaker and the world after [n] calls of [execute]. *)
Fixpoint execute_n {W A : Type} (Date_now : W -> Z) (fn : CircuitBreaker.t -> M W A) (n : nat)
    (s : CircuitBreaker.t * W) : CircuitBreaker.t * W :=
  match n with
  | O => s
  | S n' => execute_n Date_now fn n' (snd (CircuitBreaker.execute Date_now fn s))
  end.

(** The world after one more request, whose reply arrived at [arrival]. *)
Definition sent (arrival : Z) (w : World) : World :=
  {| now := arrival; calls := S (calls w); service := service w; breaker := breaker w |}.

(** The message [invoke_once] gives the error of a response with a status
    from 400 to 499. *)
Definition client_error_message (st : nat) (txt : jsstring) : jsstring :=
  if st =? 429 then str "Rate limit exceeded. Please try again later."
  else if st =? 410 then str "API endpoint deprecated. Please update the application."
  else str "API error: " ++ of_nat st ++ str " - " ++ txt.

(** An operation that always fails: with which error, and what it does to
    its state, is arbitrary. *)
Definition always_failing {W A : Type} (err : W -> JsError) (step : W -> W) : M W A :=
  fun w => (Throw (err w), step w).

(** A field without a separator character. *)
Definition sep_free (sep : char -> bool) (w : jsstring) : Prop :=
  forallb (fun c => negb (sep c)) w = true.

(** Every field but the last is non-empty. *)
Fixpoint inner_nonempty (l : list jsstring) : Prop :=
  match l with
  | [] => True
  | w :: rest =>
      match rest with
      | [] => True
      | _ => w <> [] /\ inner_nonempty rest
      end
  end.

(** ** The MCQ invariant of the specification, as executable checks *)

(** The strings of an array of strings. *)
Definition as_strings (v : value) : option (list jsstring) :=
  match v with
  | VArr items =>
      fold_right
        (fun x acc =>
           match x, acc with
           | VStr s, Some l => Some (s :: l)
           | _, _ => None
           end)
        (Some []) items
  | _ => None
  end.

Definition question_nonempty (m : MCQ) : bool :=
  match question m with
  | VStr (_ :: _) => true
  | _ => false
  end.

(** Exactly four options, each a non-empty string. *)
Definition four_nonempty_options (m : MCQ) : bool :=
  match as_strings (options m) with
  | Some l => (length l =? 4) && forallb (fun s => negb (eqs s [])) l
  | None => false
  end.

Fixpoint no_duplicates (l : list jsstring) : bool :=
  match l with
  | [] => true
  | s :: rest => negb (arr_includes rest s) && no_duplicates rest
  end.

Definition options_distinct (m : MCQ) : bool :=
  match as_strings (options m) with
  | Some l => no_duplicates l
  | None => false
  end.

Definition answer_among_options (m : MCQ) : bool :=
  match answer m, as_strings (options m) with
  | VStr a, Some l => arr_includes l a
  | _, _ => false
  end.

(** The answer is the first option. *)
Definition answer_is_first_option (m : MCQ) : bool :=
  match answer m, as_strings (options m) with
  | VStr a, Some (first :: _) => eqs a first
  | _, _ => false
  end.

(** The invariant the specification gives every MCQ. *)
Definition well_formed_mcq (m : MCQ) : bool :=
  question_nonempty m && four_nonempty_options m
  && options_distinct m && answer_among_options m.

(** The answer is one of the three fixed distractors. *)
Definition answer_is_distractor (m : MCQ) : bool :=
  match answer m with
  | VStr a => arr_includes distractors a
  | _ => false
  end.

(** What holds of every MCQ of the fallback; its options are distinct
    unless the sentence it was made from is one of the distractors. *)
Definition fallback_mcq_ok (m : MCQ) : Prop :=
  question_nonempty m = true
  /\ four_nonempty_options m = true
  /\ answer_is_first_option m = true
  /\ answer_among_options m = true
  /\ options_distinct m = negb (answer_is_distractor m).

(** Every reply of the service is a failure of the request: no response,
    a status from 400 on, or a body with a truthy [error]. *)
Definition is_failure (reply : NetOutcome) : bool :=
  match reply with
  | NoResponse _ _ => true
  | HttpResponse st _ d => (400 <=? st) || truthy (get_opt d "error")
  end.

Definition all_calls_fail (w : World) : Prop :=
  forall n, is_failure (fst (service w n)) = true.

(** A failure that is not a response with a status from 500 on other
    than 503. *)
Definition retried_failure (reply : NetOutcome) : bool :=
  is_failure reply
  && match reply with
     | HttpResponse st _ _ => (st <? 500) || (st =? 503)
     | NoResponse _ _ => true
     end.

(** Whether a whitespace run is open after reading [s]. *)
Fixpoint run_flag (in_run : bool) (s : jsstring) : bool :=
  match s with
  | [] => in_run
  | c :: s' => run_flag (is_space c) s'
  end.

(** [Math.ceil(n / d)] *)
Definition ceil_div (n d : nat) : nat := (n + d - 1) / d.

(** An operation and a timer that keep a log: the calls of the operation
    and the delays waited, in order. *)
Record Timeline : Type := mkTimeline {
  tried : nat;
  waits : list Z
}.

(** An operation that fails on its first [failures] calls. *)
Definition flaky_timed {A : Type} (failures : nat) (a : A) (e : JsError) : M Timeline A :=
  fun t =>
    (if tried t <? failures then Throw e else Ok a,
     {| tried := S (tried t); waits := waits t |}).

Definition sleep_logged (delay : Z) : M Timeline unit :=
  fun t => (Ok tt, {| tried := tried t; waits := waits t ++ [delay] |}).

Definition total_wait (l : list Z) : Z := fold_right Z.add 0%Z l.

(** The breaker and the world after a sequence of calls of [execute],
    each with an operation of its own. *)
Fixpoint execute_all {W A : Type} (Date_now : W -> Z)
    (ops : list (CircuitBreaker.t -> M W A))
    (s : CircuitBreaker.t * W) : CircuitBreaker.t * W :=
  match ops with
  | [] => s
  | op :: rest => execute_all Date_now rest (snd (CircuitBreaker.execute Date_now op s))
  end.

(** The states a breaker is in between two calls: closed below the
    threshold, or open at or above it. *)
Definition breaker_consistent (cb : CircuitBreaker.t) : Prop :=
  0 < CircuitBreaker.failureThreshold cb
  /\ match CircuitBreaker.state cb with
     | CircuitBreaker.CLOSED =>
         CircuitBreaker.failureCount cb < CircuitBreaker.failureThreshold cb
     | CircuitBreaker.OPEN =>
         CircuitBreaker.failureThreshold cb <= CircuitBreaker.failureCount cb
     | CircuitBreaker.HALF_OPEN => False
     end.

(** The breaker of the world lets the next call through. *)
Definition admits (w : World) : bool :=
  match CircuitBreaker.state (breaker w) with
  | CircuitBreaker.OPEN => negb (now w <? CircuitBreaker.nextAttempt (breaker w))%Z
  | _ => true
  end.

(** A computation that sends at most [n] requests and leaves the replies
    of the service as they are. *)
Definition spends {A : Type} (n : nat) (m : M World A) : Prop :=
  forall w,
    calls w <= calls (snd (m w)) <= calls w + n
    /\ service (snd (m w)) = service w.

(** What the mapping of [generateMCQs] makes sure of for every MCQ. *)
Definition mcq_shape (m : MCQ) : bool :=
  truthy (question m) && is_four_array (options m) && truthy (answer m).

(** A parser that finds the given text in every file, a store in which
    every session is saved, and the first bytes of a PDF file. *)
Definition parser_of (text : jsstring) : Buffer -> outcome jsstring :=
  fun _ => Ok text.

Definition save_ok (result : ProcessingResult) : M World unit := ret tt.

Definition pdf_bytes : Buffer := [37; 80; 68; 70]%N.

(** The only whitespace of a text are single spaces: no other whitespace
    character, no two spaces in a row; [after_space] tells that the
    character before was a space. *)
Fixpoint single_spaced_from (after_space : bool) (s : jsstring) : bool :=
  match s with
  | [] => true
  | c :: s' =>
      if is_space c then eqc c sp && negb after_space && single_spaced_from true s'
      else single_spaced_from false s'
  end.

Definition single_spaced (s : jsstring) : bool := single_spaced_from false s.

(** How often a word is counted by [count_words]: the number of words
    whose cleaned form passes [keep] and is [k]. *)
Definition occurrences (keep : jsstring -> bool) (words : list jsstring) (k : jsstring) : nat :=
  length (filter (fun word => keep (strip_non_word word) && eqs (strip_non_word word) k) words).

(** The number stored under [k]; [0] when there is none. *)
Definition number_of (c : Count) : nat :=
  match c with
  | Num n => n
  | Concat _ => 0
  end.

Fixpoint frequency (k : jsstring) (m : WordFreq) : nat :=
  match m with
  | [] => 0
  | (k', c) :: m' => if eqs k' k then number_of c else frequency k m'
  end.

(** Every count of the table is a positive number. *)
Definition positive (m : WordFreq) : Prop :=
  forall e, In e m -> exists n, snd e = Num n /\ 0 < n.

(** Descending by the number stored. *)
Definition descending (a b : jsstring * Count) : Prop :=
  number_of (snd b) <= number_of (snd a).

Definition is_number (e : jsstring * Count) : Prop := exists n, snd e = Num n.

(** * Properties *)

(** ** retryOnCondition *)

Lemma retry_from_flaky (A : Type) (f k : nat) (a : A) (e : JsError) :
  forall m i j,
    Retry.retry_from (flaky_op f a e) (accept_first k) m {| invoked := i; asked := j |}
    = if f - i <=? Nat.min (k - j) m
      then (Ok a, {| invoked := S (i + (f - i)); asked := j + (f - i) |})
      else (Throw e, {| invoked := S (i + Nat.min (k - j) m);
                        asked := j + Nat.min (S (k - j)) m |}).
Proof.
  induction m as [|m IH]; intros i j.
  - rewrite !Nat.min_0_r, !Nat.add_0_r.
    cbn [Retry.retry_from]. unfold try_catch, flaky_op, throw. cbn [invoked asked].
    destruct (i <? f) eqn:Hif.
    + apply Nat.ltb_lt in Hif.
      destruct (f - i <=? 0) eqn:Hle; [apply Nat.leb_le in Hle; lia|].
      reflexivity.
    + apply Nat.ltb_ge in Hif.
      replace (f - i) with 0 by lia. rewrite !Nat.add_0_r. reflexivity.
  - cbn [Retry.retry_from]. unfold try_catch at 1. unfold flaky_op at 1. cbn [invoked asked].
    destruct (i <? f) eqn:Hif.
    + apply Nat.ltb_lt in Hif.
      unfold bind at 1. unfold accept_first at 1. cbn [invoked asked].
      destruct (j <? k) eqn:Hjk; cbn [negb].
      * apply Nat.ltb_lt in Hjk.
        rewrite IH.
        destruct (f - S i <=? Nat.min (k - S j) m) eqn:H1;
          destruct (f - i <=? Nat.min (k - j) (S m)) eqn:H2;
          try apply Nat.leb_le in H1; try apply Nat.leb_gt in H1;
          try apply Nat.leb_le in H2; try apply Nat.leb_gt in H2;
          try lia; f_equal; f_equal; lia.
      * apply Nat.ltb_ge in Hjk.
        replace (k - j) with 0 by lia.
        rewrite Nat.min_0_l.
        destruct (f - i <=? 0) eqn:H2; [apply Nat.leb_le in H2; lia|].
        unfold throw. f_equal. f_equal; lia.
    + apply Nat.ltb_ge in Hif.
      replace (f - i) with 0 by lia. rewrite !Nat.add_0_r. reflexivity.
Qed.

Lemma retry_from_scripted_step (A : Type) (script : nat -> outcome A) (p : JsError -> bool) :
  forall left i log,
    Retry.retry_from (scripted_op script) (deciding p) left {| made := i; shown := log |}
    = match script i with
      | Ok a => (Ok a, {| made := S i; shown := log |})
      | Throw e =>
          match left with
          | O => (Throw e, {| made := S i; shown := log |})
          | S left' =>
              if p e
              then Retry.retry_from (scripted_op script) (deciding p) left'
                     {| made := S i; shown := log ++ [e] |}
              else (Throw e, {| made := S i; shown := log ++ [e] |})
          end
      end.
Proof.
  intros left i log. destruct left as [|left]; cbn [Retry.retry_from];
    unfold try_catch, scripted_op at 1; cbn [made shown];
    destruct (script i) as [a|e]; try reflexivity.
  unfold bind, deciding at 1. cbn [made shown]. destruct (p e); reflexivity.
Qed.

Lemma retry_from_scripted (A : Type) (script : nat -> outcome A) (p : JsError -> bool) :
  forall left i log,
    let r := Retry.retry_from (scripted_op script) (deciding p) left
               {| made := i; shown := log |} in
    exists k,
      i <= k <= i + left
      /\ made (snd r) = S k
      /\ fst r = script k
      /\ (forall j, i <= j < k -> exists e, script j = Throw e /\ p e = true)
      /\ (forall e, script k = Throw e -> k = i + left \/ p e = false)
      /\ shown (snd r) = log ++ errors_of script i (Nat.min (S k) (i + left) - i).
Proof.
  induction left as [|left IH]; intros i log; cbn zeta;
    rewrite retry_from_scripted_step.
  - exists i. rewrite Nat.add_0_r.
    replace (Nat.min (S i) i - i) with 0 by lia.
    unfold errors_of. cbn [seq flat_map]. rewrite app_nil_r.
    destruct (script i) as [a|e] eqn:Hi; cbn [fst snd made shown];
      (split; [lia|]); (split; [reflexivity|]); (split; [reflexivity|]);
      (split; [intros j Hj; lia|]); (split; [|reflexivity]).
    + intros e He. discriminate He.
    + intros e' _. left. reflexivity.
  - assert (Hone : Nat.min (S i) (i + S left) - i = 1) by lia.
    destruct (script i) as [a|e] eqn:Hi; [|destruct (p e) eqn:Hp].
    + exists i. rewrite Hone. unfold errors_of. cbn [seq flat_map]. rewrite Hi.
      cbn [fst snd made shown app]. rewrite app_nil_r.
      split; [lia|]. split; [reflexivity|]. split; [reflexivity|].
      split; [intros j Hj; lia|]. split; [|reflexivity].
      intros e He. discriminate He.
    + destruct (IH (S i) (log ++ [e])) as (k & Hk & Hmade & Hres & Hacc & Hstop & Hshown).
      cbn zeta in *. exists k.
      split; [lia|]. split; [exact Hmade|]. split; [exact Hres|].
      split.
      { intros j Hj. destruct (Nat.eq_dec j i) as [-> | Hne].
        - exists e. split; [exact Hi | exact Hp].
        - apply Hacc. lia. }
      split.
      { intros e' He'. destruct (Hstop e' He') as [-> | Hno]; [left; lia | right; exact Hno]. }
      rewrite Hshown.
      replace (Nat.min (S k) (i + S left) - i)
        with (S (Nat.min (S k) (S i + left) - S i)) by lia.
      unfold errors_of at 2. cbn [seq flat_map]. rewrite Hi.
      fold (errors_of script (S i) (Nat.min (S k) (S i + left) - S i)).
      rewrite <- app_assoc. reflexivity.
    + exists i. rewrite Hone. unfold errors_of. cbn [seq flat_map]. rewrite Hi.
      cbn [fst snd made shown app].
      split; [lia|]. split; [reflexivity|]. split; [reflexivity|].
      split; [intros j Hj; lia|]. split; [|reflexivity].
      intros e' He'. injection He' as <-. right. exact Hp.
Qed.

(** C7. [retryOnCondition] calls the operation once and calls it again
    only while the predicate accepted the last error and fewer than
    [maxRetries] retries were made; what it gives is what the last call
    gave. For an operation whose calls give any sequence of results and
    errors and a predicate that is any function of the error: there is a
    last call [k <= maxRetries]; [k + 1] calls are made; the result or
    the error of call [k] is what [retryOnCondition] returns or throws;
    every earlier call threw an error the predicate accepted; the error
    of call [k] was refused by the predicate unless [k = maxRetries];
    and the predicate was asked about the error of each failed call, in
    order, and about no other, the one of the last allowed call
    excepted. For an operation that fails [f] times before it succeeds
    and a predicate that accepts [k] times, whatever the error: when
    [f <= min k maxRetries] the result arrives after [f + 1] calls;
    otherwise the error propagates after [1 + min k maxRetries] calls.
    With a predicate that accepts exactly once and [maxRetries = 3], an
    operation that always fails is called exactly 2 times and its error
    propagates. *)
Theorem retryOnCondition_invocations :
  (forall (A : Type) (script : nat -> outcome A) (p : JsError -> bool) (maxRetries : nat),
      let r := Retry.retryOnCondition (scripted_op script) (deciding p) maxRetries
                 {| made := 0; shown := [] |} in
      exists k,
        k <= maxRetries
        /\ made (snd r) = S k
        /\ fst r = script k
        /\ (forall j, j < k -> exists e, script j = Throw e /\ p e = true)
        /\ (forall e, script k = Throw e -> k = maxRetries \/ p e = false)
        /\ shown (snd r) = errors_of script 0 (Nat.min (S k) maxRetries))
  /\ (forall (A : Type) (f k maxRetries : nat) (a : A) (e : JsError),
      Retry.retryOnCondition (flaky_op f a e) (accept_first k) maxRetries
        {| invoked := 0; asked := 0 |}
      = if f <=? Nat.min k maxRetries
        then (Ok a, {| invoked := S f; asked := f |})
        else (Throw e, {| invoked := S (Nat.min k maxRetries);
                          asked := Nat.min (S k) maxRetries |}))
  /\ (forall (A : Type) (e : JsError),
         Retry.retryOnCondition (@failing_op A e) (accept_first 1) 3
           {| invoked := 0; asked := 0 |}
         = (Throw e, {| invoked := 2; asked := 2 |})).
Proof.
  split; [|split].
  - intros A script p maxRetries. cbn zeta. unfold Retry.retryOnCondition.
    destruct (@retry_from_scripted A script p maxRetries 0 [])
      as (k & Hk & Hmade & Hres & Hacc & Hstop & Hshown).
    cbn zeta in *. exists k.
    split; [lia|]. split; [exact Hmade|]. split; [exact Hres|].
    split; [intros j Hj; apply Hacc; lia|].
    split; [exact Hstop|].
    rewrite Hshown, Nat.sub_0_r. reflexivity.
  - intros A f k m a e. unfold Retry.retryOnCondition.
    rewrite retry_from_flaky. rewrite !Nat.sub_0_r. reflexivity.
  - intros A e. reflexivity.
Qed.

(** ** CircuitBreaker *)

Section BreakerProperties.
Variables W A : Type.
Variable Date_now : W -> Z.
Variable err : W -> JsError.
Variable step : W -> W.
Local Abbreviation failing := (fun _ : CircuitBreaker.t => @always_failing W A err step).

Lemma execute_n_closed :
  forall n cb w,
    CircuitBreaker.state cb = CircuitBreaker.CLOSED ->
    CircuitBreaker.failureCount cb + n < CircuitBreaker.failureThreshold cb ->
    let s := execute_n Date_now failing n (cb, w) in
    CircuitBreaker.state (fst s) = CircuitBreaker.CLOSED
    /\ CircuitBreaker.failureCount (fst s) = CircuitBreaker.failureCount cb + n
    /\ CircuitBreaker.failureThreshold (fst s) = CircuitBreaker.failureThreshold cb
    /\ CircuitBreaker.resetTimeout (fst s) = CircuitBreaker.resetTimeout cb.
Proof.
  induction n as [|n IH]; intros cb w Hst Hlt.
  - cbn. repeat split; try assumption; lia.
  - assert (Hstep : snd (CircuitBreaker.execute Date_now failing (cb, w))
                    = (CircuitBreaker.onFailure (Date_now (step w)) cb, step w)).
    { unfold CircuitBreaker.execute. rewrite Hst. reflexivity. }
    cbn [execute_n]. cbn zeta. rewrite Hstep.
    assert (Hfail : CircuitBreaker.onFailure (Date_now (step w)) cb
                    = {| CircuitBreaker.failureThreshold := CircuitBreaker.failureThreshold cb;
                         CircuitBreaker.resetTimeout := CircuitBreaker.resetTimeout cb;
                         CircuitBreaker.state := CircuitBreaker.state cb;
                         CircuitBreaker.failureCount := S (CircuitBreaker.failureCount cb);
                         CircuitBreaker.nextAttempt := CircuitBreaker.nextAttempt cb |}).
    { unfold CircuitBreaker.onFailure.
      destruct (CircuitBreaker.failureThreshold cb <=? S (CircuitBreaker.failureCount cb)) eqn:Hle;
        [apply Nat.leb_le in Hle; lia | reflexivity]. }
    rewrite Hfail.
    match goal with
    | |- context [execute_n _ _ n (?c, ?v)] => specialize (IH c v)
    end.
    cbn [CircuitBreaker.state CircuitBreaker.failureCount
         CircuitBreaker.failureThreshold CircuitBreaker.resetTimeout] in IH.
    destruct IH as (H1 & H2 & H3 & H4); [exact Hst | lia |].
    rewrite H1, H2, H3, H4. repeat split. lia.
Qed.

Lemma execute_n_split :
  forall n (fn : CircuitBreaker.t -> M W A) s,
    execute_n Date_now fn (S n) s
    = snd (CircuitBreaker.execute Date_now fn (execute_n Date_now fn n s)).
Proof.
  induction n as [|n IH]; intros fn s.
  - reflexivity.
  - cbn [execute_n] in *. rewrite <- IH. reflexivity.
Qed.
End BreakerProperties.

(** C3. The breaker is the three-state machine of the specification.
    From a closed breaker without recorded failures, [failureThreshold]
    consecutive failing calls leave it open with
    [nextAttempt = now + resetTimeout]. A call made before [nextAttempt]
    then fails with the circuit-open error and leaves the breaker and the
    state of the wrapped operation untouched, whatever the operation is:
    it is not invoked. A call made at or after [nextAttempt] is let
    through with the breaker half-open: the operation runs under a
    breaker whose state is [HALF_OPEN] and whose other fields are those
    of the open breaker, and an operation that reads the state finds
    that value. What the operation does decides the next state: if it
    succeeds the breaker is closed with [failureCount = 0], if it fails
    the breaker is open again with [nextAttempt] renewed from the time
    of the failure. *)
Theorem circuit_breaker_state_machine :
  forall (W A : Type) (Date_now : W -> Z) (err : W -> JsError) (step : W -> W)
         (cb0 : CircuitBreaker.t) (w0 : W),
    CircuitBreaker.state cb0 = CircuitBreaker.CLOSED ->
    CircuitBreaker.failureCount cb0 = 0 ->
    0 < CircuitBreaker.failureThreshold cb0 ->
    let opened :=
      execute_n Date_now (fun _ => @always_failing W A err step)
        (CircuitBreaker.failureThreshold cb0) (cb0, w0) in
    let cb := fst opened in
    let trial :=
      {| CircuitBreaker.failureThreshold := CircuitBreaker.failureThreshold cb;
         CircuitBreaker.resetTimeout := CircuitBreaker.resetTimeout cb;
         CircuitBreaker.state := CircuitBreaker.HALF_OPEN;
         CircuitBreaker.failureCount := CircuitBreaker.failureCount cb;
         CircuitBreaker.nextAttempt := CircuitBreaker.nextAttempt cb |} in
    CircuitBreaker.state cb = CircuitBreaker.OPEN
    /\ CircuitBreaker.nextAttempt cb
       = (Date_now (snd opened) + CircuitBreaker.resetTimeout cb0)%Z
    /\ forall (op : CircuitBreaker.t -> M W A) (w : W),
         ((Date_now w < CircuitBreaker.nextAttempt cb)%Z ->
          CircuitBreaker.execute Date_now op (cb, w)
          = (Throw (new_Error CircuitBreaker.open_message), (cb, w)))
         /\ ((CircuitBreaker.nextAttempt cb <= Date_now w)%Z ->
             let r := CircuitBreaker.execute Date_now op (cb, w) in
             r = CircuitBreaker.run Date_now op trial w
             /\ match op trial w with
                | (Ok a, w') =>
                    fst r = Ok a /\ snd (snd r) = w'
                    /\ CircuitBreaker.state (fst (snd r)) = CircuitBreaker.CLOSED
                    /\ CircuitBreaker.failureCount (fst (snd r)) = 0
                | (Throw e, w') =>
                    fst r = Throw e /\ snd (snd r) = w'
                    /\ CircuitBreaker.state (fst (snd r)) = CircuitBreaker.OPEN
                    /\ CircuitBreaker.nextAttempt (fst (snd r))
                       = (Date_now w' + CircuitBreaker.resetTimeout cb0)%Z
                end).
Proof.
  intros W A Date_now err step cb0 w0 Hst Hcount Hpos opened cb trial.
  destruct (CircuitBreaker.failureThreshold cb0) as [|n] eqn:Hth; [lia|].
  pose proof (@execute_n_closed W A Date_now err step n cb0 w0 Hst) as Hn.
  rewrite Hcount, Hth in Hn. cbn zeta in Hn.
  assert (Hlt : 0 + n < S n) by lia. specialize (Hn Hlt). clear Hlt.
  destruct Hn as (Hs & Hc & Ht & Hr).
  assert (Hopened : opened
            = snd (CircuitBreaker.execute Date_now (fun _ => @always_failing W A err step)
                     (execute_n Date_now (fun _ => @always_failing W A err step) n (cb0, w0)))).
  { unfold opened. apply execute_n_split. }
  destruct (execute_n Date_now (fun _ => @always_failing W A err step) n (cb0, w0))
    as [cbn wn] eqn:Hen.
  cbn [fst] in Hs, Hc, Ht, Hr.
  unfold CircuitBreaker.execute in Hopened. rewrite Hs in Hopened.
  unfold CircuitBreaker.run, always_failing in Hopened. cbn [snd] in Hopened.
  unfold CircuitBreaker.onFailure in Hopened.
  rewrite Ht, Hc in Hopened. cbn [Nat.add] in Hopened.
  rewrite Nat.leb_refl in Hopened.
  assert (Hcb : cb = {| CircuitBreaker.failureThreshold := S n;
                        CircuitBreaker.resetTimeout := CircuitBreaker.resetTimeout cbn;
                        CircuitBreaker.state := CircuitBreaker.OPEN;
                        CircuitBreaker.failureCount := S n;
                        CircuitBreaker.nextAttempt :=
                          (Date_now (step wn) + CircuitBreaker.resetTimeout cbn)%Z |}).
  { unfold cb. rewrite Hopened. reflexivity. }
  split; [rewrite Hcb; reflexivity|].
  split; [rewrite Hcb, Hopened, Hr; reflexivity|].
  intros op w. split.
  - intros Hearly. unfold CircuitBreaker.execute.
    replace (CircuitBreaker.state cb) with CircuitBreaker.OPEN by (rewrite Hcb; reflexivity).
    apply Z.ltb_lt in Hearly. rewrite Hearly. reflexivity.
  - intros Hlate r.
    assert (Hr' : r = CircuitBreaker.run Date_now op trial w).
    { unfold r, CircuitBreaker.execute.
      replace (CircuitBreaker.state cb) with CircuitBreaker.OPEN by (rewrite Hcb; reflexivity).
      apply Z.ltb_ge in Hlate. rewrite Hlate. reflexivity. }
    split; [exact Hr'|].
    rewrite Hr'. unfold CircuitBreaker.run.
    destruct (op trial w) as [[a|e] w']; cbn [fst snd].
    + repeat split.
    + unfold CircuitBreaker.onFailure, trial.
      cbn [CircuitBreaker.failureThreshold CircuitBreaker.failureCount
           CircuitBreaker.resetTimeout CircuitBreaker.state CircuitBreaker.nextAttempt].
      rewrite Hcb.
      cbn [CircuitBreaker.failureThreshold CircuitBreaker.failureCount
           CircuitBreaker.resetTimeout CircuitBreaker.state CircuitBreaker.nextAttempt].
      replace (S n <=? S (S n)) with true by (symmetry; apply Nat.leb_le; lia).
      cbn [CircuitBreaker.state CircuitBreaker.nextAttempt].
      rewrite Hr. repeat split.
Qed.

(** ** callHuggingFace *)

(** A response with a status from 400 to 499 is resolved by axios, turned
    into an [Error] in the [try] block, caught by the [catch] of the same
    function and thrown again as a network error without a response. *)
Lemma invoke_once_client_error :
  forall w st txt d arrival,
    service w (calls w) = (HttpResponse st txt d, arrival) ->
    400 <= st -> st < 500 ->
    invoke_once w
    = (Throw (new_Error (str "Network error: " ++ client_error_message st txt)),
       sent arrival w).
Proof.
  intros w st txt d arrival Hsvc Hlo Hhi.
  unfold invoke_once, try_catch, bind, hfAxios_post. rewrite Hsvc.
  unfold validateStatus.
  replace (st <? 500) with true by (symmetry; apply Nat.ltb_lt; lia).
  cbn [status statusText data].
  replace (st =? 503) with false by (symmetry; apply Nat.eqb_neq; lia).
  unfold client_error_message.
  destruct (st =? 429) eqn:H429; [reflexivity|].
  destruct (st =? 410) eqn:H410; [reflexivity|].
  replace (400 <=? st) with true by (symmetry; apply Nat.leb_le; lia).
  reflexivity.
Qed.

(** C4, the behaviour of the code: when the service answers every
    request with the same status from 400 to 499 (410, the deprecated
    endpoint, is one of them), one call of [callHuggingFace] through a
    closed breaker sends four requests, the first and three retries: the
    error of each attempt carries no response, and [shouldRetry] accepts
    it as a network failure. *)
Theorem client_errors_are_retried :
  forall w st txt d,
    (forall n, fst (service w n) = HttpResponse st txt d) ->
    400 <= st -> st < 500 ->
    CircuitBreaker.state (breaker w) = CircuitBreaker.CLOSED ->
    exists w',
      callHuggingFace w
      = (Throw (new_Error (str "Network error: " ++ client_error_message st txt)), w')
      /\ calls w' = calls w + 4
      /\ shouldRetry (new_Error (str "Network error: " ++ client_error_message st txt)) = true.
Proof.
  intros w st txt d Hsvc Hlo Hhi Hclosed.
  assert (Hone : forall v, service v = service w ->
            invoke_once v
            = (Throw (new_Error (str "Network error: " ++ client_error_message st txt)),
               sent (snd (service w (calls v))) v)).
  { intros v Hv. apply invoke_once_client_error with (d := d); try assumption.
    rewrite Hv. specialize (Hsvc (calls v)).
    destruct (service w (calls v)) as [o t]. cbn in *. subst o. reflexivity. }
  unfold callHuggingFace, CircuitBreaker.execute. rewrite Hclosed.
  unfold CircuitBreaker.run, Retry.retryOnCondition.
  cbn [Retry.retry_from]. unfold try_catch, bind, ret, throw.
  rewrite Hone by reflexivity. cbn [shouldRetry response_status new_Error negb].
  rewrite Hone by reflexivity. cbn [shouldRetry response_status new_Error negb].
  rewrite Hone by reflexivity. cbn [shouldRetry response_status new_Error negb].
  rewrite Hone by reflexivity.
  eexists. split; [reflexivity|]. split; [cbn; lia | reflexivity].
Qed.

(** ** Splitting and joining *)

Section SplitJoin.
Variable sep : char -> bool.
Local Abbreviation sep_free := (sep_free sep).

Lemma split_runs_not_nil : forall s, split_runs sep s <> [].
Proof.
  induction s as [|c s IH]; cbn; [discriminate|].
  destruct (sep c).
  - destruct (starts_with_class sep s); [assumption | discriminate].
  - destruct (split_runs sep s); cbn; discriminate.
Qed.

Lemma split_runs_length_pos : forall s, 0 < length (split_runs sep s).
Proof.
  intros s. pose proof (split_runs_not_nil s).
  destruct (split_runs sep s); [contradiction | cbn; lia].
Qed.

Lemma split_runs_sep_free : forall s, Forall sep_free (split_runs sep s).
Proof.
  induction s as [|c s IH]; cbn.
  - repeat constructor.
  - destruct (sep c) eqn:Hc.
    + destruct (starts_with_class sep s); [assumption|].
      constructor; [reflexivity | assumption].
    + destruct (split_runs sep s) as [|w ws]; cbn.
      * repeat constructor. unfold sep_free. cbn. rewrite Hc. reflexivity.
      * inversion IH; subst. constructor; [|assumption].
        unfold sep_free in *. cbn. rewrite Hc. assumption.
Qed.

(** The first field is non-empty when the text starts with a character
    that is no separator. *)
Lemma split_runs_head_nonempty :
  forall c s, sep c = false ->
    exists w ws, split_runs sep (c :: s) = (c :: w) :: ws.
Proof.
  intros c s Hc. cbn. rewrite Hc.
  destruct (split_runs sep s) as [|w ws] eqn:E.
  - exfalso. exact (split_runs_not_nil _ E).
  - cbn. eauto.
Qed.

Lemma split_runs_inner_nonempty : forall s, inner_nonempty (tl (split_runs sep s)).
Proof.
  induction s as [|c s IH]; cbn; [exact I|].
  destruct (sep c) eqn:Hc.
  - destruct (starts_with_class sep s) eqn:Hs; [assumption|].
    cbn [tl].
    destruct s as [|c' s'].
    + cbn. exact I.
    + cbn in Hs.
      destruct (split_runs_head_nonempty s' Hs) as (w & ws & E).
      rewrite E in IH |- *. cbn [tl] in IH.
      cbn [inner_nonempty]. destruct ws; [exact I|].
      split; [discriminate | exact IH].
  - destruct (split_runs sep s) as [|w ws]; cbn; [exact I | exact IH].
Qed.

Lemma inner_nonempty_tl : forall l, inner_nonempty l -> inner_nonempty (tl l).
Proof.
  intros [|w [|w' rest]]; cbn; intros H; try exact I. apply H.
Qed.

Lemma inner_nonempty_skipn : forall n l, inner_nonempty l -> inner_nonempty (skipn n l).
Proof.
  induction n as [|n IH]; intros l H; [exact H|].
  destruct l as [|w rest]; [exact I|].
  cbn [skipn]. apply IH. exact (inner_nonempty_tl (w :: rest) H).
Qed.

Lemma inner_nonempty_firstn : forall n l, inner_nonempty l -> inner_nonempty (firstn n l).
Proof.
  induction n as [|n IH]; intros l H; [exact I|].
  destruct l as [|w rest]; [exact I|].
  cbn [firstn].
  destruct rest as [|w' rest']; [destruct n; exact I|].
  destruct H as [Hw Hrest].
  specialize (IH (w' :: rest') Hrest).
  destruct n as [|n']; [exact I|].
  cbn [firstn] in *. split; assumption.
Qed.

Lemma inner_nonempty_slice :
  forall a b l, inner_nonempty (tl l) -> inner_nonempty (tl (slice a b l)).
Proof.
  intros a b l H. unfold slice.
  destruct a as [|a].
  - cbn [skipn]. destruct l as [|w rest]; [destruct (b - 0); exact I|].
    cbn [tl] in H. destruct (b - 0) as [|n]; [exact I|].
    cbn [firstn tl]. apply inner_nonempty_firstn. exact H.
  - destruct l as [|w rest]; [destruct (b - S a); exact I|].
    cbn [skipn tl] in *.
    apply inner_nonempty_tl. apply inner_nonempty_firstn.
    apply inner_nonempty_skipn. exact H.
Qed.

Lemma split_runs_app_free :
  forall w s, sep_free w ->
    split_runs sep (w ++ s)
    = match split_runs sep s with
      | x :: xs => (w ++ x) :: xs
      | [] => [w]
      end.
Proof.
  induction w as [|c w IH]; intros s Hw.
  - cbn. destruct (split_runs sep s) eqn:E; [|reflexivity].
    exfalso. exact (split_runs_not_nil _ E).
  - unfold sep_free in Hw. cbn in Hw. apply andb_true_iff in Hw as [Hc Hw].
    apply negb_true_iff in Hc.
    cbn. rewrite Hc. rewrite IH by exact Hw.
    destruct (split_runs sep s); reflexivity.
Qed.

Lemma sep_free_head : forall w, sep_free w -> starts_with_class sep w = false.
Proof.
  intros [|c w] H; [reflexivity|].
  unfold sep_free in H. cbn in H. apply andb_true_iff in H as [Hc _].
  apply negb_true_iff in Hc. exact Hc.
Qed.

Lemma join_head_free :
  forall (d : char) l, Forall sep_free l -> inner_nonempty l ->
    starts_with_class sep (join [d] l) = false.
Proof.
  intros d [|w rest] Hall Hin; [reflexivity|].
  inversion Hall as [|? ? Hw Hrest]; subst.
  destruct rest as [|w' rest'].
  - cbn. apply sep_free_head. exact Hw.
  - destruct Hin as [Hne _]. cbn [join].
    destruct w as [|c w]; [contradiction|].
    cbn. exact (sep_free_head Hw).
Qed.

(** Joining fields with one separator character and splitting again
    gives the fields back. *)
Lemma split_runs_join :
  forall (d : char) l,
    sep d = true -> l <> [] -> Forall sep_free l -> inner_nonempty (tl l) ->
    split_runs sep (join [d] l) = l.
Proof.
  intros d l Hd. induction l as [|w rest IH]; intros Hne Hall Hin; [contradiction|].
  inversion Hall as [|? ? Hw Hrest]; subst.
  destruct rest as [|w' rest'].
  - cbn [join]. rewrite <- (app_nil_r w) at 1.
    rewrite split_runs_app_free by exact Hw. cbn. rewrite app_nil_r. reflexivity.
  - cbn [tl] in Hin.
    change (join [d] (w :: w' :: rest')) with (w ++ [d] ++ join [d] (w' :: rest')).
    rewrite split_runs_app_free by exact Hw.
    cbn [app split_runs]. rewrite Hd.
    rewrite (join_head_free d Hrest Hin).
    rewrite IH; [rewrite app_nil_r; reflexivity | discriminate | exact Hrest |].
    exact (inner_nonempty_tl _ Hin).
Qed.
End SplitJoin.

(** ** chunkText *)

Lemma ceil_div_0 : forall d, 0 < d -> ceil_div 0 d = 0.
Proof.
  intros d Hd. unfold ceil_div. apply Nat.div_small. lia.
Qed.

Lemma ceil_div_step : forall n d, 0 < d -> 0 < n -> ceil_div n d = S (ceil_div (n - d) d).
Proof.
  intros n d Hd Hn. unfold ceil_div.
  destruct (Nat.le_gt_cases d n) as [Hge|Hlt].
  - replace (n + d - 1) with ((n - d + d - 1) + 1 * d) by lia.
    rewrite Nat.div_add by lia. lia.
  - replace (n - d) with 0 by lia.
    replace (n + d - 1) with ((n - 1) + 1 * d) by lia.
    rewrite Nat.div_add by lia.
    rewrite (Nat.div_small (n - 1)) by lia.
    rewrite (Nat.div_small (0 + d - 1)) by lia. reflexivity.
Qed.

Lemma ceil_div_small : forall n d, 0 < n -> n <= d -> ceil_div n d = 1.
Proof.
  intros n d Hn Hle. rewrite ceil_div_step by lia.
  replace (n - d) with 0 by lia. rewrite ceil_div_0 by lia. reflexivity.
Qed.

(** The chunks the loop pushes from index [i] on, [n] of them. *)
Lemma chunk_loop_spec :
  forall room words wordsPerChunk i chunks,
    0 < wordsPerChunk ->
    length words - i <= room ->
    chunk_loop room words wordsPerChunk i chunks
    = Ok (chunks
          ++ map (fun j => join [sp] (slice (i + j * wordsPerChunk)
                                            (i + j * wordsPerChunk + wordsPerChunk) words))
               (seq 0 (ceil_div (length words - i) wordsPerChunk))).
Proof.
  induction room as [|room IH]; intros words wpc i chunks Hpos Hroom;
    cbn [chunk_loop]; destruct (Nat.ltb_spec i (length words)) as [Hi | Hi]; try lia.
  - replace (length words - i) with 0 by lia.
    rewrite ceil_div_0 by lia. cbn. rewrite app_nil_r. reflexivity.
  - cbn zeta. rewrite IH by lia.
    rewrite (ceil_div_step (n := length words - i)) by lia.
    cbn [seq map]. rewrite <- app_assoc. cbn [app].
    replace (i + 0 * wpc) with i by lia.
    replace (length words - (i + wpc)) with (length words - i - wpc) by lia.
    do 3 f_equal.
    rewrite <- seq_shift, map_map.
    apply map_ext. intros j.
    replace (i + wpc + j * wpc) with (i + S j * wpc) by lia. reflexivity.
  - replace (length words - i) with 0 by lia.
    rewrite ceil_div_0 by lia. cbn. rewrite app_nil_r. reflexivity.
Qed.

Lemma slice_length :
  forall (A : Type) (a b : nat) (l : list A),
    length (slice a b l) = Nat.min (b - a) (length l - a).
Proof.
  intros A a b l. unfold slice. rewrite length_firstn, length_skipn. reflexivity.
Qed.

Lemma Forall_firstn_skipn :
  forall (A : Type) (P : A -> Prop) (n : nat) (l : list A),
    Forall P l -> Forall P (firstn n l) /\ Forall P (skipn n l).
Proof.
  intros A P n l H. rewrite <- (firstn_skipn n l) in H.
  apply Forall_app in H. exact H.
Qed.

Lemma Forall_slice :
  forall (A : Type) (P : A -> Prop) (a b : nat) (l : list A),
    Forall P l -> Forall P (slice a b l).
Proof.
  intros A P a b l H. unfold slice.
  apply Forall_firstn_skipn. apply Forall_firstn_skipn. exact H.
Qed.

Lemma nth_map_seq :
  forall (A : Type) (f : nat -> A) (n i : nat) (d : A),
    i < n -> nth i (map f (seq 0 n)) d = f i.
Proof.
  intros A f n i d Hi.
  rewrite (nth_indep _ d (f 0)) by (rewrite length_map, length_seq; exact Hi).
  rewrite (map_nth f (seq 0 n) 0 i). rewrite seq_nth by exact Hi. reflexivity.
Qed.

Lemma is_space_sp : is_space sp = true.
Proof. reflexivity. Qed.

(** The words of a chunk are the slice of words it was joined from. *)
Lemma split_ws_chunk :
  forall text a b,
    a < length (split_ws text) -> a < b ->
    split_ws (join [sp] (slice a b (split_ws text))) = slice a b (split_ws text).
Proof.
  intros text a b Ha Hab. unfold split_ws.
  apply split_runs_join.
  - exact is_space_sp.
  - intros E. apply (f_equal (@length _)) in E.
    rewrite slice_length in E. cbn in E. unfold split_ws in Ha. lia.
  - apply Forall_slice, split_runs_sep_free.
  - apply inner_nonempty_slice, split_runs_inner_nonempty.
Qed.

(** With step 0 the index never moves: the loop does not terminate. *)
Lemma chunk_loop_zero_step :
  forall room words chunks,
    0 < length words ->
    chunk_loop room words 0 0 chunks = Throw (RangeError "Invalid array length").
Proof.
  induction room as [|room IH]; intros words chunks Hpos;
    cbn [chunk_loop]; replace (0 <? length words) with true
      by (symmetry; apply Nat.ltb_lt; exact Hpos).
  - reflexivity.
  - cbn zeta. cbn [Nat.add]. apply IH. exact Hpos.
Qed.

Lemma chunkText_zero_step :
  forall text,
    is_blank text = false ->
    chunkText text 0 = Throw (RangeError "Invalid array length").
Proof.
  intros text Hblank. unfold chunkText. rewrite Hblank.
  pose proof (split_runs_length_pos is_space text) as Hpos. fold (split_ws text) in Hpos.
  cbn zeta.
  destruct (length (split_ws text) <=? 0) eqn:E; [apply Nat.leb_le in E; lia|].
  apply chunk_loop_zero_step. exact Hpos.
Qed.

Lemma chunkText_words :
  forall text wpc,
    is_blank text = false ->
    0 < wpc ->
    exists chunks,
      chunkText text wpc = Ok chunks
      /\ length chunks = ceil_div (wordCount text) wpc
      /\ (forall i, i < length chunks ->
            split_ws (nth i chunks [])
            = slice (i * wpc) (i * wpc + wpc) (split_ws text))
      /\ (wordCount text <= wpc -> chunks = [text])
      /\ (wpc < wordCount text ->
            chunks = map (fun j => join [sp] (slice (j * wpc) (j * wpc + wpc) (split_ws text)))
                       (seq 0 (ceil_div (wordCount text) wpc))).
Proof.
  intros text wpc Hblank Hpos.
  assert (Hwc : 0 < wordCount text) by apply split_runs_length_pos.
  unfold chunkText. rewrite Hblank.
  fold (wordCount text).
  destruct (wordCount text <=? wpc) eqn:Hle.
  - apply Nat.leb_le in Hle. exists [text].
    split; [reflexivity|]. split; [cbn; rewrite ceil_div_small; lia|].
    split; [|split; [reflexivity | lia]].
    intros i Hi. cbn in Hi. replace i with 0 by lia. cbn [nth Nat.mul Nat.add].
    unfold slice. cbn [skipn]. rewrite Nat.sub_0_r.
    rewrite firstn_all2; [reflexivity | exact Hle].
  - apply Nat.leb_gt in Hle.
    unfold wordCount in *.
    rewrite chunk_loop_spec by lia. cbn [app].
    eexists. split; [reflexivity|].
    rewrite length_map, length_seq, Nat.sub_0_r.
    split; [reflexivity|]. split; [|split; [lia | intros _; reflexivity]].
    intros i Hi.
    assert (Hlt : i * wpc < length (split_ws text)).
    { unfold ceil_div in Hi.
      assert (i * wpc <= wpc * ((length (split_ws text) + wpc - 1) / wpc) - wpc) by nia.
      pose proof (Nat.Div0.mul_div_le (length (split_ws text) + wpc - 1) wpc).
      lia. }
    rewrite nth_map_seq by exact Hi.
    cbn [Nat.add].
    rewrite split_ws_chunk by lia. reflexivity.
Qed.

(** C6. For a non-empty text and a positive chunk size, [chunkText]
    returns [ceil(wordCount / wordsPerChunk)] chunks; chunk [i] holds
    exactly [min wordsPerChunk (wordCount - i * wordsPerChunk)] words,
    so none holds more than [wordsPerChunk]; when
    [wordCount <= wordsPerChunk] the only chunk is the text itself. In
    particular 4500 words at 1000 words per chunk give 5 chunks, four of
    1000 words and a last one of 500, and 800 words give the text as the
    single chunk. *)
Theorem chunkText_chunks :
  forall text wordsPerChunk,
    is_blank text = false ->
    0 < wordsPerChunk ->
    exists chunks,
      chunkText text wordsPerChunk = Ok chunks
      /\ length chunks = ceil_div (wordCount text) wordsPerChunk
      /\ (forall i, i < length chunks ->
            wordCount (nth i chunks [])
            = Nat.min wordsPerChunk (wordCount text - i * wordsPerChunk))
      /\ Forall (fun chunk => wordCount chunk <= wordsPerChunk) chunks
      /\ (wordCount text <= wordsPerChunk -> chunks = [text])
      /\ (wordCount text = 4500 -> wordsPerChunk = 1000 ->
            length chunks = 5
            /\ (forall i, i < 4 -> wordCount (nth i chunks []) = 1000)
            /\ wordCount (nth 4 chunks []) = 500)
      /\ (wordCount text = 800 -> wordsPerChunk = 1000 -> chunks = [text]).
Proof.
  intros text wpc Hblank Hpos.
  destruct (chunkText_words text Hblank Hpos)
    as (chunks & Hrun & Hlen & Hsplit & Hsingle & _).
  assert (Hwords : forall i, i < length chunks ->
            wordCount (nth i chunks []) = Nat.min wpc (wordCount text - i * wpc)).
  { intros i Hi. unfold wordCount. rewrite Hsplit by exact Hi.
    rewrite slice_length. f_equal; lia. }
  exists chunks. split; [exact Hrun|]. split; [exact Hlen|]. split; [exact Hwords|].
  split.
  { apply Forall_forall. intros chunk Hin.
    destruct (In_nth _ _ [] Hin) as (i & Hi & Hnth).
    rewrite <- Hnth, Hwords by exact Hi. lia. }
  split; [exact Hsingle|]. split.
  - intros H4500 H1000. subst wpc. rewrite H4500 in *.
    assert (Hfive : length chunks = 5) by (rewrite Hlen; reflexivity).
    split; [exact Hfive|]. split.
    + intros i Hi. rewrite Hwords by lia. lia.
    + rewrite Hwords by lia. reflexivity.
  - intros H800 H1000. apply Hsingle. lia.
Qed.

(** ** Trimming and blank strings *)

Lemma drop_while_head :
  forall p s, starts_with_class p (drop_while p s) = false.
Proof.
  intros p. induction s as [|c s IH]; cbn; [reflexivity|].
  destruct (p c) eqn:Hc; [exact IH | cbn; exact Hc].
Qed.

Lemma drop_while_snoc :
  forall p s c, p c = false -> drop_while p (s ++ [c]) = drop_while p s ++ [c].
Proof.
  intros p s c Hc. induction s as [|x s IH]; cbn.
  - rewrite Hc. reflexivity.
  - destruct (p x); [exact IH | reflexivity].
Qed.

Lemma drop_while_id :
  forall p s, starts_with_class p s = false -> drop_while p s = s.
Proof.
  intros p [|c s] H; cbn in *; [reflexivity | rewrite H; reflexivity].
Qed.

Lemma drop_while_all : forall p s, forallb p s = true -> drop_while p s = [].
Proof.
  intros p. induction s as [|c s IH]; cbn; [reflexivity|].
  destruct (p c); cbn; [exact IH | discriminate].
Qed.

Lemma drop_while_app :
  forall p x y,
    drop_while p (x ++ y)
    = if forallb p x then drop_while p y else drop_while p x ++ y.
Proof.
  intros p x y. induction x as [|c x IH]; cbn; [reflexivity|].
  destruct (p c); cbn; [exact IH | reflexivity].
Qed.

(** [trimEnd] drops the leading whitespace of the reversed string. *)
Lemma trimEnd_rev : forall s, trimEnd s = rev (drop_while is_space (rev s)).
Proof.
  induction s as [|c s IH]; [reflexivity|].
  cbn [trimEnd rev]. rewrite drop_while_app.
  destruct (forallb is_space (rev s)) eqn:E.
  - rewrite (drop_while_all _ _ E) in IH. cbn [rev] in IH. rewrite IH.
    cbn. destruct (is_space c); reflexivity.
  - rewrite rev_app_distr. cbn [rev app]. rewrite <- IH.
    destruct (trimEnd s) as [|x r] eqn:Et; [|reflexivity].
    exfalso. symmetry in IH. apply (f_equal (@rev _)) in IH.
    rewrite rev_involutive in IH. cbn in IH.
    assert (Hall : forall l, drop_while is_space l = [] -> forallb is_space l = true).
    { induction l as [|y l IHl]; cbn; [reflexivity|].
      destruct (is_space y); cbn; [exact IHl | discriminate]. }
    rewrite (Hall _ IH) in E. discriminate.
Qed.

(** A string that starts with a character that is no whitespace keeps
    that character under [trimEnd] and [trim]. *)
Lemma trimEnd_cons :
  forall c s, is_space c = false -> exists r, trimEnd (c :: s) = c :: r.
Proof.
  intros c s Hc. rewrite trimEnd_rev. cbn [rev].
  rewrite drop_while_snoc by exact Hc. rewrite rev_app_distr. cbn.
  eexists. reflexivity.
Qed.

Lemma trim_cons :
  forall c s, is_space c = false -> exists r, trim (c :: s) = c :: r.
Proof.
  intros c s Hc. unfold trim, trimStart.
  destruct (trimEnd_cons c s Hc) as [r Hr]. rewrite Hr. cbn. rewrite Hc.
  eexists. reflexivity.
Qed.

Lemma trim_head : forall s, starts_with_class is_space (trim s) = false.
Proof.
  intros s. unfold trim, trimStart. apply drop_while_head.
Qed.

Lemma not_blank_cons :
  forall c s, is_space c = false -> is_blank (c :: s) = false.
Proof.
  intros c s Hc. unfold is_blank.
  destruct (trim_cons c s Hc) as [r Hr]. rewrite Hr. reflexivity.
Qed.

(** A non-empty string without leading whitespace is not blank. *)
Lemma not_blank_of_head :
  forall s, s <> [] -> starts_with_class is_space s = false -> is_blank s = false.
Proof.
  intros [|c s] Hne Hhead; [contradiction|]. apply not_blank_cons. exact Hhead.
Qed.

(** What a blank string is: all of it is whitespace. *)
Lemma is_blank_forallb : forall s, is_blank s = forallb is_space s.
Proof.
  assert (Hdrop : forall s, forallb is_space s = true -> drop_while is_space s = []).
  { induction s as [|c s IH]; cbn; [reflexivity|].
    destruct (is_space c); cbn; [exact IH | discriminate]. }
  assert (Hall : forall s, forallb is_space (rev s) = forallb is_space s).
  { intros s. induction s as [|c s IH]; [reflexivity|].
    cbn. rewrite forallb_app, IH. cbn. rewrite andb_true_r. apply andb_comm. }
  assert (Hkeep : forall s, forallb is_space s = false -> drop_while is_space s <> []).
  { induction s as [|c s IH]; cbn; [discriminate|].
    destruct (is_space c); cbn; [exact IH | discriminate]. }
  intros s. destruct s as [|c s]; [reflexivity|].
  unfold is_blank, trim, trimStart. rewrite trimEnd_rev.
  destruct (forallb is_space (c :: s)) eqn:E.
  - rewrite (Hdrop (rev (c :: s))) by (rewrite Hall; exact E). reflexivity.
  - assert (H1 : drop_while is_space (rev (c :: s)) <> [])
      by (apply Hkeep; rewrite Hall; exact E).
    destruct (drop_while is_space (rev (c :: s))) as [|x r] eqn:Ex; [contradiction|].
    assert (Hx : is_space x = false).
    { pose proof (drop_while_head is_space (rev (c :: s))) as Hh.
      rewrite Ex in Hh. exact Hh. }
    cbn [rev]. rewrite drop_while_snoc by exact Hx.
    rewrite length_app. cbn. apply Nat.eqb_neq. lia.
Qed.

(** ** The service is only read *)

Ltac case_if :=
  match goal with
  | |- context [if ?b then _ else _] => destruct b eqn:?
  end.

Lemma invoke_once_world :
  forall w, snd (invoke_once w) = sent (snd (service w (calls w))) w.
Proof.
  intros w. unfold invoke_once, try_catch, bind, hfAxios_post, throw, ret.
  destruct (service w (calls w)) as [[st txt d|c msg] arrival]; cbn [snd].
  - destruct (validateStatus st); cbn [status statusText data response_status].
    + repeat case_if; reflexivity.
    + reflexivity.
  - cbn [response_status code]. destruct c as [c|]; [case_if|]; reflexivity.
Qed.

Lemma retry_from_service :
  forall k w,
    service (snd (Retry.retry_from invoke_once (fun error => ret (shouldRetry error)) k w))
    = service w.
Proof.
  induction k as [|k IH]; intros w; cbn [Retry.retry_from]; unfold try_catch.
  - pose proof (invoke_once_world w) as Hw.
    destruct (invoke_once w) as [[v|e] w1]; cbn [snd] in *; subst w1; reflexivity.
  - pose proof (invoke_once_world w) as Hw.
    destruct (invoke_once w) as [[v|e] w1]; cbn [snd] in *; subst w1; [reflexivity|].
    unfold bind, ret. destruct (shouldRetry e); cbn [negb].
    + rewrite IH. reflexivity.
    + reflexivity.
Qed.

Lemma callHuggingFace_service :
  forall w, service (snd (callHuggingFace w)) = service w.
Proof.
  intros w. unfold callHuggingFace, CircuitBreaker.execute, CircuitBreaker.run.
  pose proof (retry_from_service 3 w) as Hr. unfold Retry.retryOnCondition.
  destruct (CircuitBreaker.state (breaker w));
    try (destruct (now w <? CircuitBreaker.nextAttempt (breaker w))%Z; [reflexivity|]);
    destruct (Retry.retry_from invoke_once (fun error => ret (shouldRetry error)) 3 w)
      as [[v|e] w1]; cbn [snd] in *; exact Hr.
Qed.

(** ** The summary never starts with whitespace *)

Lemma strip_ends_head : forall s, starts_with_class is_space (strip_ends s) = false.
Proof.
  intros s. unfold strip_ends, trimStart. apply drop_while_head.
Qed.

Lemma extractiveSummary_head :
  forall text, starts_with_class is_space (extractiveSummary text) = false.
Proof.
  intros text. unfold extractiveSummary, createStructuredSummary. apply strip_ends_head.
Qed.

Lemma squeeze_dots_cons :
  forall c x, is_space c = false ->
    exists c' r, squeeze_dots (c :: x) = c' :: r /\ is_space c' = false.
Proof.
  intros c x Hc. unfold squeeze_dots. cbn [squeeze_dots_from].
  destruct (eqc c dot); [|eauto].
  destruct (drop_while is_space x) as [|d r]; [eauto|].
  destruct (eqc d dot); eauto.
Qed.

Lemma cleaned_summary_head :
  forall s, 0 < length (trim s) ->
    squeeze_dots (collapse_ws (trim s)) <> []
    /\ starts_with_class is_space (squeeze_dots (collapse_ws (trim s))) = false.
Proof.
  intros s Hlen. pose proof (trim_head s) as Hh.
  destruct (trim s) as [|c r]; [cbn in Hlen; lia|]. cbn in Hh.
  unfold collapse_ws. cbn [collapse_from]. rewrite Hh.
  destruct (squeeze_dots_cons c (collapse_from false r) Hh) as (c' & r' & E & Hc').
  rewrite E. split; [discriminate | exact Hc'].
Qed.

(** ** summarizeText always answers *)

Lemma summarize_with_model_result :
  forall text w,
    match summarize_with_model text w with
    | (Ok (Some s), w') =>
        starts_with_class is_space s = false /\ service w' = service w
    | (_, w') => service w' = service w
    end.
Proof.
  intros text w. unfold summarize_with_model, bind at 1.
  pose proof (callHuggingFace_service w) as Hsvc.
  destruct (callHuggingFace w) as [[result|e] w1]; cbn [snd] in Hsvc; [|exact Hsvc].
  unfold bind, lift.
  destruct (pick_summary result) as [picked|e]; [|exact Hsvc].
  destruct (truthy picked); [|exact Hsvc].
  destruct picked as [| |b|z|s|items|fields]; try exact Hsvc.
  destruct (50 <? length (trim s)) eqn:Hlen; [|exact Hsvc].
  apply Nat.ltb_lt in Hlen.
  destruct (cleaned_summary_head s ltac:(lia)) as [_ Hhead].
  destruct ((10 <? length (split_each is_terminal (squeeze_dots (collapse_ws (trim s)))))
            && (length (squeeze_dots (collapse_ws (trim s))) <? 200)).
  - unfold ret. split; [|exact Hsvc].
    destruct (length (squeeze_dots (collapse_ws (trim s))) <? length (extractiveSummary text)).
    + apply extractiveSummary_head.
    + exact Hhead.
  - unfold ret. split; [exact Hhead | exact Hsvc].
Qed.

Lemma summarize_loop_result :
  forall models rest text w,
    exists s w',
      summarize_loop models rest text w = (Ok s, w')
      /\ starts_with_class is_space s = false
      /\ service w' = service w.
Proof.
  intros models rest text. induction rest as [|model rest IH]; intros w.
  - cbn. unfold ret. eexists _, _. split; [reflexivity|].
    split; [apply extractiveSummary_head | reflexivity].
  - cbn [summarize_loop]. unfold bind at 1, try_catch.
    pose proof (summarize_with_model_result text w) as Hbody.
    destruct (summarize_with_model text w) as [[[s|]|e] w1].
    + destruct Hbody as [Hhead Hsvc]. unfold ret. eauto.
    + destruct (IH w1) as (s & w' & Hrun & Hhead & Hsvc).
      exists s, w'. split; [exact Hrun|]. split; [exact Hhead | congruence].
    + destruct (eqs model (last_model models)); unfold ret.
      * eexists _, _. split; [reflexivity|].
        split; [apply extractiveSummary_head | exact Hbody].
      * destruct (IH w1) as (s & w' & Hrun & Hhead & Hsvc).
        exists s, w'. split; [exact Hrun|]. split; [exact Hhead | congruence].
Qed.

Lemma summarizeText_result :
  forall text w,
    is_blank text = false ->
    exists s w',
      summarizeText text w = (Ok s, w')
      /\ starts_with_class is_space s = false
      /\ service w' = service w.
Proof.
  intros text w Hblank. unfold summarizeText. rewrite Hblank.
  destruct (wordCount text <? 500).
  - unfold ret. eexists _, _. split; [reflexivity|].
    split; [apply extractiveSummary_head | reflexivity].
  - apply summarize_loop_result.
Qed.

Lemma summarizeText_blank :
  forall text w,
    is_blank text = true ->
    summarizeText text w = (Throw (new_Error (str "Text is empty or invalid")), w).
Proof.
  intros text w Hblank. unfold summarizeText. rewrite Hblank. reflexivity.
Qed.

(** ** generateMCQs always answers *)

Lemma map_outcome_length :
  forall (A B : Type) (f : A -> outcome B) (l : list A) (r : list B),
    map_outcome f l = Ok r -> length r = length l.
Proof.
  intros A B f. induction l as [|x l IH]; intros r H; cbn in H.
  - inversion H. reflexivity.
  - destruct (f x) as [y|e]; cbn in H; [|discriminate].
    destruct (map_outcome f l) as [ys|e]; cbn in H; [|discriminate].
    inversion H; subst. cbn. rewrite (IH ys eq_refl). reflexivity.
Qed.

(** The list the model-parsed path returns has from 1 to 5 entries. *)
Lemma parse_mcqs_length :
  forall json l, parse_mcqs json = Some l -> 1 <= length l <= 5.
Proof.
  intros json l H. unfold parse_mcqs in H.
  destruct (JSON_parse json) as [[| |b|z|s|items|fields]|]; try discriminate.
  destruct (0 <? length items) eqn:Hpos; [|discriminate].
  apply Nat.ltb_lt in Hpos.
  destruct (map_outcome to_mcq (slice 0 5 items)) as [parsed|e] eqn:Hmap; [|discriminate].
  inversion H; subst. apply map_outcome_length in Hmap.
  rewrite Hmap, slice_length. lia.
Qed.

Lemma mcqs_with_model_result :
  forall w,
    match mcqs_with_model w with
    | (Ok (Some l), w') => 1 <= length l <= 5 /\ service w' = service w
    | (_, w') => service w' = service w
    end.
Proof.
  intros w. unfold mcqs_with_model, bind at 1.
  pose proof (callHuggingFace_service w) as Hsvc.
  destruct (callHuggingFace w) as [[result|e] w1]; cbn [snd] in Hsvc; [|exact Hsvc].
  unfold bind, lift.
  destruct (pick_text result) as [picked|e]; [|exact Hsvc].
  destruct (truthy picked); [|exact Hsvc].
  destruct picked as [| |b|z|s|items|fields]; try exact Hsvc.
  destruct (match_json_array s) as [json|]; [|exact Hsvc].
  unfold ret. destruct (parse_mcqs json) as [l|] eqn:Hparse; [|exact Hsvc].
  split; [exact (parse_mcqs_length _ Hparse) | exact Hsvc].
Qed.

Lemma mcq_loop_result :
  forall rest text w,
    exists l w',
      mcq_loop rest text w = (Ok l, w')
      /\ (l = generateIntelligentMCQs text \/ 1 <= length l <= 5)
      /\ service w' = service w.
Proof.
  intros rest text. induction rest as [|model rest IH]; intros w.
  - cbn. unfold ret. eexists _, _. split; [reflexivity|]. split; [left|]; reflexivity.
  - cbn [mcq_loop]. unfold bind at 1, try_catch.
    pose proof (mcqs_with_model_result w) as Hbody.
    destruct (mcqs_with_model w) as [[[l|]|e] w1]; unfold ret.
    + destruct Hbody as [Hlen Hsvc]. eexists _, _. split; [reflexivity|].
      split; [right; exact Hlen | exact Hsvc].
    + destruct (IH w1) as (l & w' & Hrun & Hl & Hsvc).
      exists l, w'. split; [exact Hrun|]. split; [exact Hl | congruence].
    + destruct (IH w1) as (l & w' & Hrun & Hl & Hsvc).
      exists l, w'. split; [exact Hrun|]. split; [exact Hl | congruence].
Qed.

Lemma generateMCQs_result :
  forall text w,
    is_blank text = false ->
    exists l w',
      generateMCQs text w = (Ok l, w')
      /\ (l = generateIntelligentMCQs text \/ 1 <= length l <= 5)
      /\ service w' = service w.
Proof.
  intros text w Hblank. unfold generateMCQs. rewrite Hblank. apply mcq_loop_result.
Qed.

(** ** The fallback questions *)

Lemma eqs_refl : forall a, eqs a a = true.
Proof.
  induction a as [|c a IH]; cbn; [reflexivity|].
  unfold eqc. rewrite N.eqb_refl. exact IH.
Qed.

Lemma eqs_eq : forall a b, eqs a b = true <-> a = b.
Proof.
  induction a as [|x a IH]; intros [|y b]; cbn; split; intros H;
    try reflexivity; try discriminate.
  - apply andb_true_iff in H as [Hxy Hab]. apply N.eqb_eq in Hxy.
    apply IH in Hab. subst. reflexivity.
  - inversion H; subst. unfold eqc. rewrite N.eqb_refl. apply eqs_refl.
Qed.

Lemma substring_length :
  forall n s, length (substring 0 n s) = Nat.min n (length s).
Proof.
  intros n s. unfold substring. cbn [skipn]. rewrite length_firstn. lia.
Qed.

Lemma questionTypes_nonempty :
  forall k phrase, exists c r, questionTypes k phrase = c :: r.
Proof.
  intros k phrase. destruct k as [|[|[|[|k]]]]; cbn; eauto.
Qed.

Lemma as_strings_map : forall l, as_strings (VArr (map VStr l)) = Some l.
Proof.
  induction l as [|x l IH]; [reflexivity|].
  cbn in *. rewrite IH. reflexivity.
Qed.

Lemma no_duplicates_distractors : no_duplicates distractors = true.
Proof. vm_compute. reflexivity. Qed.

Lemma distractors_nonempty : forallb (fun s => negb (eqs s [])) distractors = true.
Proof. vm_compute. reflexivity. Qed.

Lemma sentence_mcq_ok :
  forall sentences i m, sentence_mcq sentences i = Some m -> fallback_mcq_ok m.
Proof.
  intros sentences i m H. unfold sentence_mcq in H.
  set (sentence := trim (nth i sentences [])) in *.
  destruct (length sentence <? 30) eqn:Hlen; [discriminate|].
  apply Nat.ltb_ge in Hlen. cbn zeta in H.
  set (first := substring 0 (Nat.min 80 (length sentence)) sentence
                ++ (if 80 <? length sentence then ellipsis else [])) in *.
  assert (Hfirst : negb (eqs first []) = true).
  { destruct first as [|c r] eqn:E; [|reflexivity].
    apply (f_equal (@length _)) in E. unfold first in E.
    rewrite length_app, substring_length in E. cbn [length] in E. exfalso. lia. }
  match type of H with
  | context [questionTypes ?k ?p] =>
      destruct (questionTypes_nonempty k p) as (q & qr & Hq); rewrite Hq in H
  end.
  change (slice 0 4 (first :: distractors)) with (first :: distractors) in H.
  change (nth 0 (first :: distractors) []) with first in H.
  clearbody first sentence.
  injection H as <-.
  unfold fallback_mcq_ok, question_nonempty, four_nonempty_options,
    answer_is_first_option, answer_among_options, options_distinct,
    answer_is_distractor.
  cbn [question options answer].
  change [VStr first; VStr (str "It is not discussed in the text");
          VStr (str "The text provides conflicting information");
          VStr (str "Further research is needed on this topic")]
    with (map VStr (first :: distractors)).
  rewrite as_strings_map.
  split; [reflexivity|]. split.
  { cbn [length forallb]. rewrite Hfirst, distractors_nonempty. reflexivity. }
  split; [apply eqs_refl|]. split.
  { unfold arr_includes. cbn [existsb]. rewrite eqs_refl. reflexivity. }
  cbn [no_duplicates]. rewrite no_duplicates_distractors. apply andb_true_r.
Qed.

Lemma generic_mcq_ok : forall importantWords, fallback_mcq_ok (generic_mcq importantWords).
Proof.
  intros importantWords. repeat split.
Qed.

Lemma collect_mcqs :
  forall (f : nat -> option MCQ) (P : MCQ -> Prop),
    (forall i m, f i = Some m -> P m) ->
    forall idx acc,
      Forall P acc ->
      let r := fold_left
                 (fun mcqs i => match f i with
                                | Some mcq => mcqs ++ [mcq]
                                | None => mcqs
                                end) idx acc in
      Forall P r /\ length r <= length acc + length idx.
Proof.
  intros f P Hf. induction idx as [|i idx IH]; intros acc Hacc; cbn.
  - split; [exact Hacc | lia].
  - destruct (f i) as [m|] eqn:E.
    + destruct (IH (acc ++ [m])) as [H1 H2].
      { apply Forall_app. split; [exact Hacc|]. constructor; [eapply Hf; eassumption | constructor]. }
      split; [exact H1|]. rewrite length_app in H2. cbn in H2. lia.
    + destruct (IH acc Hacc) as [H1 H2]. split; [exact H1 | lia].
Qed.

(** The fallback returns exactly five MCQs, each with a non-empty
    question, four non-empty options and the first option as answer. *)
Lemma generateIntelligentMCQs_ok :
  forall text,
    length (generateIntelligentMCQs text) = 5
    /\ Forall fallback_mcq_ok (generateIntelligentMCQs text).
Proof.
  intros text. unfold generateIntelligentMCQs.
  set (sentences := sentences_of text).
  set (importantWords := top_words 10 _).
  destruct (@collect_mcqs (sentence_mcq sentences) fallback_mcq_ok
              (sentence_mcq_ok sentences)
              (seq 0 (Nat.min 5 (length sentences))) []
              (Forall_nil _)) as [Hall Hlen].
  cbn zeta in Hall, Hlen. rewrite length_seq in Hlen. cbn [length] in Hlen.
  set (found := fold_left _ _ _) in *.
  assert (Hfive : length (found ++ repeat (generic_mcq importantWords) (5 - length found)) = 5).
  { rewrite length_app, repeat_length. lia. }
  unfold slice. cbn [skipn]. rewrite Nat.sub_0_r.
  rewrite firstn_all2 by (rewrite Hfive; apply Nat.le_refl).
  split; [exact Hfive|].
  apply Forall_app. split; [exact Hall|].
  apply Forall_forall. intros m Hm. apply repeat_spec in Hm. subst m.
  apply generic_mcq_ok.
Qed.

(** ** When every call fails *)

Lemma invoke_once_fails :
  forall w,
    is_failure (fst (service w (calls w))) = true ->
    exists e, invoke_once w = (Throw e, sent (snd (service w (calls w))) w).
Proof.
  intros w Hfail.
  unfold invoke_once, try_catch, bind, hfAxios_post, throw, ret.
  destruct (service w (calls w)) as [[st txt d|c msg] arrival]; cbn [fst snd] in *.
  - unfold is_failure in Hfail.
    destruct (validateStatus st); cbn [status statusText data response_status code].
    + destruct (st =? 503); [eexists; reflexivity|].
      destruct (st =? 429); [eexists; reflexivity|].
      destruct (st =? 410); [eexists; reflexivity|].
      destruct (400 <=? st); [eexists; reflexivity|].
      cbn [orb] in Hfail. rewrite Hfail. eexists; reflexivity.
    + eexists; reflexivity.
  - cbn [response_status code]. destruct c as [c|]; [case_if|]; eexists; reflexivity.
Qed.

Lemma retry_from_fails :
  forall svc,
    (forall n, is_failure (fst (svc n)) = true) ->
    forall k w,
      service w = svc ->
      exists e w',
        Retry.retry_from invoke_once (fun error => ret (shouldRetry error)) k w
        = (Throw e, w').
Proof.
  intros svc Hall. induction k as [|k IH]; intros w Hsvc;
    cbn [Retry.retry_from]; unfold try_catch;
    destruct (invoke_once_fails w) as [e He];
    try (rewrite Hsvc; apply Hall); rewrite He.
  - unfold throw. eauto.
  - unfold bind, ret, throw. destruct (shouldRetry e); cbn [negb]; [|eauto].
    apply IH. exact Hsvc.
Qed.

Lemma callHuggingFace_fails :
  forall w, all_calls_fail w -> exists e w', callHuggingFace w = (Throw e, w').
Proof.
  intros w Hall.
  destruct (retry_from_fails Hall 3 w eq_refl) as (e & w1 & Hretry).
  unfold callHuggingFace, CircuitBreaker.execute, CircuitBreaker.run,
    Retry.retryOnCondition.
  rewrite Hretry.
  destruct (CircuitBreaker.state (breaker w));
    try (destruct (now w <? CircuitBreaker.nextAttempt (breaker w))%Z);
    eauto.
Qed.

Lemma all_calls_fail_service :
  forall w w', service w' = service w -> all_calls_fail w -> all_calls_fail w'.
Proof.
  intros w w' Hsvc Hall n. rewrite Hsvc. apply Hall.
Qed.

(** With every call failing the cascade for the questions ends in the
    deterministic fallback. *)
Lemma mcq_loop_fallback :
  forall rest text w,
    all_calls_fail w ->
    exists w', mcq_loop rest text w = (Ok (generateIntelligentMCQs text), w').
Proof.
  intros rest text. induction rest as [|model rest IH]; intros w Hall.
  - cbn. unfold ret. eauto.
  - cbn [mcq_loop]. unfold bind at 1, try_catch.
    pose proof (mcqs_with_model_result w) as Hbody.
    assert (Hthrow : exists e w1, mcqs_with_model w = (Throw e, w1)).
    { destruct (callHuggingFace_fails Hall) as (e & w1 & Hcall).
      unfold mcqs_with_model, bind. rewrite Hcall. eauto. }
    destruct Hthrow as (e & w1 & Hthrow). rewrite Hthrow in *.
    unfold ret. apply IH. exact (@all_calls_fail_service w w1 Hbody Hall).
Qed.

(** ** processDocument *)

(** A section summary that the loop keeps. *)
Lemma summarize_sections_result :
  forall chunks acc w,
    Forall (fun s => 50 < length s /\ starts_with_class is_space s = false) acc ->
    exists l w',
      summarize_sections chunks acc w = (Ok l, w')
      /\ Forall (fun s => 50 < length s /\ starts_with_class is_space s = false) l
      /\ service w' = service w.
Proof.
  induction chunks as [|chunk rest IH]; intros acc w Hacc.
  - cbn. unfold ret. eauto.
  - cbn [summarize_sections]. unfold bind at 1, try_catch, bind at 1.
    destruct (is_blank chunk) eqn:Hblank.
    + rewrite summarizeText_blank by exact Hblank. unfold ret. apply IH. exact Hacc.
    + destruct (summarizeText_result chunk w Hblank) as (s & w1 & Hrun & Hhead & Hsvc).
      rewrite Hrun.
      destruct (negb (eqs s []) && (50 <? length s)) eqn:Hkeep; unfold ret.
      * apply andb_true_iff in Hkeep as [_ Hlen]. apply Nat.ltb_lt in Hlen.
        destruct (IH (acc ++ [s]) w1) as (l & w' & Hl & Hall & Hsvc').
        { apply Forall_app. split; [exact Hacc|]. repeat constructor; assumption. }
        exists l, w'. split; [exact Hl|]. split; [exact Hall | congruence].
      * destruct (IH acc w1 Hacc) as (l & w' & Hl & Hall & Hsvc').
        exists l, w'. split; [exact Hl|]. split; [exact Hall | congruence].
Qed.

Lemma join_head_first :
  forall sep s rest,
    s <> [] -> starts_with_class is_space s = false ->
    join sep (s :: rest) <> []
    /\ starts_with_class is_space (join sep (s :: rest)) = false.
Proof.
  intros sep [|c s] rest Hne Hhead; [contradiction|].
  destruct rest; cbn in *; (split; [discriminate | exact Hhead]).
Qed.

(** The summary of either path: it is produced, and does not start with
    whitespace, unless no section gave a summary and the first 3000
    characters of the text are blank. *)
Lemma summaryStage_result :
  forall text w,
    is_blank text = false ->
    (exists s w',
        summaryStage text w = (Ok s, w')
        /\ starts_with_class is_space s = false
        /\ service w' = service w)
    \/ (is_blank (substring 0 3000 text) = true
        /\ 3000 < wordCount text
        /\ exists w',
             summaryStage text w
             = (Throw (new_Error (str "Text is empty or invalid")), w')).
Proof.
  intros text w Hblank. unfold summaryStage.
  destruct (3000 <? wordCount text) eqn:Hlong.
  - destruct (chunkText_words text Hblank (wpc := 1000) ltac:(lia))
      as (chunks & Hchunks & _).
    rewrite Hchunks.
    unfold bind, lift. cbn beta iota.
    match goal with
    | |- context [summarize_sections ?a ?b ?c] =>
        destruct (@summarize_sections_result a b c (Forall_nil _))
          as (l & w1 & Hl & Hall & Hsvc)
    end.
    rewrite Hl.
    destruct (0 <? length l) eqn:Hsome.
    + left. destruct l as [|s rest]; [discriminate|].
      inversion Hall as [|? ? [Hlen Hhead] _]; subst.
      assert (Hne : s <> []) by (intros ->; cbn in Hlen; lia).
      destruct (join_head_first [nl; nl] rest Hne Hhead) as [Hjne Hjhead].
      destruct (500 <? length (join [nl; nl] (s :: rest))).
      * destruct (summarizeText_result (join [nl; nl] (s :: rest)) w1
                    (not_blank_of_head Hjne Hjhead)) as (r & w' & Hrun & Hr & Hsvc').
        exists r, w'. split; [exact Hrun|]. split; [exact Hr | congruence].
      * unfold ret. eauto.
    + destruct (is_blank (substring 0 3000 text)) eqn:Hprefix.
      * right. split; [reflexivity|]. split; [apply Nat.ltb_lt; exact Hlong|].
        rewrite summarizeText_blank by exact Hprefix. eauto.
      * left. destruct (summarizeText_result (substring 0 3000 text) w1 Hprefix)
          as (r & w' & Hrun & Hr & Hsvc').
        exists r, w'. split; [exact Hrun|]. split; [exact Hr | congruence].
  - left. apply summarizeText_result. exact Hblank.
Qed.

(** [processDocument] after a summary was produced. *)
Lemma processDocument_after_summary :
  forall text w s w1,
    is_blank text = false ->
    summaryStage text w = (Ok s, w1) ->
    exists l w2,
      generateMCQs text w1 = (Ok l, w2)
      /\ processDocument text w
         = (Ok {| summary := trim (applyFloor text s); mcqs := slice 0 5 l |}, w2)
      /\ (l = generateIntelligentMCQs text \/ 1 <= length l <= 5)
      /\ service w2 = service w1.
Proof.
  intros text w s w1 Hblank Hstage.
  destruct (generateMCQs_result text w1 Hblank) as (l & w2 & Hgen & Hl & Hsvc).
  exists l, w2. split; [exact Hgen|]. split; [|split; assumption].
  unfold processDocument. rewrite Hblank. unfold bind. rewrite Hstage, Hgen.
  reflexivity.
Qed.

Lemma processDocument_blank :
  forall text w,
    is_blank text = true ->
    processDocument text w
    = (Throw (new_Error (str "Document text is empty or invalid")), w).
Proof.
  intros text w Hblank. unfold processDocument. rewrite Hblank. reflexivity.
Qed.

(** ** Trimming twice *)

Lemma drop_while_length : forall p s, length (drop_while p s) <= length s.
Proof.
  intros p. induction s as [|c s IH]; cbn; [lia|].
  destruct (p c); cbn; lia.
Qed.

Lemma trim_length : forall s, length (trim s) <= length s.
Proof.
  intros s. unfold trim, trimStart. rewrite trimEnd_rev.
  etransitivity; [apply drop_while_length|].
  rewrite length_rev. etransitivity; [apply drop_while_length|].
  rewrite length_rev. lia.
Qed.

(** Dropping from the front keeps the last character. *)
Lemma drop_while_keeps_last :
  forall p s,
    starts_with_class p (rev s) = false ->
    starts_with_class p (rev (drop_while p s)) = false.
Proof.
  intros p. induction s as [|c s IH]; intros H; cbn; [reflexivity|].
  destruct (p c) eqn:Hc; [|exact H].
  apply IH. cbn [rev] in H.
  destruct (rev s) as [|x r]; [reflexivity|]. cbn in *. exact H.
Qed.

Lemma trim_last : forall s, starts_with_class is_space (rev (trim s)) = false.
Proof.
  intros s. unfold trim, trimStart. apply drop_while_keeps_last.
  rewrite trimEnd_rev, rev_involutive. apply drop_while_head.
Qed.

Lemma trimEnd_id :
  forall s, starts_with_class is_space (rev s) = false -> trimEnd s = s.
Proof.
  intros s H. rewrite trimEnd_rev. rewrite drop_while_id by exact H. apply rev_involutive.
Qed.

Lemma trim_id :
  forall s,
    starts_with_class is_space s = false ->
    starts_with_class is_space (rev s) = false ->
    trim s = s.
Proof.
  intros s Hhead Hlast. unfold trim, trimStart.
  rewrite trimEnd_id by exact Hlast. apply drop_while_id. exact Hhead.
Qed.

Lemma trim_trim : forall s, trim (trim s) = trim s.
Proof.
  intros s. apply trim_id; [apply trim_head | apply trim_last].
Qed.

(** The deterministic summary is already trimmed. *)
Lemma trim_extractiveSummary :
  forall text, trim (extractiveSummary text) = extractiveSummary text.
Proof.
  intros text. unfold extractiveSummary, createStructuredSummary, strip_ends.
  apply (trim_trim _).
Qed.

(** ** The short-text path of summarizeText *)

(** C10, as the code has it. For a text that is not empty or blank and
    has fewer than 500 words, [summarizeText] returns the deterministic
    summary [createStructuredSummary(extractKeyInformation(text))] and
    leaves the world as it was: no request is sent and the breaker is
    not touched. The result is therefore the same under any two
    behaviours of the service. (An empty or blank text is rejected by the
    guard of the function before the words are counted.) *)
Theorem summarizeText_short_text :
  forall text,
    is_blank text = false ->
    wordCount text < 500 ->
    (forall w, summarizeText text w = (Ok (extractiveSummary text), w))
    /\ (forall w1 w2, fst (summarizeText text w1) = fst (summarizeText text w2)).
Proof.
  intros text Hblank Hshort.
  assert (H : forall w, summarizeText text w = (Ok (extractiveSummary text), w)).
  { intros w. unfold summarizeText. rewrite Hblank.
    apply Nat.ltb_lt in Hshort. rewrite Hshort. reflexivity. }
  split; [exact H|]. intros w1 w2. rewrite !H. reflexivity.
Qed.

(** ** The floor on the summary *)

Lemma applyFloor_replaces :
  forall text s,
    length s < 100 ->
    length s < length (extractiveSummary text) ->
    applyFloor text s = extractiveSummary text.
Proof.
  intros text s Hshort Hlonger. unfold applyFloor.
  assert (Htrim : (length (trim s) <? 100) = true).
  { apply Nat.ltb_lt. pose proof (trim_length s). lia. }
  rewrite Htrim, orb_true_r.
  apply Nat.ltb_lt in Hlonger. rewrite Hlonger. reflexivity.
Qed.

Lemma split_runs_all_sep :
  forall sep s, forallb sep s = true -> length (split_runs sep s) <= 2.
Proof.
  intros sep. induction s as [|c s IH]; intros H; cbn in *; [lia|].
  apply andb_true_iff in H as [Hc Hs]. rewrite Hc.
  destruct (starts_with_class sep s) eqn:Hhead; [exact (IH Hs)|].
  destruct s as [|c' s']; [cbn; lia|].
  cbn in Hhead, Hs. rewrite Hhead in Hs. discriminate.
Qed.

(** A text of more than two words is not blank. *)
Lemma many_words_not_blank :
  forall text, 2 < wordCount text -> is_blank text = false.
Proof.
  intros text Hwc. rewrite is_blank_forallb.
  destruct (forallb is_space text) eqn:E; [|reflexivity].
  pose proof (split_runs_all_sep is_space text E). unfold wordCount, split_ws in Hwc. lia.
Qed.

(** Neither path produces a summary for an empty or blank text. *)
Lemma summaryStage_blank :
  forall text w,
    is_blank text = true ->
    summaryStage text w = (Throw (new_Error (str "Text is empty or invalid")), w).
Proof.
  intros text w Hblank. unfold summaryStage.
  assert (Hwc : wordCount text <= 2).
  { rewrite is_blank_forallb in Hblank. exact (split_runs_all_sep is_space text Hblank). }
  replace (3000 <? wordCount text) with false by (symmetry; apply Nat.ltb_ge; lia).
  apply summarizeText_blank. exact Hblank.
Qed.

(** C9. Inside [processDocument], when the summary that the short or the
    chunked path produced has fewer than 100 characters and the
    deterministic composer's output for the text is longer, the summary
    of the result is the composer's output; this covers a 40-character
    summary of the cascade. *)
Theorem summary_floor :
  forall text w s w1,
    summaryStage text w = (Ok s, w1) ->
    length s < 100 ->
    length s < length (extractiveSummary text) ->
    exists r w2,
      processDocument text w = (Ok r, w2)
      /\ summary r = extractiveSummary text.
Proof.
  intros text w s w1 Hstage Hshort Hlonger.
  assert (Hblank : is_blank text = false).
  { destruct (is_blank text) eqn:E; [|reflexivity].
    rewrite summaryStage_blank in Hstage by exact E. discriminate. }
  destruct (processDocument_after_summary text w Hblank Hstage)
    as (l & w2 & _ & Hrun & _).
  eexists _, w2. split; [exact Hrun|].
  cbn [summary]. rewrite applyFloor_replaces by assumption.
  apply trim_extractiveSummary.
Qed.

(** ** The priority chunks *)

(** A chunk of more than one word is not the empty string. *)
Lemma chunk_nonempty :
  forall chunk, 1 < wordCount chunk -> chunk <> [].
Proof.
  intros chunk H ->. cbn in H. lia.
Qed.


(** ** The clean-up of the summary keeps a leading sentence *)

Lemma trimEnd_app :
  forall a r,
    starts_with_class is_space (rev a) = false ->
    trimEnd (a ++ r) = a ++ trimEnd r.
Proof.
  intros a r Hlast. rewrite !trimEnd_rev. rewrite rev_app_distr, drop_while_app.
  destruct (forallb is_space (rev r)) eqn:E.
  - rewrite (drop_while_all _ _ E). cbn [rev]. rewrite app_nil_r.
    rewrite drop_while_id by exact Hlast. apply rev_involutive.
  - rewrite rev_app_distr, rev_involutive. reflexivity.
Qed.

Lemma trim_app :
  forall a r,
    a <> [] ->
    starts_with_class is_space a = false ->
    starts_with_class is_space (rev a) = false ->
    trim (a ++ r) = a ++ trimEnd r.
Proof.
  intros a r Hne Hhead Hlast. unfold trim, trimStart.
  rewrite trimEnd_app by exact Hlast.
  apply drop_while_id. destruct a as [|c a]; [contradiction | exact Hhead].
Qed.

Lemma collapse_from_app :
  forall x y b,
    collapse_from b (x ++ y) = collapse_from b x ++ collapse_from (run_flag b x) y.
Proof.
  induction x as [|c x IH]; intros y b; cbn; [reflexivity|].
  destruct (is_space c); [destruct b|]; rewrite IH; reflexivity.
Qed.

Lemma run_flag_snoc : forall x c b, run_flag b (x ++ [c]) = is_space c.
Proof.
  induction x as [|d x IH]; intros c b; cbn; [reflexivity | apply IH].
Qed.

Lemma run_flag_last :
  forall a b,
    a <> [] -> starts_with_class is_space (rev a) = false -> run_flag b a = false.
Proof.
  intros a b Hne Hlast.
  destruct (rev a) as [|c r] eqn:E.
  - apply (f_equal (@rev _)) in E. rewrite rev_involutive in E. contradiction.
  - apply (f_equal (@rev _)) in E. rewrite rev_involutive in E. cbn in E.
    rewrite E, run_flag_snoc. exact Hlast.
Qed.

Lemma collapse_from_head :
  forall c s b, is_space c = false -> collapse_from b (c :: s) = c :: collapse_from false s.
Proof.
  intros c s b Hc. cbn. rewrite Hc. reflexivity.
Qed.

Lemma collapse_from_last :
  forall a b,
    starts_with_class is_space (rev a) = false ->
    starts_with_class is_space (rev (collapse_from b a)) = false.
Proof.
  intros a b Hlast.
  destruct (rev a) as [|c r] eqn:E.
  - apply (f_equal (@rev _)) in E. rewrite rev_involutive in E. subst a. reflexivity.
  - apply (f_equal (@rev _)) in E. rewrite rev_involutive in E. cbn in E, Hlast.
    rewrite E, collapse_from_app. cbn [collapse_from]. rewrite Hlast.
    rewrite rev_app_distr. cbn. exact Hlast.
Qed.

Lemma not_space_not_nl : forall c, is_space c = false -> eqc c nl = false.
Proof.
  intros c Hc. destruct (eqc c nl) eqn:E; [|reflexivity].
  apply N.eqb_eq in E. subst c. discriminate.
Qed.

Lemma collapse_from_no_nl :
  forall s b, forallb (fun c => negb (eqc c nl)) (collapse_from b s) = true.
Proof.
  induction s as [|c s IH]; intros b; cbn; [reflexivity|].
  destruct (is_space c) eqn:Hc.
  - destruct b; cbn; apply IH.
  - cbn. rewrite (not_space_not_nl _ Hc). cbn. apply IH.
Qed.

(** After whitespace runs were replaced there is no line feed left, and
    the replacement of blank lines changes nothing. *)
Lemma squeeze_blank_lines_no_nl :
  forall s, forallb (fun c => negb (eqc c nl)) s = true -> squeeze_blank_lines s = s.
Proof.
  unfold squeeze_blank_lines. induction s as [|c s IH]; intros H; cbn; [reflexivity|].
  cbn in H. apply andb_true_iff in H as [Hc Hs].
  apply negb_true_iff in Hc. rewrite Hc. cbn. rewrite IH by exact Hs. reflexivity.
Qed.

Lemma squeeze_dots_app :
  forall a y,
    forallb (fun c => negb (eqc c dot)) a = true ->
    squeeze_dots (a ++ y) = a ++ squeeze_dots y.
Proof.
  unfold squeeze_dots. induction a as [|c a IH]; intros y H; cbn; [reflexivity|].
  cbn in H. apply andb_true_iff in H as [Hc Ha].
  apply negb_true_iff in Hc. rewrite Hc. rewrite IH by exact Ha. reflexivity.
Qed.

Lemma forallb_drop_while :
  forall (P p : char -> bool) s, forallb P s = true -> forallb P (drop_while p s) = true.
Proof.
  intros P p. induction s as [|c s IH]; intros H; cbn; [reflexivity|].
  destruct (p c); [|exact H].
  cbn in H. apply andb_true_iff in H as [_ Hs]. exact (IH Hs).
Qed.

Lemma forallb_rev :
  forall (P : char -> bool) s, forallb P (rev s) = forallb P s.
Proof.
  intros P. induction s as [|c s IH]; [reflexivity|].
  cbn. rewrite forallb_app, IH. cbn. rewrite andb_true_r. apply andb_comm.
Qed.

Lemma forallb_trim :
  forall (P : char -> bool) s, forallb P s = true -> forallb P (trim s) = true.
Proof.
  intros P s H. unfold trim, trimStart. rewrite trimEnd_rev.
  apply forallb_drop_while. rewrite forallb_rev.
  apply forallb_drop_while. rewrite forallb_rev. exact H.
Qed.

Lemma forallb_collapse :
  forall (P : char -> bool) s b,
    P sp = true -> forallb P s = true -> forallb P (collapse_from b s) = true.
Proof.
  intros P s b Hsp. revert b. induction s as [|c s IH]; intros b H; cbn; [reflexivity|].
  cbn in H. apply andb_true_iff in H as [Hc Hs].
  destruct (is_space c); [destruct b|]; cbn; rewrite ?Hsp, ?Hc; cbn; apply IH; exact Hs.
Qed.

(** The clean-up applied to a summary that starts with a trimmed,
    non-empty string without a full stop. *)
Lemma cleanup_keeps_prefix :
  forall a r,
    a <> [] ->
    starts_with_class is_space a = false ->
    starts_with_class is_space (rev a) = false ->
    forallb (fun c => negb (eqc c dot)) a = true ->
    exists rest,
      strip_ends (squeeze_dots (squeeze_blank_lines (collapse_ws (trim (a ++ r)))))
      = collapse_ws a ++ rest.
Proof.
  intros a r Hne Hhead Hlast Hdots.
  rewrite trim_app by assumption.
  rewrite squeeze_blank_lines_no_nl by apply collapse_from_no_nl.
  unfold collapse_ws. rewrite collapse_from_app.
  rewrite (run_flag_last false Hne Hlast).
  rewrite squeeze_dots_app by (apply forallb_collapse; [reflexivity | exact Hdots]).
  assert (Hne' : collapse_from false a <> []).
  { destruct a as [|c a]; [contradiction|]. cbn in Hhead.
    rewrite collapse_from_head by exact Hhead. discriminate. }
  assert (Hhead' : starts_with_class is_space (collapse_from false a) = false).
  { destruct a as [|c a]; [contradiction|]. cbn in Hhead.
    rewrite collapse_from_head by exact Hhead. exact Hhead. }
  unfold strip_ends. fold (trim (collapse_from false a
                                 ++ squeeze_dots (collapse_from false (trimEnd r)))).
  rewrite trim_app; [eauto | exact Hne' | exact Hhead' |].
  apply collapse_from_last. exact Hlast.
Qed.

(** ** The deterministic summary *)

Lemma sentences_of_spec :
  forall text s,
    In s (sentences_of text) ->
    20 < length (trim s) /\ sep_free is_terminal s.
Proof.
  intros text s H. unfold sentences_of in H. apply filter_In in H as [Hin Hlen].
  apply Nat.ltb_lt in Hlen. split; [exact Hlen|].
  pose proof (split_runs_sep_free is_terminal text) as Hall.
  rewrite Forall_forall in Hall. exact (Hall s Hin).
Qed.

Lemma In_slice : forall (A : Type) (a b : nat) (l : list A) (x : A), In x (slice a b l) -> In x l.
Proof.
  intros A a b l x H. unfold slice in H.
  rewrite <- (firstn_skipn a l). apply in_or_app. right.
  rewrite <- (firstn_skipn (b - a) (skipn a l)). apply in_or_app. left. exact H.
Qed.

(** The introduction block starts with a trimmed sentence of the
    introduction section. *)
Lemma intro_block_shape :
  forall intro,
    intro <> [] ->
    (forall s, In s intro -> s <> []) ->
    exists sentence r,
      In sentence intro /\ intro_block intro = trim sentence ++ r.
Proof.
  intros intro Hne Hall. unfold intro_block.
  destruct intro as [|first others]; [contradiction|].
  cbn [length Nat.ltb Nat.leb nth_error].
  match goal with
  | |- context [or_else ?a ?b] => set (pick := or_else a b)
  end.
  assert (Hpick : exists sentence,
             In sentence (first :: others) /\ pick = Some sentence /\ sentence <> []).
  { subst pick.
    destruct (find _ _) as [x|] eqn:Hfind.
    - apply find_some in Hfind as [Hin _]. exists x.
      pose proof (Hall x Hin) as Hx. destruct x as [|c x]; [contradiction|].
      split; [exact Hin|]. split; [reflexivity | discriminate].
    - exists first. pose proof (Hall first (or_introl eq_refl)) as Hf.
      split; [left; reflexivity|]. split; [reflexivity | exact Hf]. }
  destruct Hpick as (sentence & Hin & Hpick & Hsne). rewrite Hpick.
  destruct sentence as [|c sentence]; [contradiction|].
  cbn [is_truthy_str get_str]. eauto.
Qed.

Lemma cleanText_head :
  forall raw text,
    cleanText raw = Ok text ->
    50 <= length text /\ starts_with_class is_space text = false.
Proof.
  intros raw text H. unfold cleanText in H.
  destruct raw as [|c raw]; [discriminate|].
  match type of H with
  | context [trim ?x] => set (joined := x) in *
  end.
  destruct (length (trim joined) <? MIN_TEXT_LENGTH) eqn:Hlen; [discriminate|].
  apply Nat.ltb_ge in Hlen. injection H as <-.
  split; [exact Hlen | apply trim_head].
Qed.

(** A cleaned text is trimmed and holds no line feed. *)
Lemma cleanText_shape :
  forall raw text,
    cleanText raw = Ok text ->
    trim text = text /\ forallb (fun c => negb (eqc c nl)) text = true.
Proof.
  intros raw text H. unfold cleanText in H.
  destruct raw as [|c raw]; [discriminate|].
  match type of H with
  | context [trim ?x] => set (joined := x) in *
  end.
  destruct (length (trim joined) <? MIN_TEXT_LENGTH); [discriminate|].
  injection H as <-. split; [apply trim_trim|].
  apply forallb_trim. unfold joined, collapse_ws. apply collapse_from_no_nl.
Qed.

Lemma join_nonempty_last :
  forall sep l, l <> [] -> last l [] <> [] -> join sep l <> [].
Proof.
  intros sep. induction l as [|w l IH]; intros Hne Hlast; [contradiction|].
  destruct l as [|w' l]; [exact Hlast|].
  change (join sep (w :: w' :: l)) with (w ++ sep ++ join sep (w' :: l)).
  intros E. apply app_eq_nil in E as [_ E]. apply app_eq_nil in E as [_ E].
  revert E. apply IH; [discriminate | exact Hlast].
Qed.

Lemma last_skipn :
  forall (A : Type) (n : nat) (l : list A) (d : A),
    n < length l -> last (skipn n l) d = last l d.
Proof.
  intros A. induction n as [|n IH]; intros l d Hn; [reflexivity|].
  destruct l as [|x l]; [cbn in Hn; lia|].
  cbn [skipn]. rewrite IH by (cbn in Hn; lia).
  destruct l as [|y l]; [cbn in Hn; lia | reflexivity].
Qed.

Lemma split_runs_last_nonempty :
  forall sep s d,
    s <> [] -> sep (last s d) = false -> last (split_runs sep s) [] <> [].
Proof.
  intros sep. induction s as [|c s IH]; intros d Hne Hlast; [contradiction|].
  destruct s as [|c' s].
  - cbn [last] in Hlast. cbn [split_runs]. rewrite Hlast. cbn. discriminate.
  - assert (IH' : last (split_runs sep (c' :: s)) [] <> []).
    { apply (IH d); [discriminate | exact Hlast]. }
    pose proof (split_runs_not_nil sep (c' :: s)) as Hnil.
    change (split_runs sep (c :: c' :: s))
      with (if sep c then
              if starts_with_class sep (c' :: s) then split_runs sep (c' :: s)
              else [] :: split_runs sep (c' :: s)
            else cons_head c (split_runs sep (c' :: s))).
    destruct (split_runs sep (c' :: s)) as [|w ws]; [contradiction|].
    destruct (sep c); [destruct (starts_with_class sep (c' :: s))|].
    + exact IH'.
    + exact IH'.
    + cbn [cons_head]. destruct ws as [|w' ws]; [cbn; discriminate | exact IH'].
Qed.

Lemma last_not_space :
  forall s d,
    s <> [] -> starts_with_class is_space (rev s) = false -> is_space (last s d) = false.
Proof.
  intros s d Hne Hrev.
  rewrite (app_removelast_last d Hne), rev_app_distr in Hrev. exact Hrev.
Qed.

(** C8. For every cleaned document of more than 3000 words the chunked
    path of [processDocument] cuts the text with [chunkText(text, 1000)]
    into [n = ceil(wordCount / 1000)] chunks, at least four, the chunk
    at index [i] being the words [1000 i, ..., 1000 i + 999] joined by
    spaces; every chunk but the last holds 1000 words and none is
    empty. The priority chunks are exactly the chunks at the indices
    [0], [floor(n / 2)] and [n - 1], in this order; the three indices
    are pairwise distinct, so that no chunk is taken twice. These three
    chunks, and no other, are what the stage hands to [summarizeText],
    one after the other, before it combines the section summaries. *)
Theorem priority_chunks_of_long_text :
  forall raw text w,
    cleanText raw = Ok text ->
    3000 < wordCount text ->
    exists chunks,
      chunkText text 1000 = Ok chunks
      /\ length chunks = ceil_div (wordCount text) 1000
      /\ 4 <= length chunks
      /\ (forall i, i < length chunks ->
            nth i chunks []
            = join [sp] (slice (i * 1000) (i * 1000 + 1000) (split_ws text)))
      /\ (forall i, i < length chunks - 1 -> wordCount (nth i chunks []) = 1000)
      /\ (forall i, i < length chunks -> nth i chunks [] <> [])
      /\ 0 < length chunks / 2 < length chunks - 1
      /\ priorityChunks chunks
         = [nth 0 chunks []; nth (length chunks / 2) chunks [];
            nth (length chunks - 1) chunks []]
      /\ summaryStage text w
         = (sectionSummaries <-
              summarize_sections
                [nth 0 chunks []; nth (length chunks / 2) chunks [];
                 nth (length chunks - 1) chunks []] [] ;;
            if 0 <? length sectionSummaries then
              if 500 <? length (join [nl; nl] sectionSummaries)
              then summarizeText (join [nl; nl] sectionSummaries)
              else ret (join [nl; nl] sectionSummaries)
            else summarizeText (substring 0 3000 text)) w.
Proof.
  intros raw text w Hclean Hlong.
  assert (Hblank : is_blank text = false) by (apply many_words_not_blank; lia).
  destruct (chunkText_words text Hblank (wpc := 1000) ltac:(lia))
    as (chunks & Hrun & Hlen & Hsplit & _ & Hmany).
  exists chunks. split; [exact Hrun|]. split; [exact Hlen|].
  assert (Hfour : 4 <= length chunks).
  { rewrite Hlen. unfold ceil_div.
    pose proof (Nat.div_mod_eq (wordCount text + 1000 - 1) 1000).
    pose proof (Nat.mod_upper_bound (wordCount text + 1000 - 1) 1000 ltac:(lia)). lia. }
  split; [exact Hfour|].
  assert (Hmid : 0 < length chunks / 2 < length chunks - 1).
  { pose proof (Nat.div_mod_eq (length chunks) 2).
    pose proof (Nat.mod_upper_bound (length chunks) 2 ltac:(lia)). lia. }
  assert (Hbound : 1000 * (length chunks - 1) < wordCount text).
  { rewrite Hlen. unfold ceil_div.
    pose proof (Nat.div_mod_eq (wordCount text + 1000 - 1) 1000).
    pose proof (Nat.mod_upper_bound (wordCount text + 1000 - 1) 1000 ltac:(lia)). lia. }
  assert (Hcover : wordCount text <= 1000 * length chunks).
  { rewrite Hlen. unfold ceil_div.
    pose proof (Nat.div_mod_eq (wordCount text + 1000 - 1) 1000).
    pose proof (Nat.mod_upper_bound (wordCount text + 1000 - 1) 1000 ltac:(lia)). lia. }
  assert (Hfull : forall i, i < length chunks - 1 -> wordCount (nth i chunks []) = 1000).
  { intros i Hi. unfold wordCount at 1. rewrite Hsplit by lia.
    rewrite slice_length. fold (wordCount text). lia. }
  assert (Hnth : forall i, i < length chunks ->
            nth i chunks []
            = join [sp] (slice (i * 1000) (i * 1000 + 1000) (split_ws text))).
  { intros i Hi. rewrite Hlen in Hi. rewrite (Hmany ltac:(lia)).
    apply nth_map_seq. exact Hi. }
  assert (Hlast : nth (length chunks - 1) chunks [] <> []).
  { rewrite Hnth by lia. apply join_nonempty_last.
    - intros E. apply (f_equal (@length _)) in E. rewrite slice_length in E.
      fold (wordCount text) in E. cbn [length] in E. lia.
    - unfold slice.
      rewrite firstn_all2 by (rewrite length_skipn; fold (wordCount text); lia).
      rewrite last_skipn by (fold (wordCount text); lia).
      destruct (cleanText_head raw Hclean) as [Hlen50 _].
      destruct (cleanText_shape raw Hclean) as [Htrim _].
      assert (Hne : text <> []) by (intros ->; cbn in Hlen50; lia).
      apply (split_runs_last_nonempty is_space (s := text) 0%N Hne).
      apply last_not_space; [exact Hne|].
      rewrite <- Htrim. apply trim_last. }
  assert (Hnonempty : forall i, i < length chunks -> nth i chunks [] <> []).
  { intros i Hi. destruct (Nat.eq_dec i (length chunks - 1)) as [-> | Hne];
      [exact Hlast|].
    apply chunk_nonempty. rewrite Hfull by lia. lia. }
  split; [exact Hnth|]. split; [exact Hfull|]. split; [exact Hnonempty|].
  split; [exact Hmid|].
  assert (Hget : forall i, i < length chunks -> nth_error chunks i = Some (nth i chunks [])).
  { intros i Hi. apply nth_error_nth'. exact Hi. }
  assert (Hprio : priorityChunks chunks
                  = [nth 0 chunks []; nth (length chunks / 2) chunks [];
                     nth (length chunks - 1) chunks []]).
  { unfold priorityChunks. cbn [flat_map].
    rewrite !Hget by lia.
    pose proof (Hnonempty 0 ltac:(lia)) as H0.
    pose proof (Hnonempty (length chunks / 2) ltac:(lia)) as H1.
    destruct (nth 0 chunks []) as [|c0 r0]; [contradiction|].
    destruct (nth (length chunks / 2) chunks []) as [|c1 r1]; [contradiction|].
    destruct (nth (length chunks - 1) chunks []) as [|c2 r2]; [contradiction|].
    reflexivity. }
  split; [exact Hprio|].
  unfold summaryStage.
  replace (3000 <? wordCount text) with true by (symmetry; apply Nat.ltb_lt; exact Hlong).
  rewrite Hrun. unfold bind at 1, lift. rewrite Hprio. reflexivity.
Qed.

(** Without a line feed there is one paragraph, the text. *)
Lemma split_blank_lines_no_nl :
  forall s, forallb (fun c => negb (eqc c nl)) s = true -> split_blank_lines s = [s].
Proof.
  unfold split_blank_lines. induction s as [|c s IH]; intros H; cbn; [reflexivity|].
  cbn in H. apply andb_true_iff in H as [Hc Hs].
  apply negb_true_iff in Hc. rewrite Hc, IH by exact Hs. reflexivity.
Qed.

(** The clean-up leaves something of every summary that is not blank. *)
Lemma cleanup_nonempty :
  forall s,
    forallb is_space s = false ->
    strip_ends (squeeze_dots (squeeze_blank_lines (collapse_ws (trim s)))) <> [].
Proof.
  intros s Hs. rewrite <- is_blank_forallb in Hs.
  pose proof (trim_head s) as Hhead.
  destruct (trim s) as [|c r] eqn:Htrim.
  { unfold is_blank in Hs. destruct s; [discriminate|]. rewrite Htrim in Hs. discriminate. }
  cbn in Hhead.
  unfold collapse_ws. rewrite collapse_from_head by exact Hhead.
  unfold squeeze_blank_lines. cbn [squeeze_nl_from].
  rewrite (not_space_not_nl _ Hhead). cbn [andb].
  destruct (squeeze_dots_cons c (squeeze_nl_from 0 (collapse_from false r)) Hhead)
    as (c' & r' & E & Hc').
  rewrite E. unfold strip_ends. fold (trim (c' :: r')).
  destruct (trim_cons c' r' Hc') as [t Ht]. rewrite Ht. discriminate.
Qed.

(** The deterministic summary of a cleaned text of more than 50
    characters holds the conclusion block and is not empty. *)
Lemma extractiveSummary_of_cleaned :
  forall raw text,
    cleanText raw = Ok text ->
    50 < length text ->
    extractiveSummary text <> [].
Proof.
  intros raw text Hclean Hlen.
  destruct (cleanText_shape raw Hclean) as [Htrim Hnl].
  unfold extractiveSummary, createStructuredSummary.
  apply cleanup_nonempty.
  assert (Hpar : paragraphs (extractKeyInformation text) = [text]).
  { unfold extractKeyInformation. cbn [paragraphs].
    rewrite split_blank_lines_no_nl by exact Hnl.
    cbn [filter]. rewrite Htrim.
    apply Nat.ltb_lt in Hlen. rewrite Hlen. reflexivity. }
  rewrite Hpar. unfold conclusion_block. cbn [length Nat.sub nth].
  replace (0 <? 1) with true by reflexivity.
  assert (Hne : eqs text [] = false) by (destruct text; [cbn in Hlen; lia | reflexivity]).
  rewrite Hne. apply Nat.ltb_lt in Hlen. rewrite Hlen. cbn [negb andb].
  rewrite !forallb_app.
  replace (forallb is_space (str "Conclusion: ")) with false by reflexivity.
  cbn [andb]. rewrite !andb_false_r. reflexivity.
Qed.

(** C5, as the code has it. For a cleaned text of more than 50
    characters the deterministic summary is not empty. When the text has
    at least five sentences of more than 20 characters, so that the
    introduction section is not empty, the summary starts with a
    sentence of the introduction section, trimmed and with every
    whitespace run replaced by one space. *)
Theorem extractive_summary_starts_with_introduction :
  forall text,
    (forall raw, cleanText raw = Ok text -> 50 < length text ->
       extractiveSummary text <> [])
    /\ (5 <= length (sentences_of text) ->
        exists sentence rest,
          In sentence (introSection (extractKeyInformation text))
          /\ extractiveSummary text = collapse_ws (trim sentence) ++ rest
          /\ collapse_ws (trim sentence) <> []
          /\ extractiveSummary text <> []).
Proof.
  intros text. split; [intros raw; apply extractiveSummary_of_cleaned|].
  intros Hfive.
  set (intro := introSection (extractKeyInformation text)).
  assert (Hintro : intro = slice 0 (length (sentences_of text) / 5) (sentences_of text))
    by reflexivity.
  assert (Hsub : forall s, In s intro -> In s (sentences_of text)).
  { intros s Hs. rewrite Hintro in Hs. exact (In_slice _ _ _ _ Hs). }
  assert (Hne : intro <> []).
  { intros E. apply (f_equal (@length _)) in E. rewrite Hintro, slice_length in E.
    cbn [length] in E.
    pose proof (Nat.div_mod_eq (length (sentences_of text)) 5).
    pose proof (Nat.mod_upper_bound (length (sentences_of text)) 5 ltac:(lia)). lia. }
  assert (Hall : forall s, In s intro -> s <> []).
  { intros s Hs ->. destruct (sentences_of_spec text [] (Hsub _ Hs)) as [Hlen _].
    cbn in Hlen. lia. }
  destruct (intro_block_shape Hne Hall) as (sentence & r & Hin & Hshape).
  destruct (sentences_of_spec text sentence (Hsub _ Hin)) as [Hlen Hfree].
  assert (Ha : trim sentence <> []) by (intros E; rewrite E in Hlen; cbn in Hlen; lia).
  assert (Hdots : forallb (fun c => negb (eqc c dot)) (trim sentence) = true).
  { apply forallb_trim. unfold sep_free in Hfree.
    rewrite forallb_forall in Hfree |- *. intros c Hc. specialize (Hfree c Hc).
    apply negb_true_iff in Hfree. apply negb_true_iff.
    destruct (eqc c dot) eqn:E; [|reflexivity].
    apply N.eqb_eq in E. subst c. discriminate. }
  unfold extractiveSummary, createStructuredSummary. fold intro. rewrite Hshape.
  rewrite <- !app_assoc.
  destruct (cleanup_keeps_prefix
              (r ++ main_points_block (importantSentences (extractKeyInformation text))
                 ++ indicator_block (str "Approach: ") methodIndicators
                      (importantSentences (extractKeyInformation text))
                 ++ indicator_block (str "Key Findings: ") resultIndicators
                      (importantSentences (extractKeyInformation text))
                 ++ conclusion_block (paragraphs (extractKeyInformation text)))
              Ha (trim_head sentence) (trim_last sentence) Hdots) as [rest Hrest].
  exists sentence, rest.
  assert (Hc : collapse_ws (trim sentence) <> []).
  { pose proof (trim_head sentence) as Hh.
    destruct (trim sentence) as [|c t]; [contradiction|]. cbn in Hh.
    unfold collapse_ws. rewrite collapse_from_head by exact Hh. discriminate. }
  split; [exact Hin|]. split; [exact Hrest|]. split; [exact Hc|].
  rewrite Hrest. intros E. apply app_eq_nil in E as [E _]. exact (Hc E).
Qed.

(** ** The result of processDocument *)

Lemma substring_head :
  forall n c s, substring 0 (S n) (c :: s) = c :: substring 0 n s.
Proof.
  intros n c s. unfold substring. cbn [skipn]. rewrite !Nat.sub_0_r. reflexivity.
Qed.

(** A text without leading whitespace has no blank prefix. *)
Lemma prefix_not_blank :
  forall text,
    text <> [] -> starts_with_class is_space text = false ->
    is_blank text = false /\ is_blank (substring 0 3000 text) = false.
Proof.
  intros [|c s] Hne Hhead; [contradiction|]. cbn in Hhead.
  split; [apply not_blank_cons; exact Hhead|].
  change 3000 with (S 2999). rewrite substring_head. apply not_blank_cons. exact Hhead.
Qed.

(** The summary of the result is empty only if the composer's output
    for the text is. *)
Lemma floor_keeps_nonempty :
  forall text s,
    starts_with_class is_space s = false ->
    extractiveSummary text <> [] ->
    trim (applyFloor text s) <> [].
Proof.
  intros text s Hhead Hcomposer.
  assert (Hs : s <> [] -> trim s <> []).
  { intros Hne. destruct s as [|c s']; [contradiction|]. cbn in Hhead.
    destruct (trim_cons c s' Hhead) as [r Hr]. rewrite Hr. discriminate. }
  unfold applyFloor.
  destruct (eqs s [] || (length (trim s) <? 100)) eqn:Hfloor.
  - destruct (length s <? length (extractiveSummary text)) eqn:Hlonger.
    + rewrite trim_extractiveSummary. exact Hcomposer.
    + apply Nat.ltb_ge in Hlonger. apply Hs. intros ->.
      cbn in Hlonger. destruct (extractiveSummary text); [contradiction | cbn in Hlonger; lia].
  - apply orb_false_iff in Hfloor as [Hne _]. apply Hs. intros ->. discriminate.
Qed.

Lemma slice_all :
  forall (A : Type) (n : nat) (l : list A), length l <= n -> slice 0 n l = l.
Proof.
  intros A n l H. unfold slice. cbn [skipn]. rewrite Nat.sub_0_r.
  apply firstn_all2. exact H.
Qed.

(** X22. What [processDocument] returns for a cleaned text. It
    returns a result, whatever the service does. Its summary is a string
    that is not empty when the text has more than 50 characters. Its MCQ
    list has from 1 to 5 entries: the list of a model is cut to 5 and
    never filled up. When every call of the service fails, the list is
    the fallback's: exactly 5 MCQs, each with a non-empty question,
    exactly 4 non-empty options and the first option as its answer; the
    options are distinct unless the answer is one of the three fixed
    distractors. *)
Theorem processDocument_result :
  forall raw text w,
    cleanText raw = Ok text ->
    exists r w',
      processDocument text w = (Ok r, w')
      /\ (50 < length text -> summary r <> [])
      /\ 1 <= length (mcqs r) <= 5
      /\ (all_calls_fail w ->
          mcqs r = generateIntelligentMCQs text
          /\ length (mcqs r) = 5
          /\ Forall fallback_mcq_ok (mcqs r)).
Proof.
  intros raw text w Hclean.
  destruct (cleanText_head raw Hclean) as [Hlen Hhead].
  assert (Hne : text <> []) by (intros ->; cbn in Hlen; lia).
  destruct (prefix_not_blank Hne Hhead) as [Hblank Hprefix].
  destruct (summaryStage_result text w Hblank)
    as [(s & w1 & Hstage & Hs & Hsvc) | [Habs _]]; [|congruence].
  destruct (processDocument_after_summary text w Hblank Hstage)
    as (l & w2 & Hgen & Hrun & Hl & _).
  destruct (generateIntelligentMCQs_ok text) as [Hfive Hok].
  eexists _, w2. split; [exact Hrun|]. cbn [summary mcqs].
  split.
  { intros Hlong. apply floor_keeps_nonempty; [exact Hs|].
    exact (extractiveSummary_of_cleaned raw Hclean Hlong). }
  split.
  - destruct Hl as [-> | Hl]; rewrite slice_all by lia; lia.
  - intros Hall.
    assert (Hfallback : l = generateIntelligentMCQs text).
    { assert (Hall1 : all_calls_fail w1) by exact (@all_calls_fail_service w w1 Hsvc Hall).
      destruct (mcq_loop_fallback mcq_models text Hall1) as [w' Hloop].
      unfold generateMCQs in Hgen. rewrite Hblank, Hloop in Hgen.
      injection Hgen as <- _. reflexivity. }
    subst l. rewrite slice_all by lia. repeat split; assumption.
Qed.

(** C2, as the code has it. An empty or blank text is rejected with the
    input-validation error of [processDocument]. For any other text no
    error of the service reaches the caller: whatever the service does,
    [processDocument] returns a result when the first 3000 characters of
    the text are not all whitespace (as for every cleaned text), and the
    only error that can escape otherwise is the input-validation error
    of [summarizeText] on that blank prefix, for a text of more than
    3000 words. *)
Theorem processDocument_errors :
  forall text w,
    (is_blank text = true ->
     processDocument text w
     = (Throw (new_Error (str "Document text is empty or invalid")), w))
    /\ (is_blank text = false ->
        is_blank (substring 0 3000 text) = false ->
        exists r w', processDocument text w = (Ok r, w'))
    /\ (is_blank text = false ->
        forall e w',
          processDocument text w = (Throw e, w') ->
          e = new_Error (str "Text is empty or invalid")
          /\ is_blank (substring 0 3000 text) = true
          /\ 3000 < wordCount text).
Proof.
  intros text w. split; [apply processDocument_blank|].
  split.
  - intros Hblank Hprefix.
    destruct (summaryStage_result text w Hblank)
      as [(s & w1 & Hstage & _) | [Habs _]]; [|congruence].
    destruct (processDocument_after_summary text w Hblank Hstage)
      as (l & w2 & _ & Hrun & _).
    eauto.
  - intros Hblank e w' Hthrow.
    destruct (summaryStage_result text w Hblank)
      as [(s & w1 & Hstage & _) | (Hprefix & Hlong & w1 & Hstage)].
    + destruct (processDocument_after_summary text w Hblank Hstage)
        as (l & w2 & _ & Hrun & _).
      rewrite Hrun in Hthrow. discriminate.
    + unfold processDocument in Hthrow. rewrite Hblank in Hthrow.
      unfold bind in Hthrow. rewrite Hstage in Hthrow.
      injection Hthrow as <- _. split; [reflexivity|]. split; [exact Hprefix | exact Hlong].
Qed.

(** ** retryWithBackoff *)

Lemma backoff_from_flaky (A : Type) (f : nat) (a : A) (e : JsError) (baseDelay : Z) :
  forall left attempt i ws,
    Retry.backoff_from (flaky_timed f a e) sleep_logged baseDelay left attempt
      {| tried := i; waits := ws |}
    = (if f - i <=? left then Ok a else Throw e,
       {| tried := S (i + Nat.min (f - i) left);
          waits := ws ++ map (fun j => (baseDelay * 2 ^ Z.of_nat j)%Z)
                           (seq attempt (Nat.min (f - i) left)) |}).
Proof.
  induction left as [|left IH]; intros attempt i ws.
  - cbn [Retry.backoff_from]. unfold try_catch, flaky_timed, throw. cbn [tried waits].
    rewrite Nat.min_0_r. cbn [seq map]. rewrite app_nil_r, Nat.add_0_r.
    destruct (i <? f) eqn:Hlt.
    + apply Nat.ltb_lt in Hlt.
      destruct (f - i <=? 0) eqn:H0; [apply Nat.leb_le in H0; lia | reflexivity].
    + apply Nat.ltb_ge in Hlt. replace (f - i) with 0 by lia. reflexivity.
  - cbn [Retry.backoff_from]. unfold try_catch at 1. unfold flaky_timed at 1.
    cbn [tried waits].
    destruct (i <? f) eqn:Hlt.
    + apply Nat.ltb_lt in Hlt.
      unfold bind, sleep_logged. cbn [tried waits]. rewrite IH.
      assert (Hmin : Nat.min (f - i) (S left) = S (Nat.min (f - S i) left)) by lia.
      rewrite Hmin. cbn [seq map]. rewrite <- app_assoc. cbn [app].
      replace (S i + Nat.min (f - S i) left) with (i + S (Nat.min (f - S i) left)) by lia.
      destruct (f - S i <=? left) eqn:H1.
      * apply Nat.leb_le in H1.
        destruct (f - i <=? S left) eqn:H2; [reflexivity | apply Nat.leb_gt in H2; lia].
      * apply Nat.leb_gt in H1.
        destruct (f - i <=? S left) eqn:H2; [apply Nat.leb_le in H2; lia | reflexivity].
    + apply Nat.ltb_ge in Hlt. replace (f - i) with 0 by lia.
      cbn [Nat.leb Nat.min seq map]. rewrite app_nil_r, Nat.add_0_r. reflexivity.
Qed.

Lemma total_wait_app :
  forall x y, total_wait (x ++ y) = (total_wait x + total_wait y)%Z.
Proof.
  induction x as [|d x IH]; intro y; cbn [app total_wait fold_right].
  - reflexivity.
  - fold (total_wait (x ++ y)). fold (total_wait x). rewrite IH. lia.
Qed.

Lemma total_wait_doubling :
  forall (baseDelay : Z) n,
    total_wait (map (fun j => (baseDelay * 2 ^ Z.of_nat j)%Z) (seq 0 n))
    = (baseDelay * (2 ^ Z.of_nat n - 1))%Z.
Proof.
  intros baseDelay. induction n as [|n IH].
  - cbn. lia.
  - rewrite seq_S, map_app, total_wait_app, IH. cbn [Nat.add map total_wait fold_right].
    rewrite Nat2Z.inj_succ, Z.pow_succ_r by lia. lia.
Qed.

(** X1. [retryWithBackoff] on an operation that fails [f] times: it is
    called [min f maxRetries + 1] times, the result is the operation's
    value when [f <= maxRetries] and its error otherwise, and the delays
    waited are [baseDelay * 2^0, ..., baseDelay * 2^(n-1)] for
    [n = min f maxRetries], which add up to [baseDelay * (2^n - 1)]:
    nothing is waited after the last attempt. *)
Theorem retryWithBackoff_schedule :
  forall (A : Type) (f maxRetries : nat) (baseDelay : Z) (a : A) (e : JsError),
    let r := Retry.retryWithBackoff (flaky_timed f a e) sleep_logged maxRetries baseDelay
               {| tried := 0; waits := [] |} in
    let n := Nat.min f maxRetries in
    fst r = (if f <=? maxRetries then Ok a else Throw e)
    /\ tried (snd r) = S n
    /\ waits (snd r) = map (fun j => (baseDelay * 2 ^ Z.of_nat j)%Z) (seq 0 n)
    /\ total_wait (waits (snd r)) = (baseDelay * (2 ^ Z.of_nat n - 1))%Z.
Proof.
  intros A f maxRetries baseDelay a e. unfold Retry.retryWithBackoff.
  rewrite backoff_from_flaky. rewrite Nat.sub_0_r. cbn [fst snd tried waits app Nat.add].
  repeat split. apply total_wait_doubling.
Qed.

(** ** The circuit breaker between calls *)

Lemma execute_consistent :
  forall (W A : Type) (Date_now : W -> Z) (op : CircuitBreaker.t -> M W A) cb w,
    breaker_consistent cb ->
    let cb' := fst (snd (CircuitBreaker.execute Date_now op (cb, w))) in
    breaker_consistent cb'
    /\ CircuitBreaker.failureThreshold cb' = CircuitBreaker.failureThreshold cb
    /\ CircuitBreaker.resetTimeout cb' = CircuitBreaker.resetTimeout cb.
Proof.
  intros W A Date_now op cb w [Hpos Hst].
  unfold CircuitBreaker.execute, CircuitBreaker.run.
  destruct (CircuitBreaker.state cb) eqn:Hs; try contradiction.
  - destruct (op _ w) as [[r|err] w1]; cbn [fst snd].
    + unfold breaker_consistent, CircuitBreaker.onSuccess; cbn. auto.
    + unfold breaker_consistent, CircuitBreaker.onFailure.
      destruct (CircuitBreaker.failureThreshold cb <=? S (CircuitBreaker.failureCount cb)) eqn:Hth;
        cbn; rewrite ?Hs.
      * apply Nat.leb_le in Hth. auto.
      * apply Nat.leb_gt in Hth. auto.
  - destruct (Date_now w <? CircuitBreaker.nextAttempt cb)%Z.
    + cbn [fst snd]. unfold breaker_consistent. rewrite Hs. auto.
    + destruct (op _ w) as [[r|err] w1]; cbn [fst snd].
      * unfold breaker_consistent, CircuitBreaker.onSuccess; cbn. auto.
      * unfold breaker_consistent, CircuitBreaker.onFailure, CircuitBreaker.set_state.
        cbn [CircuitBreaker.failureThreshold CircuitBreaker.failureCount
             CircuitBreaker.resetTimeout CircuitBreaker.state].
        destruct (CircuitBreaker.failureThreshold cb <=? S (CircuitBreaker.failureCount cb)) eqn:Hth;
          cbn.
        -- apply Nat.leb_le in Hth. auto.
        -- apply Nat.leb_gt in Hth. lia.
Qed.

Lemma execute_all_consistent :
  forall (W A : Type) (Date_now : W -> Z) (ops : list (CircuitBreaker.t -> M W A)) cb w,
    breaker_consistent cb ->
    let cb' := fst (execute_all Date_now ops (cb, w)) in
    breaker_consistent cb'
    /\ CircuitBreaker.failureThreshold cb' = CircuitBreaker.failureThreshold cb
    /\ CircuitBreaker.resetTimeout cb' = CircuitBreaker.resetTimeout cb.
Proof.
  intros W A Date_now. induction ops as [|op ops IH]; intros cb w Hc.
  - cbn. auto.
  - cbn [execute_all].
    destruct (@execute_consistent W A Date_now op cb w Hc) as (Hc1 & Ht1 & Hr1).
    destruct (CircuitBreaker.execute Date_now op (cb, w)) as [r [cb1 w1]].
    cbn [fst snd] in *.
    destruct (IH cb1 w1 Hc1) as (Hc2 & Ht2 & Hr2).
    cbn zeta in *. repeat split; try apply Hc2; congruence.
Qed.

(** X2. Whatever the operations do (they may read the breaker they run
    under) and whatever the clock reads, after
    any sequence of calls of [execute] on a new breaker the breaker is
    closed with fewer failures counted than its threshold, or open with at
    least as many; it is never left half-open, and its threshold (which
    is positive: an option of 0 gives the default 5) and its reset
    timeout are those it was made with. *)
Theorem circuit_breaker_invariant :
  forall (W A : Type) (Date_now : W -> Z) (threshold : option nat) (timeout : option Z)
         (created : Z) (ops : list (CircuitBreaker.t -> M W A)) (w : W),
    let cb := fst (execute_all Date_now ops
                     (CircuitBreaker.constructor threshold timeout created, w)) in
    breaker_consistent cb
    /\ CircuitBreaker.state cb <> CircuitBreaker.HALF_OPEN
    /\ CircuitBreaker.failureThreshold cb = CircuitBreaker.or_default_nat threshold 5
    /\ CircuitBreaker.resetTimeout cb = CircuitBreaker.or_default_Z timeout 60000
    /\ 0 < CircuitBreaker.failureThreshold cb.
Proof.
  intros W A Date_now threshold timeout created ops w.
  assert (H0 : breaker_consistent (CircuitBreaker.constructor threshold timeout created)).
  { unfold breaker_consistent, CircuitBreaker.constructor. cbn.
    destruct threshold as [[|n]|]; cbn; lia. }
  destruct (@execute_all_consistent W A Date_now ops _ w H0) as (Hc & Ht & Hr).
  cbn zeta in *. repeat split; try apply Hc; auto.
  destruct Hc as [_ Hc]. intro Heq. rewrite Heq in Hc. exact Hc.
Qed.

(** ** The requests and the errors of [callHuggingFace] *)

Lemma retry_from_calls :
  forall k w,
    let w' := snd (Retry.retry_from invoke_once (fun error => ret (shouldRetry error)) k w) in
    calls w < calls w' /\ calls w' <= calls w + S k.
Proof.
  induction k as [|k IH]; intros w; cbn [Retry.retry_from]; unfold try_catch, throw;
    cbn zeta.
  - pose proof (f_equal calls (invoke_once_world w)) as Hw.
    destruct (invoke_once w) as [[v|e] w1]; cbn [snd sent calls] in *; lia.
  - pose proof (f_equal calls (invoke_once_world w)) as Hw.
    destruct (invoke_once w) as [[v|e] w1]; cbn [snd sent calls] in *; [lia|].
    unfold bind, ret. destruct (shouldRetry e); cbn [negb].
    + specialize (IH w1). cbn zeta in IH. unfold ret in IH. lia.
    + cbn [snd]. lia.
Qed.

Lemma set_breaker_same : forall w, set_breaker (breaker w) w = w.
Proof. intros [t n svc cb]. reflexivity. Qed.

Lemma callHuggingFace_rejects :
  forall w,
    admits w = false ->
    callHuggingFace w = (Throw (new_Error CircuitBreaker.open_message), w).
Proof.
  intros w Hadm. unfold admits in Hadm.
  unfold callHuggingFace, CircuitBreaker.execute.
  destruct (CircuitBreaker.state (breaker w)); try discriminate.
  destruct (now w <? CircuitBreaker.nextAttempt (breaker w))%Z; try discriminate.
  rewrite set_breaker_same. reflexivity.
Qed.

(** What an admitted call is: the retried request under a breaker that
    records its outcome. *)
Lemma callHuggingFace_admitted :
  forall w,
    admits w = true ->
    exists cb,
      callHuggingFace w
      = (let r := Retry.retry_from invoke_once (fun error => ret (shouldRetry error)) 3 w in
         match fst r with
         | Ok v => (Ok v, set_breaker (CircuitBreaker.onSuccess cb) (snd r))
         | Throw e => (Throw e, set_breaker (CircuitBreaker.onFailure (now (snd r)) cb) (snd r))
         end)
      /\ CircuitBreaker.failureCount cb = CircuitBreaker.failureCount (breaker w)
      /\ CircuitBreaker.failureThreshold cb = CircuitBreaker.failureThreshold (breaker w).
Proof.
  intros w Hadm. unfold admits in Hadm.
  unfold callHuggingFace, CircuitBreaker.execute, CircuitBreaker.run, Retry.retryOnCondition.
  cbn zeta.
  destruct (CircuitBreaker.state (breaker w)) eqn:Hs.
  - exists (breaker w).
    destruct (Retry.retry_from _ _ 3 w) as [[v|e] w1]; cbn [fst snd]; auto.
  - destruct (now w <? CircuitBreaker.nextAttempt (breaker w))%Z; [discriminate|].
    exists (CircuitBreaker.set_state CircuitBreaker.HALF_OPEN (breaker w)).
    destruct (Retry.retry_from _ _ 3 w) as [[v|e] w1]; cbn [fst snd]; auto.
  - exists (breaker w).
    destruct (Retry.retry_from _ _ 3 w) as [[v|e] w1]; cbn [fst snd]; auto.
Qed.

Lemma callHuggingFace_spends : spends 4 callHuggingFace.
Proof.
  intros w. split; [|apply callHuggingFace_service].
  destruct (admits w) eqn:Hadm.
  - destruct (callHuggingFace_admitted w Hadm) as (cb & Hrun & _).
    rewrite Hrun. cbn zeta.
    pose proof (retry_from_calls 3 w) as Hc. cbn zeta in Hc.
    destruct (Retry.retry_from _ _ 3 w) as [[v|e] w1]; cbn [fst snd set_breaker calls] in *; lia.
  - rewrite (callHuggingFace_rejects w Hadm). cbn [snd]. lia.
Qed.

(** X3. One call of [callHuggingFace] sends at least one and at most four
    requests when the breaker lets it through; when the breaker is open
    and its time has not come, the call throws the breaker's error, sends
    nothing and leaves clock and breaker as they are. *)
Theorem callHuggingFace_request_budget :
  forall w,
    (admits w = true ->
     calls w < calls (snd (callHuggingFace w)) <= calls w + 4)
    /\ (admits w = false ->
        callHuggingFace w = (Throw (new_Error CircuitBreaker.open_message), w)).
Proof.
  intros w. split.
  - intros Hadm. split; [|apply callHuggingFace_spends].
    destruct (callHuggingFace_admitted w Hadm) as (cb & Hrun & _).
    rewrite Hrun. cbn zeta.
    pose proof (retry_from_calls 3 w) as Hc. cbn zeta in Hc.
    destruct (Retry.retry_from _ _ 3 w) as [[v|e] w1]; cbn [fst snd set_breaker calls] in *; lia.
  - apply callHuggingFace_rejects.
Qed.

Lemma invoke_once_server_error :
  forall w st txt d arrival,
    service w (calls w) = (HttpResponse st txt d, arrival) ->
    500 <= st ->
    invoke_once w
    = (Throw {| message := str "Request failed with status code " ++ of_nat st;
                response_status := Some st;
                code := Some (str "ERR_BAD_RESPONSE") |},
       sent arrival w).
Proof.
  intros w st txt d arrival Hsvc Hlo.
  unfold invoke_once, try_catch, bind, hfAxios_post. rewrite Hsvc.
  unfold validateStatus.
  replace (st <? 500) with false by (symmetry; apply Nat.ltb_ge; lia).
  reflexivity.
Qed.

(** X4. A response with a status from 500 on other than 503 ends the
    call: one request is sent, the error thrown carries the response,
    and the breaker counts one more failure. *)
Theorem server_errors_are_final :
  forall w st txt d arrival,
    service w (calls w) = (HttpResponse st txt d, arrival) ->
    500 <= st -> st <> 503 ->
    admits w = true ->
    exists e w',
      callHuggingFace w = (Throw e, w')
      /\ response_status e = Some st
      /\ shouldRetry e = false
      /\ calls w' = S (calls w)
      /\ now w' = arrival
      /\ CircuitBreaker.failureCount (breaker w')
         = S (CircuitBreaker.failureCount (breaker w)).
Proof.
  intros w st txt d arrival Hsvc Hlo H503 Hadm.
  destruct (callHuggingFace_admitted w Hadm) as (cb & Hrun & Hcount & _).
  assert (Hno : (st =? 503) || (st =? 429) || (st =? 408) = false).
  { replace (st =? 503) with false by (symmetry; apply Nat.eqb_neq; lia).
    replace (st =? 429) with false by (symmetry; apply Nat.eqb_neq; lia).
    replace (st =? 408) with false by (symmetry; apply Nat.eqb_neq; lia).
    reflexivity. }
  assert (Hretry :
    Retry.retry_from invoke_once (fun error => ret (shouldRetry error)) 3 w
    = (Throw {| message := str "Request failed with status code " ++ of_nat st;
                response_status := Some st;
                code := Some (str "ERR_BAD_RESPONSE") |},
       sent arrival w)).
  { cbn [Retry.retry_from]. unfold try_catch at 1.
    rewrite (invoke_once_server_error w Hsvc Hlo).
    unfold bind, ret, shouldRetry. cbn [response_status]. rewrite Hno. reflexivity. }
  rewrite Hretry in Hrun. cbn zeta in Hrun. cbn [fst snd] in Hrun.
  eexists. eexists. split; [exact Hrun|].
  cbn [response_status]. unfold shouldRetry. cbn [response_status].
  repeat split; try assumption.
  cbn [set_breaker breaker]. unfold CircuitBreaker.onFailure.
  destruct (CircuitBreaker.failureThreshold cb <=? S (CircuitBreaker.failureCount cb));
    cbn [CircuitBreaker.failureCount]; congruence.
Qed.

Lemma callHuggingFace_success_aux :
  forall w st txt d arrival,
    service w (calls w) = (HttpResponse st txt d, arrival) ->
    st < 400 ->
    truthy (get_opt d "error") = false ->
    admits w = true ->
    exists w',
      callHuggingFace w = (Ok d, w')
      /\ calls w' = S (calls w).
Proof.
  intros w st txt d arrival Hsvc Hhi Herr Hadm.
  destruct (callHuggingFace_admitted w Hadm) as (cb & Hrun & _).
  assert (Honce : invoke_once w = (Ok d, sent arrival w)).
  { unfold invoke_once, try_catch, bind, hfAxios_post. rewrite Hsvc.
    unfold validateStatus.
    replace (st <? 500) with true by (symmetry; apply Nat.ltb_lt; lia).
    cbn [status statusText data].
    replace (st =? 503) with false by (symmetry; apply Nat.eqb_neq; lia).
    replace (st =? 429) with false by (symmetry; apply Nat.eqb_neq; lia).
    replace (st =? 410) with false by (symmetry; apply Nat.eqb_neq; lia).
    replace (400 <=? st) with false by (symmetry; apply Nat.leb_gt; lia).
    rewrite Herr. reflexivity. }
  assert (Hretry :
    Retry.retry_from invoke_once (fun error => ret (shouldRetry error)) 3 w
    = (Ok d, sent arrival w)).
  { cbn [Retry.retry_from]. unfold try_catch at 1. rewrite Honce. reflexivity. }
  rewrite Hretry in Hrun. cbn zeta in Hrun. cbn [fst snd] in Hrun.
  eexists. split; [exact Hrun|]. reflexivity.
Qed.

(** X5. A response with a status below 400 whose body has no truthy
    [error] makes the call return the body after one request; the
    breaker is closed with no failure counted, whatever it was before. *)
Theorem callHuggingFace_success :
  forall w st txt d arrival,
    service w (calls w) = (HttpResponse st txt d, arrival) ->
    st < 400 ->
    truthy (get_opt d "error") = false ->
    admits w = true ->
    exists w',
      callHuggingFace w = (Ok d, w')
      /\ calls w' = S (calls w)
      /\ now w' = arrival
      /\ CircuitBreaker.state (breaker w') = CircuitBreaker.CLOSED
      /\ CircuitBreaker.failureCount (breaker w') = 0.
Proof.
  intros w st txt d arrival Hsvc Hhi Herr Hadm.
  destruct (callHuggingFace_admitted w Hadm) as (cb & Hrun & _).
  assert (Honce : invoke_once w = (Ok d, sent arrival w)).
  { unfold invoke_once, try_catch, bind, hfAxios_post. rewrite Hsvc.
    unfold validateStatus.
    replace (st <? 500) with true by (symmetry; apply Nat.ltb_lt; lia).
    cbn [status statusText data].
    replace (st =? 503) with false by (symmetry; apply Nat.eqb_neq; lia).
    replace (st =? 429) with false by (symmetry; apply Nat.eqb_neq; lia).
    replace (st =? 410) with false by (symmetry; apply Nat.eqb_neq; lia).
    replace (400 <=? st) with false by (symmetry; apply Nat.leb_gt; lia).
    rewrite Herr. reflexivity. }
  assert (Hretry :
    Retry.retry_from invoke_once (fun error => ret (shouldRetry error)) 3 w
    = (Ok d, sent arrival w)).
  { cbn [Retry.retry_from]. unfold try_catch at 1. rewrite Honce. reflexivity. }
  rewrite Hretry in Hrun. cbn zeta in Hrun. cbn [fst snd] in Hrun.
  eexists. split; [exact Hrun|]. cbn. auto.
Qed.

Lemma invoke_once_errors :
  forall w e w',
    invoke_once w = (Throw e, w') ->
    (exists st, 500 <= st /\ response_status e = Some st
                /\ message e = str "Request failed with status code " ++ of_nat st)
    \/ message e = str "Request timeout. The model is taking too long to respond."
    \/ exists m, message e = str "Network error: " ++ m.
Proof.
  intros w e w'.
  unfold invoke_once, try_catch, bind, hfAxios_post, throw, ret.
  destruct (service w (calls w)) as [[st txt d|c msg] arrival].
  - unfold validateStatus. destruct (st <? 500) eqn:Hst;
      cbn [status statusText data response_status code message].
    + repeat case_if; intros H; try discriminate; injection H as He _; subst e;
        right; right; eexists; reflexivity.
    + intros H; injection H as He _; subst e. left. exists st.
      apply Nat.ltb_ge in Hst. cbn [response_status message]. auto.
  - cbn [response_status code message].
    destruct c as [c|]; [case_if|]; intros H; injection H as He _; subst e.
    + right; left; reflexivity.
    + right; right; eexists; reflexivity.
    + right; right; eexists; reflexivity.
Qed.

Lemma retry_from_errors :
  forall k w e w',
    Retry.retry_from invoke_once (fun error => ret (shouldRetry error)) k w = (Throw e, w') ->
    exists w0 w1, invoke_once w0 = (Throw e, w1).
Proof.
  induction k as [|k IH]; intros w e w'; cbn [Retry.retry_from]; unfold try_catch.
  - destruct (invoke_once w) as [[v|e0] w1] eqn:Honce; [discriminate|].
    unfold throw. intros H; injection H as He _; subst e0. eauto.
  - destruct (invoke_once w) as [[v|e0] w1] eqn:Honce; [discriminate|].
    unfold bind, ret. destruct (shouldRetry e0); cbn [negb].
    + apply IH.
    + unfold throw. intros H; injection H as He _; subst e0. eauto.
Qed.

(** X6. Every error [callHuggingFace] throws is the breaker's own, an
    error of the client library that carries a response with a status
    from 500 on, the timeout error, or an error whose message starts
    with [Network error: ]. The messages the source has for the statuses
    503, 429 and 410 are never the message of an error that reaches the
    caller. *)
Theorem callHuggingFace_errors :
  forall w e w',
    callHuggingFace w = (Throw e, w') ->
    (e = new_Error CircuitBreaker.open_message
     \/ (exists st, 500 <= st /\ response_status e = Some st
                    /\ message e = str "Request failed with status code " ++ of_nat st)
     \/ message e = str "Request timeout. The model is taking too long to respond."
     \/ exists m, message e = str "Network error: " ++ m)
    /\ message e <> str "Model is loading. Please wait a moment and try again."
    /\ message e <> str "Rate limit exceeded. Please try again later."
    /\ message e <> str "API endpoint deprecated. Please update the application.".
Proof.
  intros w e w' Hcall.
  assert (Hkind :
    e = new_Error CircuitBreaker.open_message
    \/ (exists st, 500 <= st /\ response_status e = Some st
                   /\ message e = str "Request failed with status code " ++ of_nat st)
    \/ message e = str "Request timeout. The model is taking too long to respond."
    \/ exists m, message e = str "Network error: " ++ m).
  { destruct (admits w) eqn:Hadm.
    - destruct (callHuggingFace_admitted w Hadm) as (cb & Hrun & _).
      rewrite Hrun in Hcall. cbn zeta in Hcall.
      destruct (Retry.retry_from _ _ 3 w) as [[v|e0] w1] eqn:Hretry;
        cbn [fst snd] in Hcall; [discriminate|].
      injection Hcall as He _. subst e0.
      destruct (retry_from_errors _ _ Hretry) as (w0 & w2 & Honce).
      right. exact (invoke_once_errors _ Honce).
    - rewrite (callHuggingFace_rejects w Hadm) in Hcall.
      injection Hcall as He _. left. symmetry. exact He. }
  split; [exact Hkind|].
  destruct Hkind as [He | [(st & _ & _ & Hm) | [Hm | (m & Hm)]]];
    [subst e; cbn [new_Error message] | | | ];
    try rewrite Hm; repeat split; intros Heq; cbv in Heq; discriminate Heq.
Qed.

(** ** The requests of the pipeline *)

Lemma spends_ret : forall (A : Type) (a : A), spends 0 (ret a).
Proof. intros A a w. cbn. split; [lia | reflexivity]. Qed.

Lemma spends_throw : forall (A : Type) (e : JsError), spends 0 (@throw World A e).
Proof. intros A e w. cbn. split; [lia | reflexivity]. Qed.

Lemma spends_lift : forall (A : Type) (r : outcome A), spends 0 (lift r).
Proof. intros A r w. cbn. split; [lia | reflexivity]. Qed.

Lemma spends_le :
  forall (A : Type) (n k : nat) (m : M World A), n <= k -> spends n m -> spends k m.
Proof. intros A n k m Hle Hm w. destruct (Hm w) as [Hc Hs]. split; [lia | exact Hs]. Qed.

Lemma spends_bind :
  forall (A B : Type) (n k : nat) (m : M World A) (f : A -> M World B),
    spends n m -> (forall a, spends k (f a)) -> spends (n + k) (bind m f).
Proof.
  intros A B n k m f Hm Hf w. unfold bind.
  destruct (Hm w) as [Hc Hs].
  destruct (m w) as [[a|e] w1]; cbn [snd] in *.
  - destruct (Hf a w1) as [Hc1 Hs1]. split; [lia | congruence].
  - split; [lia | exact Hs].
Qed.

Lemma spends_try_catch :
  forall (A : Type) (n k : nat) (m : M World A) (h : JsError -> M World A),
    spends n m -> (forall e, spends k (h e)) -> spends (n + k) (try_catch m h).
Proof.
  intros A n k m h Hm Hh w. unfold try_catch.
  destruct (Hm w) as [Hc Hs].
  destruct (m w) as [[a|e] w1]; cbn [snd] in *.
  - split; [lia | exact Hs].
  - destruct (Hh e w1) as [Hc1 Hs1]. split; [lia | congruence].
Qed.

(** The branches after the request send nothing. *)
Ltac spends_leaf :=
  repeat first
    [ apply spends_ret | apply spends_throw | apply spends_lift
    | match goal with
      | |- spends _ (if ?b then _ else _) => destruct b
      | |- spends _ (match ?x with _ => _ end) => destruct x
      end ].

Lemma summarize_with_model_spends :
  forall text, spends 4 (summarize_with_model text).
Proof.
  intros text. unfold summarize_with_model.
  apply (@spends_bind _ _ 4 0); [apply callHuggingFace_spends|].
  intros result.
  apply (@spends_bind _ _ 0 0); [apply spends_lift|].
  intros summary0. spends_leaf.
Qed.

Lemma summarize_loop_spends :
  forall models rest text, spends (4 * length rest) (summarize_loop models rest text).
Proof.
  intros models rest text. induction rest as [|model rest IH]; cbn [summarize_loop].
  - apply spends_ret.
  - apply (@spends_le _ (4 + 0 + 4 * length rest)); [cbn [length]; lia|].
    apply spends_bind.
    + apply spends_try_catch; [apply summarize_with_model_spends|].
      intros e. spends_leaf.
    + intros [s|]; [|exact IH].
      apply (@spends_le _ 0); [lia | apply spends_ret].
Qed.

Lemma summarizeText_spends : forall text, spends 24 (summarizeText text).
Proof.
  intros text. unfold summarizeText.
  destruct (is_blank text); [apply (@spends_le _ 0); [lia | apply spends_throw]|].
  destruct (wordCount text <? 500); [apply (@spends_le _ 0); [lia | apply spends_ret]|].
  apply (summarize_loop_spends summary_models summary_models text).
Qed.

Lemma mcqs_with_model_spends : spends 4 mcqs_with_model.
Proof.
  unfold mcqs_with_model.
  apply (@spends_bind _ _ 4 0); [apply callHuggingFace_spends|].
  intros result.
  apply (@spends_bind _ _ 0 0); [apply spends_lift|].
  intros mcqText. spends_leaf.
Qed.

Lemma mcq_loop_spends :
  forall rest text, spends (4 * length rest) (mcq_loop rest text).
Proof.
  intros rest text. induction rest as [|model rest IH]; cbn [mcq_loop].
  - apply spends_ret.
  - apply (@spends_le _ (4 + 0 + 4 * length rest)); [cbn [length]; lia|].
    apply spends_bind.
    + apply spends_try_catch; [apply mcqs_with_model_spends|].
      intros e. apply spends_ret.
    + intros [l|]; [|exact IH].
      apply (@spends_le _ 0); [lia | apply spends_ret].
Qed.

Lemma generateMCQs_spends : forall text, spends 20 (generateMCQs text).
Proof.
  intros text. unfold generateMCQs.
  destruct (is_blank text); [apply (@spends_le _ 0); [lia | apply spends_throw]|].
  apply (mcq_loop_spends mcq_models text).
Qed.

Lemma summarize_sections_spends :
  forall chunks acc, spends (24 * length chunks) (summarize_sections chunks acc).
Proof.
  induction chunks as [|chunk rest IH]; intros acc; cbn [summarize_sections].
  - apply spends_ret.
  - apply (@spends_le _ (24 + 0 + 0 + 24 * length rest)); [cbn [length]; lia|].
    apply spends_bind; [|intros acc'; apply IH].
    apply spends_try_catch; [|intros e; apply spends_ret].
    apply spends_bind; [apply summarizeText_spends|].
    intros s. spends_leaf.
Qed.

Lemma priorityChunks_length : forall chunks, length (priorityChunks chunks) <= 3.
Proof.
  intros chunks. unfold priorityChunks. cbn [flat_map].
  repeat match goal with
         | |- context [is_truthy_str ?c] => destruct (is_truthy_str c)
         end; cbn; lia.
Qed.

Lemma summaryStage_spends :
  forall text,
    spends 96 (summaryStage text)
    /\ (wordCount text <= 3000 -> spends 24 (summaryStage text))
    /\ (wordCount text < 500 -> spends 0 (summaryStage text)).
Proof.
  intros text. unfold summaryStage.
  destruct (3000 <? wordCount text) eqn:Hlong.
  - apply Nat.ltb_lt in Hlong. split; [|split; intros; lia].
    apply (@spends_le _ (0 + (72 + 24))); [lia|].
    apply spends_bind; [apply spends_lift|].
    intros chunks. apply spends_bind.
    + apply (@spends_le _ (24 * length (priorityChunks chunks))).
      * pose proof (priorityChunks_length chunks). lia.
      * apply summarize_sections_spends.
    + intros sections.
      destruct (0 <? length sections); [|apply summarizeText_spends].
      destruct (500 <? length (join [nl; nl] sections)); [apply summarizeText_spends|].
      apply (@spends_le _ 0); [lia | apply spends_ret].
  - split; [apply (@spends_le _ 24); [lia | apply summarizeText_spends]|].
    split; [intros _; apply summarizeText_spends|].
    intros Hshort. unfold summarizeText.
    destruct (is_blank text); [apply spends_throw|].
    replace (wordCount text <? 500) with true by (symmetry; apply Nat.ltb_lt; exact Hshort).
    apply spends_ret.
Qed.

Lemma processDocument_spends :
  forall text n, spends n (summaryStage text) -> spends (n + 20) (processDocument text).
Proof.
  intros text n Hn. unfold processDocument.
  destruct (is_blank text); [apply (@spends_le _ 0); [lia | apply spends_throw]|].
  apply spends_bind; [exact Hn|].
  intros s. apply (@spends_le _ (20 + 0)); [lia|].
  apply spends_bind; [apply generateMCQs_spends|].
  intros l. apply spends_ret.
Qed.

(** X7. One run of [processDocument] sends at most 116 requests to the
    inference service: at most 44 for a text of at most 3000 words and
    at most 20 (those of the MCQ models) for a text of fewer than 500
    words, whatever the service replies. *)
Theorem processDocument_request_budget :
  forall text w,
    let w' := snd (processDocument text w) in
    calls w <= calls w' <= calls w + 116
    /\ (wordCount text <= 3000 -> calls w' <= calls w + 44)
    /\ (wordCount text < 500 -> calls w' <= calls w + 20).
Proof.
  intros text w. cbn zeta.
  destruct (summaryStage_spends text) as (Hall & Hmid & Hshort).
  split; [|split].
  - apply (@processDocument_spends text 96 Hall w).
  - intros H. apply (@processDocument_spends text 24 (Hmid H) w).
  - intros H. apply (@processDocument_spends text 0 (Hshort H) w).
Qed.

(** ** The pipeline without the service *)

Lemma summarize_with_model_fails :
  forall text w,
    all_calls_fail w -> exists e w', summarize_with_model text w = (Throw e, w').
Proof.
  intros text w Hall. destruct (callHuggingFace_fails Hall) as (e & w1 & Hcall).
  unfold summarize_with_model, bind. rewrite Hcall. eauto.
Qed.

Lemma summarize_loop_offline :
  forall models rest text w,
    all_calls_fail w ->
    exists w', summarize_loop models rest text w = (Ok (extractiveSummary text), w').
Proof.
  intros models rest text. induction rest as [|model rest IH]; intros w Hall.
  - cbn. unfold ret. eauto.
  - cbn [summarize_loop]. unfold bind at 1, try_catch.
    destruct (summarize_with_model_fails text Hall) as (e & w1 & Hthrow).
    pose proof (proj2 (summarize_with_model_spends text w)) as Hsvc.
    rewrite Hthrow in *. cbn [snd] in Hsvc.
    destruct (eqs model (last_model models)); unfold ret.
    + eauto.
    + apply IH. exact (@all_calls_fail_service w w1 Hsvc Hall).
Qed.

Lemma summarizeText_offline :
  forall text w,
    all_calls_fail w ->
    exists w',
      summarizeText text w
      = (if is_blank text then Throw (new_Error (str "Text is empty or invalid"))
         else Ok (extractiveSummary text), w')
      /\ all_calls_fail w'.
Proof.
  intros text w Hall.
  pose proof (proj2 (summarizeText_spends text w)) as Hsvc.
  assert (Hrun : exists w',
    summarizeText text w
    = (if is_blank text then Throw (new_Error (str "Text is empty or invalid"))
       else Ok (extractiveSummary text), w')).
  { unfold summarizeText. destruct (is_blank text); [unfold throw; eauto|].
    destruct (wordCount text <? 500); [unfold ret; eauto|].
    apply summarize_loop_offline. exact Hall. }
  destruct Hrun as (w' & Hrun). exists w'. split; [exact Hrun|].
  rewrite Hrun in Hsvc. cbn [snd] in Hsvc.
  exact (@all_calls_fail_service w w' Hsvc Hall).
Qed.

Lemma summarize_sections_offline :
  forall chunks acc,
    exists l,
      forall w, all_calls_fail w ->
        exists w', summarize_sections chunks acc w = (Ok l, w') /\ all_calls_fail w'.
Proof.
  induction chunks as [|chunk rest IH]; intros acc.
  - exists acc. intros w Hall. cbn. unfold ret. eauto.
  - destruct (is_blank chunk) eqn:Hblank.
    + destruct (IH acc) as [l Hl]. exists l. intros w Hall.
      cbn [summarize_sections]. unfold bind at 1, try_catch, bind at 1.
      destruct (summarizeText_offline chunk Hall) as (w1 & Hrun & Hall1).
      rewrite Hrun, Hblank. unfold ret. apply Hl. exact Hall1.
    + destruct (IH (if negb (eqs (extractiveSummary chunk) [])
                       && (50 <? length (extractiveSummary chunk))
                    then acc ++ [extractiveSummary chunk] else acc)) as [l Hl].
      exists l. intros w Hall.
      cbn [summarize_sections]. unfold bind at 1, try_catch, bind at 1.
      destruct (summarizeText_offline chunk Hall) as (w1 & Hrun & Hall1).
      rewrite Hrun, Hblank.
      destruct (negb (eqs (extractiveSummary chunk) [])
                && (50 <? length (extractiveSummary chunk)));
        unfold ret; apply Hl; exact Hall1.
Qed.

Lemma summaryStage_offline :
  forall text,
    exists r,
      forall w, all_calls_fail w ->
        exists w', summaryStage text w = (r, w') /\ all_calls_fail w'.
Proof.
  intros text. unfold summaryStage.
  destruct (3000 <? wordCount text).
  - destruct (chunkText text 1000) as [chunks|e].
    + destruct (summarize_sections_offline (priorityChunks chunks) []) as [l Hl].
      exists (if 0 <? length l then
                if 500 <? length (join [nl; nl] l) then
                  if is_blank (join [nl; nl] l)
                  then Throw (new_Error (str "Text is empty or invalid"))
                  else Ok (extractiveSummary (join [nl; nl] l))
                else Ok (join [nl; nl] l)
              else
                if is_blank (substring 0 3000 text)
                then Throw (new_Error (str "Text is empty or invalid"))
                else Ok (extractiveSummary (substring 0 3000 text))).
      intros w Hall. unfold bind, lift. cbn beta iota.
      destruct (Hl w Hall) as (w1 & Hrun & Hall1). rewrite Hrun.
      destruct (0 <? length l).
      * destruct (500 <? length (join [nl; nl] l)).
        -- apply summarizeText_offline. exact Hall1.
        -- unfold ret. eauto.
      * apply summarizeText_offline. exact Hall1.
    + exists (Throw e). intros w Hall. unfold bind, lift. eauto.
  - exists (if is_blank text then Throw (new_Error (str "Text is empty or invalid"))
            else Ok (extractiveSummary text)).
    intros w Hall. apply summarizeText_offline. exact Hall.
Qed.

Lemma processDocument_offline_result :
  forall text,
    exists r,
      forall w, all_calls_fail w -> fst (processDocument text w) = r.
Proof.
  intros text. unfold processDocument.
  destruct (is_blank text) eqn:Hblank.
  - exists (Throw (new_Error (str "Document text is empty or invalid"))).
    intros w _. reflexivity.
  - destruct (summaryStage_offline text) as [[s|e] Hr].
    + exists (Ok {| summary := trim (applyFloor text s);
                    mcqs := slice 0 5 (generateIntelligentMCQs text) |}).
      intros w Hall. unfold bind.
      destruct (Hr w Hall) as (w1 & Hrun & Hall1). rewrite Hrun.
      unfold generateMCQs. rewrite Hblank.
      destruct (mcq_loop_fallback mcq_models text Hall1) as (w2 & Hmcq).
      rewrite Hmcq. reflexivity.
    + exists (Throw e). intros w Hall. unfold bind.
      destruct (Hr w Hall) as (w1 & Hrun & _). rewrite Hrun. reflexivity.
Qed.

Lemma applyFloor_same :
  forall text, applyFloor text (extractiveSummary text) = extractiveSummary text.
Proof.
  intros text. unfold applyFloor.
  destruct (eqs (extractiveSummary text) []
            || (length (trim (extractiveSummary text)) <? 100)); [|reflexivity].
  cbn zeta. rewrite Nat.ltb_irrefl. reflexivity.
Qed.

(** X8. When every request fails, what [processDocument] gives depends
    on the text alone, not on the clock, the breaker or the kind of
    failure; for a text of at most 3000 words that is not blank it is
    the deterministic summary of the text and the five MCQs of the
    fallback generator. *)
Theorem processDocument_offline :
  forall text,
    (forall w1 w2,
        all_calls_fail w1 -> all_calls_fail w2 ->
        fst (processDocument text w1) = fst (processDocument text w2))
    /\ (is_blank text = false ->
        wordCount text <= 3000 ->
        forall w,
          all_calls_fail w ->
          fst (processDocument text w)
          = Ok {| summary := extractiveSummary text;
                  mcqs := generateIntelligentMCQs text |}).
Proof.
  intros text. split.
  - intros w1 w2 H1 H2. destruct (processDocument_offline_result text) as [r Hr].
    rewrite (Hr w1 H1), (Hr w2 H2). reflexivity.
  - intros Hblank Hshort w Hall.
    unfold processDocument, summaryStage. rewrite Hblank.
    replace (3000 <? wordCount text) with false by (symmetry; apply Nat.ltb_ge; exact Hshort).
    unfold bind.
    destruct (summarizeText_offline text Hall) as (w1 & Hrun & Hall1).
    rewrite Hrun, Hblank.
    unfold generateMCQs. rewrite Hblank.
    destruct (mcq_loop_fallback mcq_models text Hall1) as (w2 & Hmcq).
    rewrite Hmcq. cbn [fst ret].
    rewrite applyFloor_same, trim_extractiveSummary, slice_all; [reflexivity|].
    rewrite (proj1 (generateIntelligentMCQs_ok text)). lia.
Qed.

(** ** The shape of the MCQs *)

Lemma to_mcq_shape : forall v m, to_mcq v = Ok m -> mcq_shape m = true.
Proof.
  intros v m. unfold to_mcq, bind_outcome.
  destruct (get v "question") as [q|]; [|discriminate].
  destruct (get v "options") as [opts|]; [|discriminate].
  destruct (get v "answer") as [a|]; [|discriminate].
  intros H. injection H as <-. unfold mcq_shape. cbn [question options answer].
  destruct (truthy q) eqn:Hq; [rewrite Hq|];
    (destruct (is_four_array opts) eqn:Ho; [rewrite Ho|]);
    (destruct (truthy a) eqn:Ha; [rewrite Ha|
       destruct (truthy (first_item_opt opts)) eqn:Hf; [rewrite Hf|]]);
    reflexivity.
Qed.

Lemma map_outcome_Forall :
  forall (A B : Type) (f : A -> outcome B) (P : B -> Prop),
    (forall x y, f x = Ok y -> P y) ->
    forall l r, map_outcome f l = Ok r -> Forall P r.
Proof.
  intros A B f P Hf. induction l as [|x l IH]; intros r; cbn [map_outcome].
  - intros H. injection H as <-. constructor.
  - unfold bind_outcome. destruct (f x) as [y|] eqn:Hx; [|discriminate].
    destruct (map_outcome f l) as [ys|]; [|discriminate].
    intros H. injection H as <-. constructor; [exact (Hf x y Hx) | apply IH; reflexivity].
Qed.

Lemma parse_mcqs_shape :
  forall json l, parse_mcqs json = Some l -> Forall (fun m => mcq_shape m = true) l.
Proof.
  intros json l. unfold parse_mcqs.
  destruct (JSON_parse json) as [[| | | | |items|]|]; try discriminate.
  destruct (0 <? length items); [|discriminate].
  destruct (map_outcome to_mcq (slice 0 5 items)) as [r|] eqn:Hmap; [|discriminate].
  intros H. injection H as <-.
  exact (map_outcome_Forall to_mcq _ to_mcq_shape _ Hmap).
Qed.

Lemma mcqs_with_model_shape :
  forall w l w',
    mcqs_with_model w = (Ok (Some l), w') -> Forall (fun m => mcq_shape m = true) l.
Proof.
  intros w l w'. unfold mcqs_with_model, bind, lift, ret, throw.
  destruct (callHuggingFace w) as [[result|e] w1]; [|discriminate].
  destruct (pick_text result) as [mcqText|e]; [|discriminate].
  destruct (truthy mcqText); [|discriminate].
  destruct mcqText; try discriminate.
  destruct (match_json_array s) as [json|]; [|discriminate].
  intros H. injection H as Hp _. exact (parse_mcqs_shape _ Hp).
Qed.

Lemma as_strings_length :
  forall items l, as_strings (VArr items) = Some l -> length items = length l.
Proof.
  unfold as_strings. induction items as [|x items IH]; intros l; cbn [fold_right].
  - intros H. injection H as <-. reflexivity.
  - destruct x; try discriminate.
    destruct (fold_right _ _ items) as [l'|]; [|discriminate].
    intros H. injection H as <-. cbn [length]. f_equal. apply IH. reflexivity.
Qed.

Lemma fallback_mcq_shape : forall m, fallback_mcq_ok m -> mcq_shape m = true.
Proof.
  intros [q o a] (Hq & Ho & Ha & _). unfold mcq_shape.
  unfold question_nonempty, four_nonempty_options, answer_is_first_option in *.
  cbn [question options answer] in *.
  destruct q as [| | | |[|c s]| |]; try discriminate.
  destruct o as [| | | | |items|]; try discriminate.
  destruct (as_strings (VArr items)) as [l|] eqn:Hl; [|discriminate].
  apply andb_true_iff in Ho as [Hlen Hne].
  rewrite <- (as_strings_length _ Hl) in Hlen.
  destruct a as [| | | |s'| |]; try discriminate.
  destruct l as [|first rest]; [discriminate|].
  cbn [forallb] in Hne. apply andb_true_iff in Hne as [Hfirst _].
  apply eqs_eq in Ha. subst s'.
  cbn [truthy is_four_array eqs negb andb]. rewrite Hlen, Hfirst. reflexivity.
Qed.

Lemma mcq_loop_shape :
  forall rest text w,
    exists l w',
      mcq_loop rest text w = (Ok l, w')
      /\ 1 <= length l <= 5
      /\ Forall (fun m => mcq_shape m = true) l.
Proof.
  intros rest text. induction rest as [|model rest IH]; intros w.
  - cbn [mcq_loop]. unfold ret. eexists _, _. split; [reflexivity|].
    destruct (generateIntelligentMCQs_ok text) as [Hlen Hok]. split; [lia|].
    eapply Forall_impl; [|exact Hok]. exact fallback_mcq_shape.
  - cbn [mcq_loop]. unfold bind at 1, try_catch.
    pose proof (mcqs_with_model_result w) as Hlen.
    pose proof (mcqs_with_model_shape w) as Hshape.
    destruct (mcqs_with_model w) as [[[l|]|e] w1]; unfold ret.
    + exists l, w1. split; [reflexivity|]. split; [apply Hlen|].
      exact (Hshape l w1 eq_refl).
    + apply IH.
    + apply IH.
Qed.

(** X9. For a text that is not blank [generateMCQs] returns, whatever
    the service replies, between one and five MCQs, and each of them has
    a truthy question, an array of exactly four options and a truthy
    answer: what a model left out is filled in by the mapping, and the
    MCQs of the fallback have all three. *)
Theorem generateMCQs_shape :
  forall text w,
    is_blank text = false ->
    exists l w',
      generateMCQs text w = (Ok l, w')
      /\ 1 <= length l <= 5
      /\ Forall (fun m => mcq_shape m = true) l.
Proof.
  intros text w Hblank. unfold generateMCQs. rewrite Hblank. apply mcq_loop_shape.
Qed.

(** ** Texts whose only whitespace are single spaces *)

Lemma single_spaced_from_weaken :
  forall s b, single_spaced_from b s = true -> single_spaced_from false s = true.
Proof.
  intros [|c s] b; cbn [single_spaced_from]; [reflexivity|].
  destruct (is_space c); [|exact (fun H => H)].
  intros H. apply andb_true_iff in H as [H Hs]. apply andb_true_iff in H as [Hc _].
  rewrite Hc, Hs. reflexivity.
Qed.

Lemma single_spaced_from_head :
  forall s, single_spaced_from true s = true -> starts_with_class is_space s = false.
Proof.
  intros [|c s]; cbn [single_spaced_from starts_with_class]; [reflexivity|].
  destruct (is_space c); [|reflexivity].
  rewrite andb_false_r. discriminate.
Qed.

Lemma collapse_single_spaced :
  forall s b, single_spaced_from b (collapse_from b s) = true.
Proof.
  induction s as [|c s IH]; intros b; cbn [collapse_from]; [reflexivity|].
  destruct (is_space c) eqn:Hc.
  - destruct b; [apply IH|].
    cbn [single_spaced_from]. rewrite is_space_sp. rewrite IH. reflexivity.
  - cbn [single_spaced_from]. rewrite Hc. apply IH.
Qed.

Lemma single_spaced_drop_while :
  forall s b,
    single_spaced_from b s = true ->
    single_spaced_from false (drop_while is_space s) = true.
Proof.
  induction s as [|c s IH]; intros b; cbn [single_spaced_from drop_while]; [reflexivity|].
  destruct (is_space c) eqn:Hc.
  - intros H. apply andb_true_iff in H as [_ Hs]. exact (IH true Hs).
  - intros H. cbn [single_spaced_from]. rewrite Hc. exact H.
Qed.

Lemma single_spaced_trimEnd :
  forall s b,
    single_spaced_from b s = true -> single_spaced_from b (trimEnd s) = true.
Proof.
  induction s as [|c s IH]; intros b; cbn [single_spaced_from trimEnd]; [reflexivity|].
  destruct (is_space c) eqn:Hc.
  - intros H. apply andb_true_iff in H as [H Hs].
    specialize (IH true Hs).
    destruct (trimEnd s) as [|d r]; [reflexivity|].
    cbn [single_spaced_from]. rewrite Hc, H. exact IH.
  - intros H. specialize (IH false H).
    destruct (trimEnd s) as [|d r]; cbn [single_spaced_from]; rewrite Hc;
      [reflexivity | exact IH].
Qed.

Lemma single_spaced_trim :
  forall s, single_spaced s = true -> single_spaced (trim s) = true.
Proof.
  intros s H. unfold single_spaced, trim, trimStart.
  apply (single_spaced_drop_while _ false). apply single_spaced_trimEnd. exact H.
Qed.

Lemma collapse_from_id :
  forall s b, single_spaced_from b s = true -> collapse_from b s = s.
Proof.
  induction s as [|c s IH]; intros b; cbn [single_spaced_from collapse_from];
    [reflexivity|].
  destruct (is_space c) eqn:Hc.
  - intros H. apply andb_true_iff in H as [H Hs]. apply andb_true_iff in H as [Heq Hb].
    apply N.eqb_eq in Heq. subst c.
    destruct b; [discriminate|]. rewrite (IH true Hs). reflexivity.
  - intros H. rewrite (IH false H). reflexivity.
Qed.

Lemma single_spaced_no_nl :
  forall s b,
    single_spaced_from b s = true -> forallb (fun c => negb (eqc c nl)) s = true.
Proof.
  induction s as [|c s IH]; intros b; cbn [single_spaced_from forallb]; [reflexivity|].
  destruct (is_space c) eqn:Hc.
  - intros H. apply andb_true_iff in H as [H Hs]. apply andb_true_iff in H as [Heq _].
    apply N.eqb_eq in Heq. subst c. rewrite (IH true Hs). reflexivity.
  - intros H. rewrite (not_space_not_nl c Hc), (IH false H). reflexivity.
Qed.

Lemma split_each_free :
  forall sep s, forallb (fun c => negb (sep c)) s = true -> split_each sep s = [s].
Proof.
  intros sep. induction s as [|c s IH]; cbn [forallb split_each]; [reflexivity|].
  intros H. apply andb_true_iff in H as [Hc Hs].
  destruct (sep c); [discriminate|]. rewrite (IH Hs). reflexivity.
Qed.

Lemma join_cons_head :
  forall sep c l, l <> [] -> join sep (cons_head c l) = c :: join sep l.
Proof.
  intros sep c [|w [|w' ws]] Hne; [contradiction | reflexivity | reflexivity].
Qed.

(** Splitting at the whitespace runs and joining with single spaces
    gives the text back when its whitespace are single spaces. *)
Lemma join_split_ws :
  forall s, single_spaced s = true -> join [sp] (split_ws s) = s.
Proof.
  unfold single_spaced, split_ws.
  induction s as [|c s IH]; cbn [single_spaced_from split_runs]; [reflexivity|].
  destruct (is_space c) eqn:Hc.
  - intros H. apply andb_true_iff in H as [H Hs]. apply andb_true_iff in H as [Heq _].
    apply N.eqb_eq in Heq. subst c.
    rewrite (single_spaced_from_head _ Hs).
    specialize (IH (single_spaced_from_weaken _ _ Hs)).
    pose proof (split_runs_not_nil is_space s) as Hne.
    destruct (split_runs is_space s) as [|w ws]; [contradiction|].
    change (join [sp] ([] :: w :: ws)) with (sp :: join [sp] (w :: ws)).
    rewrite IH. reflexivity.
  - intros H. rewrite join_cons_head by apply split_runs_not_nil.
    rewrite (IH H). reflexivity.
Qed.

Lemma cleanText_single_spaced :
  forall raw text, cleanText raw = Ok text -> single_spaced text = true.
Proof.
  intros raw text H. unfold cleanText in H.
  destruct raw as [|c raw]; [discriminate|].
  match type of H with
  | context [trim ?x] => set (joined := x) in *
  end.
  destruct (length (trim joined) <? MIN_TEXT_LENGTH); [discriminate|].
  injection H as <-. apply single_spaced_trim.
  unfold joined, collapse_ws, single_spaced. apply collapse_single_spaced.
Qed.

(** X10. A text that [cleanText] returns has at least 50 characters, no
    whitespace at either end, no line feed, and single spaces as its
    only whitespace; splitting it into words and joining them with
    spaces gives it back. *)
Theorem cleanText_normal_form :
  forall raw text,
    cleanText raw = Ok text ->
    50 <= length text
    /\ trim text = text
    /\ single_spaced text = true
    /\ forallb (fun c => negb (eqc c nl)) text = true
    /\ join [sp] (split_ws text) = text.
Proof.
  intros raw text H.
  pose proof (cleanText_single_spaced _ H) as Hss.
  split; [apply (cleanText_head _ H)|].
  split; [apply (cleanText_shape _ H)|].
  split; [exact Hss|].
  split; [apply (cleanText_shape _ H) | apply join_split_ws; exact Hss].
Qed.

(** X11. [cleanText] is idempotent: a text it returned is returned
    unchanged when it is cleaned again. *)
Theorem cleanText_idempotent :
  forall raw text, cleanText raw = Ok text -> cleanText text = Ok text.
Proof.
  intros raw text H.
  pose proof (cleanText_single_spaced _ H) as Hss.
  destruct (cleanText_head _ H) as [Hlen _].
  destruct (cleanText_shape _ H) as [Htrim Hnl].
  unfold cleanText.
  destruct text as [|c text]; [cbn in Hlen; lia|].
  assert (Hfree : forallb (fun x => negb (eqc nl x)) (c :: text) = true).
  { apply forallb_forall. intros x Hx. unfold eqc. rewrite N.eqb_sym.
    exact (proj1 (forallb_forall _ _) Hnl x Hx). }
  rewrite (split_each_free (eqc nl) (c :: text) Hfree).
  cbn [map]. rewrite Htrim. cbn [filter].
  replace (0 <? length (c :: text)) with true by reflexivity.
  cbn [join].
  unfold collapse_ws. rewrite (collapse_from_id _ _ Hss), Htrim.
  replace (length (c :: text) <? MIN_TEXT_LENGTH) with false
    by (symmetry; apply Nat.ltb_ge; exact Hlen).
  reflexivity.
Qed.

(** ** The chunks and the words *)

Lemma ceil_div_lt :
  forall n d j, 0 < d -> j < ceil_div n d -> j * d < n.
Proof.
  intros n d j Hd Hj. unfold ceil_div in Hj.
  pose proof (Nat.Div0.mul_div_le (n + d - 1) d).
  assert (j * d + d <= d * ((n + d - 1) / d)) by nia.
  lia.
Qed.

Lemma ceil_div_ge : forall n d, 0 < d -> n <= ceil_div n d * d.
Proof.
  intros n d Hd. unfold ceil_div.
  pose proof (Nat.div_mod_eq (n + d - 1) d) as Heq.
  pose proof (Nat.mod_upper_bound (n + d - 1) d ltac:(lia)) as Hlt.
  nia.
Qed.

Lemma firstn_plus :
  forall (A : Type) (a b : nat) (l : list A),
    firstn (a + b) l = firstn a l ++ firstn b (skipn a l).
Proof.
  intros A. induction a as [|a IH]; intros b l; [reflexivity|].
  destruct l as [|x l]; cbn [Nat.add firstn skipn app].
  - destruct b; reflexivity.
  - rewrite IH. reflexivity.
Qed.

Lemma concat_slices :
  forall (A : Type) (l : list A) (d n : nat),
    concat (map (fun j => slice (j * d) (j * d + d) l) (seq 0 n)) = firstn (n * d) l.
Proof.
  intros A l d. induction n as [|n IH]; [reflexivity|].
  rewrite seq_S, map_app, concat_app, IH. cbn [Nat.add map concat].
  rewrite app_nil_r. unfold slice.
  replace (n * d + d - n * d) with d by lia.
  replace (S n * d) with (n * d + d) by lia.
  symmetry. apply firstn_plus.
Qed.

Lemma join_app :
  forall sep x y,
    x <> [] -> y <> [] -> join sep (x ++ y) = join sep x ++ sep ++ join sep y.
Proof.
  intros sep. induction x as [|w x IH]; intros y Hx Hy; [contradiction|].
  destruct x as [|w' x].
  - destruct y as [|v y]; [contradiction|]. reflexivity.
  - change (join sep ((w :: w' :: x) ++ y)) with (w ++ sep ++ join sep ((w' :: x) ++ y)).
    rewrite IH by (exact Hy || discriminate).
    change (join sep (w :: w' :: x)) with (w ++ sep ++ join sep (w' :: x)).
    rewrite <- !app_assoc. reflexivity.
Qed.

Lemma join_concat :
  forall sep (ls : list (list jsstring)),
    Forall (fun l => l <> []) ls ->
    join sep (map (join sep) ls) = join sep (concat ls).
Proof.
  intros sep. induction ls as [|l ls IH]; intros Hall; [reflexivity|].
  inversion Hall as [|? ? Hl Hls]; subst.
  destruct ls as [|l' ls].
  - cbn [map concat join]. rewrite app_nil_r. reflexivity.
  - change (join sep (map (join sep) (l :: l' :: ls)))
      with (join sep l ++ sep ++ join sep (map (join sep) (l' :: ls))).
    rewrite (IH Hls).
    change (concat (l :: l' :: ls)) with (l ++ concat (l' :: ls)).
    symmetry. apply join_app; [exact Hl|].
    inversion Hls as [|? ? Hl' _]; subst.
    destruct l' as [|x l']; [contradiction | discriminate].
Qed.

(** X12. The chunks of [chunkText] divide the words of the text: the
    words of the chunks, one chunk after the other, are the words of the
    text, none lost, repeated or out of order; and joining the chunks of
    a text whose whitespace are single spaces gives the text back. *)
Theorem chunkText_partition :
  forall text wordsPerChunk,
    is_blank text = false ->
    0 < wordsPerChunk ->
    exists chunks,
      chunkText text wordsPerChunk = Ok chunks
      /\ concat (map split_ws chunks) = split_ws text
      /\ (single_spaced text = true -> join [sp] chunks = text).
Proof.
  intros text wpc Hblank Hpos.
  destruct (chunkText_words text Hblank Hpos) as (chunks & Hrun & _ & _ & Hone & Hmany).
  exists chunks. split; [exact Hrun|].
  destruct (Nat.le_gt_cases (wordCount text) wpc) as [Hle | Hgt].
  - rewrite (Hone Hle). cbn [map concat join]. rewrite app_nil_r. auto.
  - rewrite (Hmany Hgt). unfold wordCount.
    set (words := split_ws text).
    set (n := ceil_div (length words) wpc).
    assert (Hin : forall j, In j (seq 0 n) -> j * wpc < length words).
    { intros j Hj. apply in_seq in Hj. apply ceil_div_lt; [exact Hpos | lia]. }
    assert (Hall : firstn (n * wpc) words = words).
    { apply firstn_all2. apply ceil_div_ge. exact Hpos. }
    split.
    + rewrite map_map.
      rewrite (map_ext_in _ (fun j => slice (j * wpc) (j * wpc + wpc) words)).
      * rewrite concat_slices. exact Hall.
      * intros j Hj. apply split_ws_chunk; [apply Hin; exact Hj | lia].
    + intros Hss.
      rewrite <- (map_map (fun j => slice (j * wpc) (j * wpc + wpc) words) (join [sp])).
      rewrite join_concat.
      * rewrite concat_slices, Hall. apply join_split_ws. exact Hss.
      * apply Forall_forall. intros l Hl. apply in_map_iff in Hl as (j & <- & Hj).
        intros E. apply (f_equal (@length _)) in E. rewrite slice_length in E.
        specialize (Hin j Hj). cbn [length] in E. lia.
Qed.

(** ** The shape of the deterministic summary *)

Lemma squeeze_dots_single_spaced :
  forall s skip b,
    single_spaced_from b s = true ->
    single_spaced_from (match skip with O => b | S _ => false end)
      (squeeze_dots_from skip s) = true.
Proof.
  induction s as [|c s IH]; intros skip b H; [destruct skip; reflexivity|].
  assert (Hrest : single_spaced_from (is_space c) s = true).
  { cbn [single_spaced_from] in H. destruct (is_space c); [|exact H].
    apply andb_true_iff in H as [_ H]. exact H. }
  assert (Hweak : forall k, single_spaced_from false (squeeze_dots_from k s) = true).
  { intros k. pose proof (IH k false (single_spaced_from_weaken _ _ Hrest)) as Hk.
    destruct k; exact Hk. }
  destruct skip as [|k]; cbn [squeeze_dots_from]; [|apply Hweak].
  assert (Hkeep : single_spaced_from b (c :: squeeze_dots_from 0 s) = true).
  { cbn [single_spaced_from] in *. destruct (is_space c) eqn:Hc.
    - apply andb_true_iff in H as [H Hs]. rewrite H. exact (IH 0 true Hs).
    - exact (IH 0 false H). }
  destruct (eqc c dot) eqn:Hdot; [|exact Hkeep].
  destruct (drop_while is_space s) as [|d r]; [exact Hkeep|].
  destruct (eqc d dot); [|exact Hkeep].
  cbn [single_spaced_from]. replace (is_space dot) with false by reflexivity.
  apply Hweak.
Qed.

(** X13. The deterministic summary is one line: it has no whitespace at
    either end and no line feed, and single spaces are its only
    whitespace. The line breaks the source puts between its blocks and
    after its bullets do not reach the result. *)
Theorem extractiveSummary_single_line :
  forall text,
    single_spaced (extractiveSummary text) = true
    /\ forallb (fun c => negb (eqc c nl)) (extractiveSummary text) = true
    /\ trim (extractiveSummary text) = extractiveSummary text.
Proof.
  intros text.
  assert (Hss : single_spaced (extractiveSummary text) = true).
  { unfold extractiveSummary, createStructuredSummary, strip_ends.
    match goal with
    | |- context [collapse_ws ?x] => set (body := x)
    end.
    rewrite squeeze_blank_lines_no_nl by apply collapse_from_no_nl.
    apply (single_spaced_trim (squeeze_dots (collapse_ws body))).
    unfold single_spaced, squeeze_dots, collapse_ws.
    apply (squeeze_dots_single_spaced _ 0 false). apply collapse_single_spaced. }
  split; [exact Hss|].
  split; [exact (single_spaced_no_nl _ _ Hss) | apply trim_extractiveSummary].
Qed.

(** ** The word-frequency table *)

Lemma eqs_sym : forall a b, eqs a b = eqs b a.
Proof.
  intros a b. destruct (eqs a b) eqn:Hab; destruct (eqs b a) eqn:Hba; try reflexivity.
  - apply eqs_eq in Hab. subst b. rewrite eqs_refl in Hba. discriminate.
  - apply eqs_eq in Hba. subst b. rewrite eqs_refl in Hab. discriminate.
Qed.

Lemma first_count_some : forall k c, first_count k = Some c -> k <> proto_key.
Proof.
  unfold first_count. intros k c H ->. rewrite eqs_refl in H. discriminate.
Qed.

Lemma first_count_plain :
  forall k,
    k <> proto_key -> arr_includes inherited_functions k = false ->
    first_count k = Some (Num 1).
Proof.
  unfold first_count. intros k Hk Hf.
  destruct (eqs k proto_key) eqn:E; [apply eqs_eq in E; contradiction|].
  rewrite Hf. reflexivity.
Qed.

Lemma bump_keys :
  forall k m x,
    In x (map fst (bump k m)) -> (x = k /\ k <> proto_key) \/ In x (map fst m).
Proof.
  intros k. induction m as [|[k0 c] m IH]; intros x; cbn [bump].
  - destruct (first_count k) as [c|] eqn:E; cbn [map fst In]; [|intros []].
    intros [<- | []]. left. split; [reflexivity | exact (first_count_some E)].
  - destruct (eqs k0 k) eqn:H0; cbn [map fst In].
    + intros H. right. exact H.
    + intros [<- | H]; [right; left; reflexivity|].
      destruct (IH x H) as [Hk | Hin]; [left; exact Hk | right; right; exact Hin].
Qed.

Lemma bump_NoDup :
  forall k m, NoDup (map fst m) -> NoDup (map fst (bump k m)).
Proof.
  intros k. induction m as [|[k0 c] m IH]; intros Hnd; cbn [bump].
  - destruct (first_count k); cbn [map fst]; [|constructor].
    constructor; [intros [] | constructor].
  - inversion Hnd as [|? ? Hnotin Hrest]; subst.
    destruct (eqs k0 k) eqn:H0; cbn [map fst].
    + constructor; assumption.
    + constructor; [|apply IH; exact Hrest].
      intros Hin. apply bump_keys in Hin as [[-> _] | Hin]; [|contradiction].
      rewrite eqs_refl in H0. discriminate.
Qed.

Lemma bump_no_proto :
  forall k m, ~ In proto_key (map fst m) -> ~ In proto_key (map fst (bump k m)).
Proof.
  intros k m Hm Hin. apply bump_keys in Hin as [[-> Hk] | Hin]; [|contradiction].
  apply Hk. reflexivity.
Qed.

(** The word [__proto__] leaves the table as it is. *)
Lemma bump_proto :
  forall m, ~ In proto_key (map fst m) -> bump proto_key m = m.
Proof.
  induction m as [|[k0 c] m IH]; intros Hm; cbn [bump].
  - unfold first_count. rewrite eqs_refl. reflexivity.
  - cbn [map fst In] in Hm. destruct (eqs k0 proto_key) eqn:H0.
    + apply eqs_eq in H0. exfalso. apply Hm. left. exact H0.
    + rewrite IH; [reflexivity|]. intros H. apply Hm. right. exact H.
Qed.

Lemma bump_positive :
  forall k m,
    arr_includes inherited_functions k = false ->
    positive m -> positive (bump k m).
Proof.
  intros k m Hk. unfold positive. induction m as [|[k0 c] m IH]; intros Hpos e; cbn [bump].
  - unfold first_count. rewrite Hk. destruct (eqs k proto_key); [intros []|].
    intros [<- | []]. exists 1. split; [reflexivity | lia].
  - destruct (eqs k0 k); cbn [In].
    + intros [<- | Hin]; [|apply Hpos; right; exact Hin].
      destruct (Hpos (k0, c) (or_introl eq_refl)) as (n & Hn & _). cbn [snd] in Hn. subst c.
      exists (S n). split; [reflexivity | lia].
    + intros [<- | Hin]; [apply (Hpos (k0, c)); left; reflexivity|].
      apply IH; [|exact Hin]. intros e' He'. apply Hpos. right. exact He'.
Qed.

Lemma frequency_bump :
  forall k k' m,
    k' <> proto_key -> arr_includes inherited_functions k' = false ->
    positive m ->
    frequency k (bump k' m) = frequency k m + (if eqs k' k then 1 else 0).
Proof.
  intros k k' m Hproto Hplain. induction m as [|[k0 c] m IH]; intros Hpos; cbn [bump frequency].
  - rewrite (first_count_plain Hproto Hplain). cbn [frequency number_of].
    destruct (eqs k' k); reflexivity.
  - destruct (Hpos (k0, c) (or_introl eq_refl)) as (n & Hn & _). cbn [snd] in Hn. subst c.
    destruct (eqs k0 k') eqn:H0; cbn [frequency plus_one number_of].
    + apply eqs_eq in H0. subst k0. destruct (eqs k' k); cbn [number_of]; lia.
    + destruct (eqs k0 k) eqn:H1.
      * apply eqs_eq in H1. subst k0. rewrite eqs_sym, H0. lia.
      * apply IH. intros e He. apply Hpos. right. exact He.
Qed.

Lemma occurrences_cons :
  forall keep word words k,
    occurrences keep (word :: words) k
    = (if keep (strip_non_word word) && eqs (strip_non_word word) k then 1 else 0)
      + occurrences keep words k.
Proof.
  intros keep word words k. unfold occurrences. cbn [filter].
  destruct (keep (strip_non_word word) && eqs (strip_non_word word) k); reflexivity.
Qed.

(** The keys of the table, whatever the words are: each is a counted
    word other than [__proto__], and none is listed twice. *)
Lemma count_words_keys :
  forall (keep : jsstring -> bool) (words : list jsstring) (m0 : WordFreq),
    NoDup (map fst m0) ->
    let m := fold_left
               (fun wordFreq word =>
                  let cleanWord := strip_non_word word in
                  if keep cleanWord then bump cleanWord wordFreq else wordFreq)
               words m0 in
    NoDup (map fst m)
    /\ forall x, In x (map fst m) ->
         In x (map fst m0) \/ (0 < occurrences keep words x /\ x <> proto_key).
Proof.
  intros keep. induction words as [|word words IH]; intros m0 Hnd.
  - cbn. split; [exact Hnd | intros x Hx; left; exact Hx].
  - cbn [fold_left]. cbn zeta.
    destruct (keep (strip_non_word word)) eqn:Hkeep.
    + destruct (IH (bump (strip_non_word word) m0)
                  (@bump_NoDup (strip_non_word word) m0 Hnd)) as (H1 & H2).
      cbn zeta in *. split; [exact H1|].
      intros x Hx. rewrite occurrences_cons, Hkeep. cbn [andb].
      destruct (H2 x Hx) as [Hin | [Hocc Hp]]; [|right; split; [lia | exact Hp]].
      apply bump_keys in Hin as [[-> Hp] | Hin]; [|left; exact Hin].
      right. rewrite eqs_refl. split; [lia | exact Hp].
    + destruct (IH m0 Hnd) as (H1 & H2).
      cbn zeta in *. split; [exact H1|].
      intros x Hx. rewrite occurrences_cons, Hkeep. cbn [andb].
      destruct (H2 x Hx) as [Hin | [Hocc Hp]]; [left; exact Hin | right; split; [lia | exact Hp]].
Qed.

(** The counts of the table, when no word names an inherited function:
    each is the number of occurrences of its word. *)
Lemma count_words_from :
  forall (keep : jsstring -> bool) (words : list jsstring) (m0 : WordFreq),
    (forall word, In word words ->
       arr_includes inherited_functions (strip_non_word word) = false) ->
    positive m0 ->
    ~ In proto_key (map fst m0) ->
    let m := fold_left
               (fun wordFreq word =>
                  let cleanWord := strip_non_word word in
                  if keep cleanWord then bump cleanWord wordFreq else wordFreq)
               words m0 in
    positive m
    /\ ~ In proto_key (map fst m)
    /\ forall k, k <> proto_key ->
         frequency k m = frequency k m0 + occurrences keep words k.
Proof.
  intros keep. induction words as [|word words IH]; intros m0 Hplain Hpos Hproto.
  - cbn. repeat split; auto.
  - cbn [fold_left]. cbn zeta.
    assert (Hrest : forall word', In word' words ->
              arr_includes inherited_functions (strip_non_word word') = false)
      by (intros word' H; apply Hplain; right; exact H).
    pose proof (Hplain word (or_introl eq_refl)) as Hword.
    destruct (keep (strip_non_word word)) eqn:Hkeep.
    + destruct (IH (bump (strip_non_word word) m0) Hrest
                  (@bump_positive (strip_non_word word) m0 Hword Hpos)
                  (@bump_no_proto (strip_non_word word) m0 Hproto)) as (H1 & H2 & H3).
      cbn zeta in *. repeat split; try assumption.
      intros k Hk. rewrite (H3 k Hk), occurrences_cons, Hkeep. cbn [andb].
      destruct (eqs (strip_non_word word) proto_key) eqn:Hp.
      * apply eqs_eq in Hp. rewrite Hp, (@bump_proto m0 Hproto).
        destruct (eqs proto_key k) eqn:E; [|lia].
        apply eqs_eq in E. exfalso. apply Hk. symmetry. exact E.
      * rewrite frequency_bump; [lia | | exact Hword | exact Hpos].
        intros E. rewrite E, eqs_refl in Hp. discriminate.
    + destruct (IH m0 Hrest Hpos Hproto) as (H1 & H2 & H3).
      cbn zeta in *. repeat split; try assumption.
      intros k Hk. rewrite (H3 k Hk), occurrences_cons, Hkeep. cbn [andb]. lia.
Qed.

Lemma frequency_of_entry :
  forall (m : WordFreq) k c,
    NoDup (map fst m) -> In (k, c) m -> frequency k m = number_of c.
Proof.
  induction m as [|[k0 c0] m IH]; intros k c Hnd Hin; [contradiction|].
  inversion Hnd as [|? ? Hnotin Hrest]; subst. cbn [frequency].
  destruct Hin as [Heq | Hin].
  - injection Heq as -> ->. rewrite eqs_refl. reflexivity.
  - destruct (eqs k0 k) eqn:H0.
    + apply eqs_eq in H0. subst k0. exfalso. apply Hnotin.
      apply in_map_iff. exists (k, c). split; [reflexivity | exact Hin].
    + exact (IH k c Hrest Hin).
Qed.

Lemma entry_of_frequency :
  forall (m : WordFreq) k,
    0 < frequency k m -> exists c, In (k, c) m /\ number_of c = frequency k m.
Proof.
  induction m as [|[k0 c0] m IH]; intros k; cbn [frequency]; [lia|].
  destruct (eqs k0 k) eqn:H0.
  - apply eqs_eq in H0. subst k0. intros _. exists c0. split; [left|]; reflexivity.
  - intros H. destruct (IH k H) as (c & Hin & Hc). exists c. split; [right; exact Hin | exact Hc].
Qed.

Lemma insert_index_perm :
  forall e l, Permutation (insert_index e l) (e :: l).
Proof.
  intros e. induction l as [|x l IH]; cbn [insert_index]; [reflexivity|].
  destruct (fst e <=? fst x)%N; [reflexivity|].
  rewrite IH. apply perm_swap.
Qed.

Lemma entries_perm : forall m, Permutation (entries m) m.
Proof.
  unfold entries, index_entries.
  induction m as [|e m IH]; cbn [fold_right filter]; [reflexivity|].
  destruct (array_index (fst e)) as [i|].
  - rewrite (Permutation_map snd (insert_index_perm (i, e) _)).
    cbn [map snd app]. apply perm_skip. exact IH.
  - rewrite <- Permutation_middle. apply perm_skip. exact IH.
Qed.

Lemma insert_desc_perm :
  forall e l, Permutation (insert_desc e l) (e :: l).
Proof.
  intros e. induction l as [|x l IH]; cbn [insert_desc]; [reflexivity|].
  destruct (0 <? compare_desc e x)%Z; [|reflexivity].
  rewrite IH. apply perm_swap.
Qed.

Lemma sort_desc_perm : forall l, Permutation (sort_desc l) l.
Proof.
  unfold sort_desc. induction l as [|e l IH]; cbn [fold_right]; [reflexivity|].
  rewrite insert_desc_perm. apply perm_skip. exact IH.
Qed.

Lemma insert_desc_sorted :
  forall e l,
    is_number e -> Forall is_number l ->
    StronglySorted descending l -> StronglySorted descending (insert_desc e l).
Proof.
  intros e l [n Hn]. induction l as [|x l IH]; intros Hnum Hs; cbn [insert_desc].
  - repeat constructor.
  - inversion Hs as [|? ? Hl Hx]; subst. inversion Hnum as [|? ? [nx Hnx] Hnum']; subst.
    unfold compare_desc. rewrite Hn, Hnx.
    destruct (0 <? Z.of_nat nx - Z.of_nat n)%Z eqn:Hlt.
    + apply Z.ltb_lt in Hlt. constructor; [apply IH; assumption|].
      apply (Permutation_Forall (Permutation_sym (insert_desc_perm e l))).
      constructor; [|exact Hx]. unfold descending. rewrite Hn, Hnx. cbn [number_of]. lia.
    + apply Z.ltb_ge in Hlt. constructor; [exact Hs|].
      constructor; [unfold descending; rewrite Hn, Hnx; cbn [number_of]; lia|].
      eapply Forall_impl; [|exact Hx]. unfold descending. rewrite Hn, Hnx. cbn [number_of].
      intros y Hy. lia.
Qed.

Lemma sort_desc_sorted :
  forall l, Forall is_number l -> StronglySorted descending (sort_desc l).
Proof.
  unfold sort_desc. induction l as [|e l IH]; intros Hnum; cbn [fold_right].
  - constructor.
  - inversion Hnum as [|? ? He Hl]; subst.
    apply insert_desc_sorted; [exact He | | apply IH; exact Hl].
    apply (Permutation_Forall (Permutation_sym (sort_desc_perm l))). exact Hl.
Qed.

Lemma sorted_app :
  forall (A : Type) (R : A -> A -> Prop) (a b : list A),
    StronglySorted R (a ++ b) -> forall x y, In x a -> In y b -> R x y.
Proof.
  intros A R. induction a as [|h a IH]; intros b Hs x y Hx Hy; [contradiction|].
  cbn [app] in Hs. inversion Hs as [|? ? Hrest Hh]; subst.
  destruct Hx as [<- | Hx].
  - apply (proj1 (Forall_forall _ _) Hh). apply in_or_app. right. exact Hy.
  - exact (IH b Hrest x y Hx Hy).
Qed.

Lemma NoDup_firstn :
  forall (A : Type) (n : nat) (l : list A), NoDup l -> NoDup (firstn n l).
Proof.
  intros A n l Hnd. rewrite <- (firstn_skipn n l) in Hnd.
  exact (NoDup_app_remove_r _ _ Hnd).
Qed.

Lemma slice_firstn :
  forall (A : Type) (n : nat) (l : list A), slice 0 n l = firstn n l.
Proof. intros A n l. unfold slice. rewrite Nat.sub_0_r. reflexivity. Qed.

Lemma occurrences_witness :
  forall keep words k,
    0 < occurrences keep words k ->
    exists word, In word words /\ strip_non_word word = k /\ keep k = true.
Proof.
  intros keep words k. induction words as [|word words IH].
  - cbn. lia.
  - rewrite occurrences_cons.
    destruct (keep (strip_non_word word) && eqs (strip_non_word word) k) eqn:Hhit.
    + intros _. apply andb_true_iff in Hhit as [Hkeep Heq]. apply eqs_eq in Heq.
      exists word. subst k. repeat split; [left; reflexivity | exact Hkeep].
    + intros H. destruct (IH H) as (w & Hin & Hw). exists w. split; [right; exact Hin | exact Hw].
Qed.

(** The words [top_words] picks are at most [n] different words of the
    table, each counted at least once and none of them [__proto__]. *)
Lemma top_words_keys :
  forall keep words n,
    let top := top_words n (count_words keep words) in
    NoDup top
    /\ length top <= n
    /\ (forall k, In k top -> 0 < occurrences keep words k /\ k <> proto_key).
Proof.
  intros keep words n. cbn zeta. unfold top_words.
  destruct (@count_words_keys keep words [] (NoDup_nil _)) as (Hnd & Hkeys).
  cbn zeta in Hnd, Hkeys. fold (count_words keep words) in Hnd, Hkeys.
  set (m := count_words keep words) in *.
  rewrite slice_firstn.
  set (sorted := sort_desc (entries m)).
  assert (Hperm : Permutation sorted m).
  { unfold sorted. rewrite sort_desc_perm. apply entries_perm. }
  split; [|split].
  - rewrite <- firstn_map. apply NoDup_firstn.
    apply (Permutation_NoDup (Permutation_map fst (Permutation_sym Hperm))). exact Hnd.
  - rewrite length_map. apply firstn_le_length.
  - intros k Hk. rewrite <- firstn_map in Hk.
    assert (Hin : In k (map fst m)).
    { apply (Permutation_in _ (Permutation_map fst Hperm)).
      rewrite <- (firstn_skipn n (map fst sorted)). apply in_or_app. left. exact Hk. }
    destruct (Hkeys k Hin) as [[] | H]. exact H.
Qed.

(** When no word names an inherited function, no word left out by
    [top_words] outnumbers a word it picks, [__proto__] apart, which is
    never in the table. *)
Lemma top_words_ranked :
  forall keep words n,
    (forall word, In word words ->
       arr_includes inherited_functions (strip_non_word word) = false) ->
    let top := top_words n (count_words keep words) in
    forall k k', In k top -> ~ In k' top -> k' <> proto_key ->
      occurrences keep words k' <= occurrences keep words k.
Proof.
  intros keep words n Hplain. cbn zeta.
  destruct (@top_words_keys keep words n) as (_ & _ & Hcounted).
  cbn zeta in Hcounted. revert Hcounted. unfold top_words.
  destruct (@count_words_keys keep words [] (NoDup_nil _)) as (Hnd & _).
  destruct (@count_words_from keep words [] Hplain
              (fun e H => match H with end) (fun H => H)) as (Hpos & Hproto & Hfreq).
  cbn zeta in Hnd, Hpos, Hproto, Hfreq.
  fold (count_words keep words) in Hnd, Hpos, Hproto, Hfreq.
  set (m := count_words keep words) in *.
  rewrite slice_firstn.
  set (sorted := sort_desc (entries m)).
  intros Hcounted.
  assert (Hperm : Permutation sorted m).
  { unfold sorted. rewrite sort_desc_perm. apply entries_perm. }
  assert (Hnum : Forall is_number (entries m)).
  { apply Forall_forall. intros e He.
    apply (Permutation_in _ (entries_perm m)) in He.
    destruct (Hpos e He) as (c & Hc & _). exists c. exact Hc. }
  assert (Hsorted : StronglySorted descending sorted)
    by (apply sort_desc_sorted; exact Hnum).
  intros k k' Hk Hk' Hp'.
  destruct (Nat.eq_dec (occurrences keep words k') 0) as [H0 | H0]; [lia|].
  destruct (Hcounted k Hk) as [_ Hp].
  apply in_map_iff in Hk as ([k0 c] & Hfst & Hin). cbn in Hfst. subst k0.
  assert (Hm : In (k, c) m).
  { apply (Permutation_in _ Hperm). rewrite <- (firstn_skipn n sorted).
    apply in_or_app. left. exact Hin. }
  pose proof (@frequency_of_entry m k c Hnd Hm) as Hc.
  rewrite (Hfreq k Hp) in Hc. cbn [frequency Nat.add] in Hc.
  destruct (@entry_of_frequency m k') as (c' & Hm' & Hc').
  { rewrite (Hfreq k' Hp'). cbn [frequency]. lia. }
  rewrite (Hfreq k' Hp') in Hc'. cbn [frequency Nat.add] in Hc'.
  apply (Permutation_in _ (Permutation_sym Hperm)) in Hm'.
  rewrite <- (firstn_skipn n sorted) in Hm'.
  apply in_app_or in Hm' as [Hfirst | Hrest].
  - exfalso. apply Hk'. apply in_map_iff.
    exists (k', c'). split; [reflexivity | exact Hfirst].
  - rewrite <- (firstn_skipn n sorted) in Hsorted.
    pose proof (@sorted_app _ _ _ _ Hsorted _ _ Hin Hrest) as Hle.
    unfold descending in Hle. cbn [snd] in Hle. lia.
Qed.

Lemma forallb_filter :
  forall (A : Type) (f : A -> bool) (l : list A), forallb f (filter f l) = true.
Proof.
  intros A f. induction l as [|x l IH]; cbn [filter]; [reflexivity|].
  destruct (f x) eqn:Hx; [cbn [forallb]; rewrite Hx; exact IH | exact IH].
Qed.

(** X14. What [extractKeyInformation] selects. The key terms are at
    most 15 different words, each of more than five word characters,
    none a stop word, each counted at least once among the lower-cased
    words of the text; the word [__proto__] is never among them, however
    often the text has it, because the table never stores it. When no
    word of the text names a function every object inherits
    ([constructor] and the like, whose count the table holds as a
    string), no word left out, [__proto__] apart, is counted more often
    than a word chosen: the key terms are the most frequent ones. The
    important sentences are at most ten sentences of the text, each
    holding one of the key terms when lower-cased; the introduction is
    the first fifth of the sentences; at most five paragraphs are
    kept. *)
Theorem extractKeyInformation_spec :
  forall text,
    let ex := extractKeyInformation text in
    let words := split_ws (toLowerCase text) in
    let count :=
      occurrences
        (fun cleanWord => (5 <? length cleanWord)
                          && negb (arr_includes stopwords cleanWord))
        words in
    NoDup (keyTerms ex)
    /\ length (keyTerms ex) <= 15
    /\ (forall k, In k (keyTerms ex) ->
          5 < length k
          /\ forallb is_word_char k = true
          /\ arr_includes stopwords k = false
          /\ 0 < count k
          /\ k <> proto_key)
    /\ ((forall word, In word words ->
           arr_includes inherited_functions (strip_non_word word) = false) ->
        forall k k', In k (keyTerms ex) -> ~ In k' (keyTerms ex) -> k' <> proto_key ->
          count k' <= count k)
    /\ length (importantSentences ex) <= 10
    /\ (forall s, In s (importantSentences ex) ->
          In s (sentences_of text)
          /\ exists term, In term (keyTerms ex)
                          /\ includes (toLowerCase s) term = true)
    /\ introSection ex = firstn (length (sentences_of text) / 5) (sentences_of text)
    /\ length (paragraphs ex) <= 5.
Proof.
  intros text. cbn zeta. unfold extractKeyInformation.
  cbn [importantSentences keyTerms introSection paragraphs].
  match goal with
  | |- context [count_words ?keep ?words] =>
      destruct (@top_words_keys keep words 15) as (Hnd & Hlen & Hpos);
      pose proof (@top_words_ranked keep words 15) as Hmax
  end.
  cbn zeta in *.
  split; [exact Hnd|]. split; [exact Hlen|].
  split.
  { intros k Hk. destruct (Hpos k Hk) as [Hocc Hproto].
    destruct (occurrences_witness _ _ _ Hocc) as (word & _ & Hword & Hkeep).
    apply andb_true_iff in Hkeep as [Hlong Hstop].
    apply Nat.ltb_lt in Hlong. apply negb_true_iff in Hstop.
    repeat split; try assumption.
    rewrite <- Hword. apply forallb_filter. }
  split; [exact Hmax|].
  split; [rewrite slice_length; lia|].
  split.
  { intros s Hs. apply In_slice in Hs. apply filter_In in Hs as [Hin Hterm].
    split; [exact Hin|]. apply existsb_exists in Hterm. exact Hterm. }
  split; [apply slice_firstn|].
  rewrite slice_length; lia.
Qed.

(** ** Text extraction and the upload handler *)

Lemma starts_with_app :
  forall p a b, starts_with p a = true -> starts_with p (a ++ b) = true.
Proof.
  induction p as [|x p IH]; intros a b; [reflexivity|].
  destruct a as [|y a]; cbn [starts_with app]; [discriminate|].
  intros H. apply andb_true_iff in H as [Hx Hp]. rewrite Hx, (IH a b Hp). reflexivity.
Qed.

Lemma includes_app_l :
  forall a b p, includes a p = true -> includes (a ++ b) p = true.
Proof.
  induction a as [|c a IH]; intros b p; cbn [includes].
  - rewrite orb_false_r. destruct p; [|discriminate].
    intros _. destruct b; reflexivity.
  - intros H. cbn [app includes]. apply orb_true_iff in H as [H | H].
    + pose proof (starts_with_app _ _ b H) as H'. cbn [app] in H'.
      rewrite H'. reflexivity.
    + rewrite (IH b p H). apply orb_true_r.
Qed.

Lemma upload_failure_pdf :
  forall e,
    includes (message e) (str "PDF") = true ->
    upload_failure e = {| statusCode := 400; replyMessage := message e |}.
Proof.
  intros e H. unfold upload_failure.
  destruct (message e) as [|c m]; [discriminate H|].
  cbn zeta. rewrite H, orb_true_r. reflexivity.
Qed.

Lemma extractTextFromPDF_outcome_aux :
  forall (pdfParse : Buffer -> outcome jsstring) (buffer : option Buffer),
    match extractTextFromPDF pdfParse buffer with
    | Ok text => is_blank text = false
    | Throw e => includes (message e) (str "PDF") = true
    end.
Proof.
  intros pdfParse buffer. unfold extractTextFromPDF.
  destruct buffer as [[|b bytes]|]; [reflexivity| |reflexivity].
  destruct (MAX_PDF_SIZE <? N.of_nat (length (b :: bytes)))%N; [vm_compute; reflexivity|].
  destruct (pdfParse (b :: bytes)) as [text|err].
  - destruct (is_blank text) eqn:Hblank; [vm_compute; reflexivity | exact Hblank].
  - destruct (includes (message err) (str "Invalid PDF"));
      [|destruct (includes (message err) (str "password"))];
      [vm_compute; reflexivity | vm_compute; reflexivity |].
    apply includes_app_l. vm_compute. reflexivity.
Qed.

(** X15. [extractTextFromPDF] returns only a text that is not blank,
    for a buffer that is not empty and not above the size limit; every
    error it throws has the word PDF in its message, so that the upload
    handler answers it with status 400; and a PDF whose text is blank is
    reported under the general message, because the error thrown for it
    is caught and wrapped by the function's own handler. *)
Theorem extractTextFromPDF_outcome :
  forall (pdfParse : Buffer -> outcome jsstring) (buffer : option Buffer),
    match extractTextFromPDF pdfParse buffer with
    | Ok text =>
        is_blank text = false
        /\ exists bytes,
             buffer = Some bytes /\ bytes <> []
             /\ (N.of_nat (length bytes) <= MAX_PDF_SIZE)%N
             /\ pdfParse bytes = Ok text
    | Throw e =>
        includes (message e) (str "PDF") = true
        /\ upload_failure e = {| statusCode := 400; replyMessage := message e |}
        /\ (forall bytes text,
              buffer = Some bytes -> pdfParse bytes = Ok text ->
              (N.of_nat (length bytes) <= MAX_PDF_SIZE)%N -> bytes <> [] ->
              message e
              = str "Failed to extract text from PDF: PDF contains no extractable text. The PDF may be image-based or corrupted.")
    end.
Proof.
  intros pdfParse buffer.
  assert (Hthrow : forall e (P : Prop),
            includes (message e) (str "PDF") = true -> P ->
            includes (message e) (str "PDF") = true
            /\ upload_failure e = {| statusCode := 400; replyMessage := message e |}
            /\ P).
  { intros e P H HP. split; [exact H|]. split; [apply upload_failure_pdf; exact H | exact HP]. }
  unfold extractTextFromPDF.
  destruct buffer as [[|b bytes]|].
  - apply Hthrow; [reflexivity|]. intros bytes text Hb _ _ Hne. congruence.
  - destruct (MAX_PDF_SIZE <? N.of_nat (length (b :: bytes)))%N eqn:Hsize.
    + apply Hthrow; [vm_compute; reflexivity|].
      intros bytes' text Hb _ Hle _. injection Hb as <-.
      apply N.ltb_lt in Hsize. lia.
    + destruct (pdfParse (b :: bytes)) as [text|err] eqn:Hparse.
      * destruct (is_blank text) eqn:Hblank.
        -- cbn [message new_Error].
           apply Hthrow; [vm_compute; reflexivity|].
           intros bytes' text' _ _ _ _. vm_compute. reflexivity.
        -- split; [exact Hblank|]. exists (b :: bytes).
           apply N.ltb_ge in Hsize. repeat split; [discriminate | exact Hsize | exact Hparse].
      * destruct (includes (message err) (str "Invalid PDF"));
          [|destruct (includes (message err) (str "password"))].
        -- apply Hthrow; [vm_compute; reflexivity|].
           intros bytes' text Hb Hp _ _. injection Hb as <-. congruence.
        -- apply Hthrow; [vm_compute; reflexivity|].
           intros bytes' text Hb Hp _ _. injection Hb as <-. congruence.
        -- apply Hthrow; [apply includes_app_l; vm_compute; reflexivity|].
           intros bytes' text Hb Hp _ _. injection Hb as <-. congruence.
  - apply Hthrow; [reflexivity|]. intros bytes text Hb. discriminate Hb.
Qed.

Lemma processDocument_of_cleaned :
  forall raw text w,
    cleanText raw = Ok text -> exists r w', processDocument text w = (Ok r, w').
Proof.
  intros raw text w Hclean.
  destruct (cleanText_head raw Hclean) as [Hlen Hhead].
  assert (Hne : text <> []) by (intros ->; cbn in Hlen; lia).
  destruct (prefix_not_blank Hne Hhead) as [Hblank Hprefix].
  destruct (summaryStage_result text w Hblank)
    as [(s & w1 & Hstage & Hs & Hsvc) | [Habs _]]; [|congruence].
  destruct (processDocument_after_summary text w Hblank Hstage)
    as (l & w2 & _ & Hrun & _).
  eauto.
Qed.

Lemma cleanText_errors :
  forall raw e,
    raw <> [] -> cleanText raw = Throw e -> includes (message e) (str "PDF") = true.
Proof.
  intros [|c raw] e Hne; [contradiction|]. unfold cleanText.
  match goal with
  | |- context [if ?b then _ else _] => destruct b
  end; [|discriminate].
  intros H. injection H as <-. vm_compute. reflexivity.
Qed.

(** X16. What [uploadPDF] answers: 400 with the error's message when the
    text cannot be extracted or is too short; otherwise [processDocument]
    returns a result for the cleaned text, whatever the inference
    service does, and the answer is 201 when the session is saved and
    follows the error of [save] when it is not. No failure of the
    inference service reaches the client: with a store that saves every
    session the status is 201 or 400. *)
Theorem uploadPDF_status :
  forall (pdfParse : Buffer -> outcome jsstring)
         (save : ProcessingResult -> M World unit)
         (buffer : option Buffer) (w : World),
    match extractTextFromPDF pdfParse buffer with
    | Throw e =>
        uploadPDF pdfParse save buffer w
        = ({| statusCode := 400; replyMessage := message e |}, w)
    | Ok rawText =>
        match cleanText rawText with
        | Throw e =>
            uploadPDF pdfParse save buffer w
            = ({| statusCode := 400; replyMessage := message e |}, w)
        | Ok cleanedText =>
            exists r w1,
              processDocument cleanedText w = (Ok r, w1)
              /\ uploadPDF pdfParse save buffer w
                 = match save r w1 with
                   | (Ok _, w2) =>
                       ({| statusCode := 201;
                           replyMessage := str "PDF processed successfully" |}, w2)
                   | (Throw e, w2) => (upload_failure e, w2)
                   end
        end
    end
    /\ ((forall r w1, exists w2, save r w1 = (Ok tt, w2)) ->
        statusCode (fst (uploadPDF pdfParse save buffer w)) = 201
        \/ statusCode (fst (uploadPDF pdfParse save buffer w)) = 400).
Proof.
  intros pdfParse save buffer w.
  pose proof (extractTextFromPDF_outcome_aux pdfParse buffer) as Hextract.
  unfold uploadPDF, upload_steps, bind, lift.
  destruct (extractTextFromPDF pdfParse buffer) as [rawText|e].
  - rename Hextract into Hblank.
    destruct (cleanText rawText) as [cleanedText|e] eqn:Hclean.
    + destruct (processDocument_of_cleaned rawText w Hclean) as (r & w1 & Hrun).
      rewrite Hrun. split.
      * exists r, w1. split; [reflexivity|].
        destruct (save r w1) as [[u|e] w2]; reflexivity.
      * intros Hsave. destruct (Hsave r w1) as (w2 & Hw2). rewrite Hw2. left. reflexivity.
    + assert (Hne : rawText <> []) by (intros ->; discriminate Hblank).
      rewrite (upload_failure_pdf e (cleanText_errors Hne Hclean)).
      split; [reflexivity | intros _; right; reflexivity].
  - rewrite (upload_failure_pdf e Hextract).
    split; [reflexivity | intros _; right; reflexivity].
Qed.

(** ** Edge cases of [chunkText] *)

(** X17. [chunkText] throws [Text is empty] for a blank text whatever
    the chunk size. For a text that is not blank and a chunk size of 0
    it throws [RangeError: Invalid array length]: the loop never
    advances and pushes chunks until the array cannot grow, whatever
    the number of elements an array can hold. With a positive chunk
    size that number makes no difference once the array can hold one
    chunk per word. *)
Theorem chunkText_edge_cases :
  forall text,
    (is_blank text = true ->
     forall wordsPerChunk,
       chunkText text wordsPerChunk = Throw (new_Error (str "Text is empty")))
    /\ (is_blank text = false ->
        chunkText text 0 = Throw (RangeError "Invalid array length")
        /\ (forall room chunks,
              chunk_loop room (split_ws text) 0 0 chunks
              = Throw (RangeError "Invalid array length"))
        /\ (forall wordsPerChunk room,
              0 < wordsPerChunk ->
              wordCount text <= room ->
              chunk_loop room (split_ws text) wordsPerChunk 0 []
              = chunk_loop (wordCount text) (split_ws text) wordsPerChunk 0 [])).
Proof.
  intros text. split.
  - intros Hblank wpc. unfold chunkText. rewrite Hblank. reflexivity.
  - intros Hblank.
    assert (Hpos : 0 < length (split_ws text)) by apply split_runs_length_pos.
    split; [apply chunkText_zero_step; exact Hblank|].
    split.
    + intros room chunks. apply chunk_loop_zero_step. exact Hpos.
    + intros wpc room Hwpc Hroom. unfold wordCount in *.
      rewrite !chunk_loop_spec by lia. reflexivity.
Qed.

(** ** The summaries of [summarizeText] *)

Lemma cleaned_summary_single_spaced :
  forall s, single_spaced (squeeze_dots (collapse_ws (trim s))) = true.
Proof.
  intros s. unfold single_spaced, squeeze_dots, collapse_ws.
  apply (squeeze_dots_single_spaced _ 0 false). apply collapse_single_spaced.
Qed.

Lemma extractiveSummary_single_spaced :
  forall text, single_spaced (extractiveSummary text) = true.
Proof.
  intros text. unfold extractiveSummary, createStructuredSummary, strip_ends.
  match goal with
  | |- context [collapse_ws ?x] => set (body := x)
  end.
  rewrite squeeze_blank_lines_no_nl by apply collapse_from_no_nl.
  apply (single_spaced_trim (squeeze_dots (collapse_ws body))).
  unfold single_spaced, squeeze_dots, collapse_ws.
  apply (squeeze_dots_single_spaced _ 0 false). apply collapse_single_spaced.
Qed.

Lemma summarize_with_model_single_spaced :
  forall text w s w',
    summarize_with_model text w = (Ok (Some s), w') -> single_spaced s = true.
Proof.
  intros text w s w'. unfold summarize_with_model, bind, lift, ret, throw.
  destruct (callHuggingFace w) as [[result|e] w1]; [|discriminate].
  destruct (pick_summary result) as [picked|e]; [|discriminate].
  destruct (truthy picked); [|discriminate].
  destruct picked as [| |b|z|s0|items|fields]; try discriminate.
  destruct (50 <? length (trim s0)); [|discriminate].
  destruct ((10 <? length (split_each is_terminal (squeeze_dots (collapse_ws (trim s0)))))
            && (length (squeeze_dots (collapse_ws (trim s0))) <? 200)).
  - destruct (length (squeeze_dots (collapse_ws (trim s0))) <? length (extractiveSummary text));
      intros H; injection H as <- _.
    + apply extractiveSummary_single_spaced.
    + apply cleaned_summary_single_spaced.
  - intros H; injection H as <- _. apply cleaned_summary_single_spaced.
Qed.

Lemma summarize_loop_single_spaced :
  forall models rest text w,
    single_spaced (match fst (summarize_loop models rest text w) with
                   | Ok s => s
                   | Throw _ => []
                   end) = true.
Proof.
  intros models rest text. induction rest as [|model rest IH]; intros w.
  - cbn [summarize_loop ret fst]. apply extractiveSummary_single_spaced.
  - cbn [summarize_loop]. unfold bind at 1, try_catch.
    pose proof (summarize_with_model_single_spaced text w) as Hbody.
    destruct (summarize_with_model text w) as [[[s|]|e] w1].
    + cbn [ret fst]. exact (Hbody s w1 eq_refl).
    + apply IH.
    + destruct (eqs model (last_model models)); unfold ret at 1.
      * cbn [ret fst]. apply extractiveSummary_single_spaced.
      * apply IH.
Qed.

(** X18. Every summary [summarizeText] returns, from a model or from the
    fallback, does not start with whitespace and has single spaces as
    its only whitespace: no line feed, no tab, no run of spaces; and
    for a text that is not blank it always returns one. *)
Theorem summarizeText_normalised :
  forall text w,
    is_blank text = false ->
    exists s w',
      summarizeText text w = (Ok s, w')
      /\ single_spaced s = true
      /\ starts_with_class is_space s = false
      /\ forallb (fun c => negb (eqc c nl)) s = true.
Proof.
  intros text w Hblank.
  destruct (summarizeText_result text w Hblank) as (s & w' & Hrun & Hhead & _).
  assert (Hss : single_spaced s = true).
  { unfold summarizeText in Hrun. rewrite Hblank in Hrun.
    destruct (wordCount text <? 500).
    - injection Hrun as <- _. apply extractiveSummary_single_spaced.
    - pose proof (summarize_loop_single_spaced summary_models summary_models text w) as H.
      rewrite Hrun in H. exact H. }
  exists s, w'. split; [exact Hrun|]. split; [exact Hss|].
  split; [exact Hhead | exact (single_spaced_no_nl _ _ Hss)].
Qed.

(** X19. When the first model answers the first request with a summary
    of more than 50 characters after trimming, [summarizeText] sends
    that one request and returns the summary with its whitespace runs
    replaced by single spaces and its doubled full stops by one, unless
    the summary is short and fragmented and the deterministic summary is
    longer, which is then returned in its place. *)
Theorem summarizeText_first_model :
  forall text w st txt s arrival,
    is_blank text = false ->
    500 <= wordCount text ->
    admits w = true ->
    service w (calls w) = (HttpResponse st txt (summary_reply s), arrival) ->
    st < 400 ->
    50 < length (trim s) ->
    let cleanedSummary := squeeze_dots (collapse_ws (trim s)) in
    exists w',
      summarizeText text w
      = (Ok (if (10 <? length (split_each is_terminal cleanedSummary))
                && (length cleanedSummary <? 200)
                && (length cleanedSummary <? length (extractiveSummary text))
             then extractiveSummary text else cleanedSummary), w')
      /\ calls w' = S (calls w).
Proof.
  intros text w st txt s arrival Hblank Hwords Hadm Hsvc Hst Hlen. cbn zeta.
  assert (Hne : s <> []).
  { intros ->. cbn in Hlen. lia. }
  assert (Hnoerr : truthy (get_opt (summary_reply s) "error") = false) by reflexivity.
  destruct (callHuggingFace_success_aux w Hsvc Hst Hnoerr Hadm) as (w' & Hcall & Hcalls).
  exists w'. split; [|exact Hcalls].
  unfold summarizeText. rewrite Hblank.
  replace (wordCount text <? 500) with false by (symmetry; apply Nat.ltb_ge; exact Hwords).
  unfold summary_models. cbn [map summarize_loop].
  unfold bind at 1, try_catch, summarize_with_model, bind at 1. rewrite Hcall.
  assert (Hpick : pick_summary (summary_reply s) = Ok (VStr s)).
  { unfold pick_summary, summary_reply.
    cbn [isArray first_item_opt first_item get_opt get lookup andb].
    replace (eqs (str "summary_text") (str "summary_text")) with true by reflexivity.
    cbn [truthy]. destruct s as [|c s]; [contradiction|]. reflexivity. }
  unfold bind, lift. rewrite Hpick.
  assert (Htruthy : truthy (VStr s) = true).
  { destruct s as [|c s]; [contradiction | reflexivity]. }
  rewrite Htruthy.
  replace (50 <? length (trim s)) with true by (symmetry; apply Nat.ltb_lt; exact Hlen).
  destruct ((10 <? length (split_each is_terminal (squeeze_dots (collapse_ws (trim s)))))
            && (length (squeeze_dots (collapse_ws (trim s))) <? 200)); cbn [andb].
  - unfold ret. reflexivity.
  - unfold ret. reflexivity.
Qed.

(** ** The result of [processDocument] *)

(** X20. For every text that is not blank and whose first 3000
    characters are not blank either, [processDocument] returns a result
    whose summary has no whitespace at either end and whose MCQs are
    between one and five, each with a truthy question, exactly four
    options and a truthy answer. *)
Theorem processDocument_result_shape :
  forall text w,
    is_blank text = false ->
    is_blank (substring 0 3000 text) = false ->
    exists r w',
      processDocument text w = (Ok r, w')
      /\ trim (summary r) = summary r
      /\ 1 <= length (mcqs r) <= 5
      /\ Forall (fun m => mcq_shape m = true) (mcqs r).
Proof.
  intros text w Hblank Hprefix.
  destruct (summaryStage_result text w Hblank)
    as [(s & w1 & Hstage & _) | [Habs _]]; [|congruence].
  destruct (mcq_loop_shape mcq_models text w1) as (l & w2 & Hloop & Hlen & Hshape).
  exists {| summary := trim (applyFloor text s); mcqs := slice 0 5 l |}, w2.
  split.
  { unfold processDocument. rewrite Hblank. unfold bind. rewrite Hstage.
    unfold generateMCQs. rewrite Hblank, Hloop. reflexivity. }
  cbn [summary mcqs]. split; [apply trim_trim|].
  rewrite slice_all by lia. split; [exact Hlen | exact Hshape].
Qed.

(** ** Which failures are retried *)

Lemma invoke_once_retried :
  forall w,
    retried_failure (fst (service w (calls w))) = true ->
    exists e,
      invoke_once w = (Throw e, sent (snd (service w (calls w))) w)
      /\ shouldRetry e = true.
Proof.
  intros w Hfail.
  unfold invoke_once, try_catch, bind, hfAxios_post, throw, ret.
  destruct (service w (calls w)) as [[st txt d|c msg] arrival]; cbn [fst snd] in *.
  - unfold retried_failure, is_failure in Hfail.
    apply andb_true_iff in Hfail as [Hfail Hst].
    unfold validateStatus. destruct (st <? 500) eqn:Hlt;
      cbn [status statusText data response_status code].
    + destruct (st =? 503); [eexists; split; reflexivity|].
      destruct (st =? 429); [eexists; split; reflexivity|].
      destruct (st =? 410); [eexists; split; reflexivity|].
      destruct (400 <=? st); [eexists; split; reflexivity|].
      cbn [orb] in Hfail. rewrite Hfail. eexists; split; reflexivity.
    + cbn [orb] in Hst. eexists. split; [reflexivity|].
      unfold shouldRetry. cbn [response_status]. rewrite Hst. reflexivity.
  - cbn [response_status code]. destruct c as [c|]; [case_if|]; eexists; split; reflexivity.
Qed.

Lemma retry_from_retried :
  forall svc,
    (forall n, retried_failure (fst (svc n)) = true) ->
    forall k w,
      service w = svc ->
      exists e w',
        Retry.retry_from invoke_once (fun error => ret (shouldRetry error)) k w
        = (Throw e, w')
        /\ calls w' = calls w + S k.
Proof.
  intros svc Hall. induction k as [|k IH]; intros w Hsvc.
  - cbn [Retry.retry_from]. unfold try_catch, throw.
    destruct (@invoke_once_retried w) as (e & Honce & _).
    { rewrite Hsvc. apply Hall. }
    rewrite Honce. eexists _, _. split; [reflexivity|]. cbn [sent calls]. lia.
  - cbn [Retry.retry_from]. unfold try_catch at 1.
    destruct (@invoke_once_retried w) as (e & Honce & Hretry).
    { rewrite Hsvc. apply Hall. }
    rewrite Honce. unfold bind at 1, ret at 1. rewrite Hretry. cbn [negb].
    destruct (IH (sent (snd (service w (calls w))) w)) as (e' & w' & Hrun & Hcalls).
    { cbn [sent service]. exact Hsvc. }
    exists e', w'. split; [exact Hrun|]. cbn [sent calls] in Hcalls. lia.
Qed.

(** X21. The retry rule as the code has it: when every reply is a
    failure other than a response with a status from 500 on that is not
    503 (no response at all, a timeout, any status from 400 to 499, a
    503, or a body with a truthy [error] field), an admitted call of
    [callHuggingFace] sends exactly four requests before it throws, and
    the breaker counts one failure for the four. *)
Theorem failures_are_retried :
  forall w,
    admits w = true ->
    (forall n, retried_failure (fst (service w n)) = true) ->
    exists e w',
      callHuggingFace w = (Throw e, w')
      /\ calls w' = calls w + 4
      /\ CircuitBreaker.failureCount (breaker w')
         = S (CircuitBreaker.failureCount (breaker w)).
Proof.
  intros w Hadm Hall.
  destruct (callHuggingFace_admitted w Hadm) as (cb & Hrun & Hcount & _).
  destruct (@retry_from_retried (service w) Hall 3 w eq_refl) as (e & w1 & Hretry & Hcalls).
  rewrite Hretry in Hrun. cbn zeta in Hrun. cbn [fst snd] in Hrun.
  exists e. eexists. split; [exact Hrun|].
  cbn [set_breaker calls breaker]. split; [exact Hcalls|].
  unfold CircuitBreaker.onFailure.
  destruct (CircuitBreaker.failureThreshold cb <=? S (CircuitBreaker.failureCount cb));
    cbn [CircuitBreaker.failureCount]; congruence.
Qed.

End AiService.

(** * The properties on the sample inputs *)

(** ** CircuitBreaker *)

Lemma circuit_breaker_witness :
  CircuitBreaker.state two_strikes = CircuitBreaker.CLOSED
  /\ CircuitBreaker.failureCount two_strikes = 0
  /\ 0 < CircuitBreaker.failureThreshold two_strikes
  /\ CircuitBreaker.state
       (fst (execute_n clock (fun _ => @always_failing Z CircuitBreaker.State down_error tick)
               2 (two_strikes, 0%Z)))
     = CircuitBreaker.OPEN
  /\ CircuitBreaker.execute clock probe
       (fst (execute_n clock (fun _ => @always_failing Z CircuitBreaker.State down_error tick)
               2 (two_strikes, 0%Z)),
        50%Z)
     = (Throw (new_Error CircuitBreaker.open_message),
        (fst (execute_n clock (fun _ => @always_failing Z CircuitBreaker.State down_error tick)
                2 (two_strikes, 0%Z)),
         50%Z))
  /\ fst (CircuitBreaker.execute clock probe
            (fst (execute_n clock
                    (fun _ => @always_failing Z CircuitBreaker.State down_error tick)
                    2 (two_strikes, 0%Z)),
             102%Z))
     = Ok CircuitBreaker.HALF_OPEN.
Proof.
  assert (H1 : CircuitBreaker.state two_strikes = CircuitBreaker.CLOSED) by reflexivity.
  assert (H2 : CircuitBreaker.failureCount two_strikes = 0) by reflexivity.
  assert (H3 : 0 < CircuitBreaker.failureThreshold two_strikes) by (cbn; lia).
  destruct (@circuit_breaker_state_machine Z CircuitBreaker.State clock down_error tick
              two_strikes 0%Z H1 H2 H3)
    as (Hopen & Hnext & Hcalls).
  split; [exact H1|]. split; [exact H2|]. split; [exact H3|]. split; [exact Hopen|].
  split.
  - destruct (Hcalls probe 50%Z) as [Hfast _].
    apply Hfast. rewrite Hnext. vm_compute. reflexivity.
  - destruct (Hcalls probe 102%Z) as [_ Hlate].
    destruct Hlate as [_ Hseen].
    + rewrite Hnext. vm_compute. discriminate.
    + exact (proj1 Hseen).
Defined.

(** ** callHuggingFace *)

Lemma client_errors_witness :
  (forall n, fst (service (world_with gone) n) = HttpResponse 410 (str "Gone") (VStr []))
  /\ exists w',
       callHuggingFace (world_with gone)
       = (Throw (new_Error (str "Network error: "
                            ++ str "API endpoint deprecated. Please update the application.")),
          w')
       /\ calls w' = 4.
Proof.
  split; [intros n; reflexivity|].
  destruct (@client_errors_are_retried (world_with gone) 410 (str "Gone") (VStr []))
    as (w' & Hrun & Hcalls & _).
  - intros n. reflexivity.
  - lia.
  - lia.
  - reflexivity.
  - exists w'. split; [exact Hrun | exact Hcalls].
Defined.

(** ** chunkText *)

Lemma chunkText_witness :
  is_blank (words_of "a" 4500) = false
  /\ wordCount (words_of "a" 4500) = 4500
  /\ exists chunks,
       chunkText (words_of "a" 4500) 1000 = Ok chunks
       /\ length chunks = 5
       /\ wordCount (nth 4 chunks []) = 500.
Proof.
  assert (H1 : is_blank (words_of "a" 4500) = false) by (vm_compute; reflexivity).
  assert (H2 : 0 < 1000) by lia.
  assert (H3 : wordCount (words_of "a" 4500) = 4500) by (vm_compute; reflexivity).
  destruct (@chunkText_chunks (words_of "a" 4500) 1000 H1 H2)
    as (chunks & Hrun & _ & _ & _ & _ & H4500 & _).
  destruct (H4500 H3 eq_refl) as (Hfive & _ & Hlast).
  split; [exact H1|]. split; [exact H3|].
  exists chunks. split; [exact Hrun|]. split; [exact Hfive | exact Hlast].
Defined.

(** ** summarizeText *)

Lemma summarizeText_short_text_witness :
  is_blank six_sentences = false
  /\ wordCount six_sentences < 500
  /\ forall w,
       summarizeText lower_ascii six_sentences w
       = (Ok (extractiveSummary lower_ascii six_sentences), w).
Proof.
  assert (H1 : is_blank six_sentences = false) by (vm_compute; reflexivity).
  assert (H2 : wordCount six_sentences < 500) by (apply Nat.ltb_lt; vm_compute; reflexivity).
  split; [exact H1|]. split; [exact H2|].
  exact (proj1 (@summarizeText_short_text lower_ascii six_sentences H1 H2)).
Defined.

(** The guard of [summarizeText] rejects the empty text, which has one
    word in the count of the source. *)
Lemma summarizeText_rejects_empty_text :
  wordCount [] = 1
  /\ summarizeText lower_ascii [] (world_with offline)
     = (Throw (new_Error (str "Text is empty or invalid")), world_with offline).
Proof.
  split; reflexivity.
Qed.

(** ** The floor on the summary *)

Lemma summary_floor_witness :
  returned (summaryStage lower_ascii lorem
              (world_with (answering (summary_reply short_summary))))
  = Some forty_chars
  /\ length forty_chars = 40
  /\ exists r w2,
       processDocument lower_ascii parse_sample lorem
         (world_with (answering (summary_reply short_summary)))
       = (Ok r, w2)
       /\ summary r = extractiveSummary lower_ascii lorem.
Proof.
  split; [vm_compute; reflexivity|]. split; [reflexivity|].
  apply (@summary_floor lower_ascii parse_sample lorem
           (world_with (answering (summary_reply short_summary)))
           forty_chars
           (snd (summaryStage lower_ascii lorem
                   (world_with (answering (summary_reply short_summary)))))).
  - vm_compute. reflexivity.
  - apply Nat.ltb_lt. vm_compute. reflexivity.
  - apply Nat.ltb_lt. vm_compute. reflexivity.
Defined.

(** ** The priority chunks *)

Lemma priority_chunks_witness :
  cleanText uniform_text = Ok uniform_text
  /\ 3000 < wordCount uniform_text
  /\ exists chunks,
       chunkText uniform_text 1000 = Ok chunks
       /\ length chunks = 4
       /\ priorityChunks chunks = [nth 0 chunks []; nth 2 chunks []; nth 3 chunks []].
Proof.
  assert (Hclean : cleanText uniform_text = Ok uniform_text) by (vm_compute; reflexivity).
  assert (Hlong : 3000 < wordCount uniform_text)
    by (apply Nat.ltb_lt; vm_compute; reflexivity).
  split; [exact Hclean|]. split; [exact Hlong|].
  destruct (@priority_chunks_of_long_text lower_ascii uniform_text uniform_text
              (world_with offline) Hclean Hlong)
    as (chunks & Hrun & Hlen & _ & _ & _ & _ & _ & Hprio & _).
  assert (Hfour : length chunks = 4).
  { rewrite Hlen. vm_compute. reflexivity. }
  exists chunks. split; [exact Hrun|]. split; [exact Hfour|].
  rewrite Hfour in Hprio. exact Hprio.
Defined.

(** ** The deterministic summary *)

Lemma extractive_summary_witness :
  cleanText six_sentences = Ok six_sentences
  /\ 50 < length six_sentences
  /\ 5 <= length (sentences_of six_sentences)
  /\ extractiveSummary lower_ascii six_sentences <> []
  /\ exists sentence rest,
       In sentence (introSection (extractKeyInformation lower_ascii six_sentences))
       /\ extractiveSummary lower_ascii six_sentences = collapse_ws (trim sentence) ++ rest.
Proof.
  assert (H1 : cleanText six_sentences = Ok six_sentences) by (vm_compute; reflexivity).
  assert (H2 : 50 < length six_sentences) by (apply Nat.ltb_lt; vm_compute; reflexivity).
  assert (H3 : 5 <= length (sentences_of six_sentences))
    by (apply Nat.leb_le; vm_compute; reflexivity).
  destruct (@extractive_summary_starts_with_introduction lower_ascii six_sentences)
    as [Hcleaned Hintro].
  split; [exact H1|]. split; [exact H2|]. split; [exact H3|].
  split; [exact (Hcleaned six_sentences H1 H2)|].
  destruct (Hintro H3) as (sentence & rest & Hin & Hshape & _ & _).
  exists sentence, rest. split; [exact Hin | exact Hshape].
Defined.

(** A cleaned text of 50 characters without a word of more than five
    letters has no introduction, no important sentence and no paragraph
    of more than 50 characters: its summary is the empty string. *)
Lemma extractive_summary_empty :
  cleanText fifty_chars = Ok fifty_chars
  /\ extractiveSummary lower_ascii fifty_chars = [].
Proof.
  split; vm_compute; reflexivity.
Qed.

(** ** processDocument *)

Lemma processDocument_result_witness :
  cleanText distractor_text = Ok distractor_text
  /\ all_calls_fail (world_with offline)
  /\ exists r w',
       processDocument lower_ascii parse_sample distractor_text (world_with offline)
       = (Ok r, w')
       /\ length (mcqs r) = 5
       /\ Forall fallback_mcq_ok (mcqs r).
Proof.
  assert (H1 : cleanText distractor_text = Ok distractor_text) by (vm_compute; reflexivity).
  assert (H2 : all_calls_fail (world_with offline)) by (intros n; reflexivity).
  split; [exact H1|]. split; [exact H2|].
  destruct (@processDocument_result lower_ascii parse_sample distractor_text distractor_text
              (world_with offline) H1)
    as (r & w' & Hrun & _ & _ & Hfail).
  destruct (Hfail H2) as (_ & Hfive & Hok).
  exists r, w'. split; [exact Hrun|]. split; [exact Hfive | exact Hok].
Defined.

(** C1, at the inputs where the code falls short of it. With the
    service out of reach, the summary [processDocument] returns for a
    cleaned text of exactly 50 characters is the empty string, and the
    first MCQ of a cleaned text that starts with one of the fixed
    distractors holds that option twice. The fallback fills its list up
    to five MCQs; the list parsed from a model is cut to five and not
    filled up, so a model answering with an array of one element gives
    one MCQ; and an MCQ of a model that names an answer and no options
    gets the four default options, none of which is its answer. *)
Theorem processDocument_defects :
  cleanText fifty_chars = Ok fifty_chars
  /\ option_map summary
       (returned (processDocument lower_ascii parse_sample fifty_chars (world_with offline)))
     = Some []
  /\ length (generateIntelligentMCQs lower_ascii fifty_chars) = 5
  /\ option_map (fun r => length (mcqs r))
       (returned (processDocument lower_ascii parse_sample fifty_chars
                    (world_with (answering (generated_reply (str "[0]"))))))
     = Some 1
  /\ option_map (fun r => map (fun m => (answer m, options m, answer_among_options m))
                           (mcqs r))
       (returned (processDocument lower_ascii parse_sample fifty_chars
                    (world_with (answering (generated_reply answer_only_json)))))
     = Some [(VStr (str "E"),
              VArr (map (fun s => VStr (str s))
                      ["Option A"; "Option B"; "Option C"; "Option D"]%string),
              false)]
  /\ cleanText distractor_text = Ok distractor_text
  /\ option_map (fun r => map options_distinct (mcqs r))
       (returned (processDocument lower_ascii parse_sample distractor_text
                    (world_with offline)))
     = Some [false; true; true; true; true]
  /\ option_map (fun r => map well_formed_mcq (mcqs r))
       (returned (processDocument lower_ascii parse_sample distractor_text
                    (world_with offline)))
     = Some [false; true; true; true; true].
Proof.
  repeat split; vm_compute; reflexivity.
Qed.

Lemma processDocument_errors_witness :
  is_blank six_sentences = false
  /\ is_blank (substring 0 3000 six_sentences) = false
  /\ exists r w',
       processDocument lower_ascii parse_sample six_sentences (world_with offline)
       = (Ok r, w').
Proof.
  assert (H1 : is_blank six_sentences = false) by (vm_compute; reflexivity).
  assert (H2 : is_blank (substring 0 3000 six_sentences) = false) by (vm_compute; reflexivity).
  split; [exact H1|]. split; [exact H2|].
  destruct (@processDocument_errors lower_ascii parse_sample six_sentences (world_with offline))
    as (_ & Hok & _).
  exact (Hok H1 H2).
Defined.

(** A text of 4000 words after 3000 spaces, and a service whose
    summaries shrink to three characters: no section summary is kept, the
    first 3000 characters are handed to [summarizeText], and its error
    leaves [processDocument]. *)
Lemma processDocument_throws_on_indented_text :
  is_blank indented_text = false
  /\ thrown (processDocument lower_ascii parse_sample indented_text
               (world_with (answering (summary_reply padded_summary))))
     = Some (str "Text is empty or invalid").
Proof.
  split; vm_compute; reflexivity.
Qed.

(** ** The further properties on the sample inputs *)

Lemma callHuggingFace_request_budget_witness :
  admits (world_with offline) = true
  /\ calls (world_with offline) < calls (snd (callHuggingFace (world_with offline)))
     <= calls (world_with offline) + 4.
Proof.
  split; [reflexivity|].
  apply (proj1 (callHuggingFace_request_budget (world_with offline))). reflexivity.
Defined.

Lemma server_errors_witness :
  exists e w',
    callHuggingFace (world_with (failing_with 500)) = (Throw e, w')
    /\ response_status e = Some 500
    /\ calls w' = 1.
Proof.
  destruct (@server_errors_are_final (world_with (failing_with 500)) 500
              (str "Server Error") VNull 0%Z)
    as (e & w' & Hrun & Hst & _ & Hcalls & _).
  - reflexivity.
  - lia.
  - lia.
  - reflexivity.
  - exists e, w'. split; [exact Hrun|]. split; [exact Hst | exact Hcalls].
Defined.

Lemma callHuggingFace_success_witness :
  exists w',
    callHuggingFace (world_with (answering (summary_reply model_summary)))
    = (Ok (summary_reply model_summary), w')
    /\ calls w' = 1
    /\ CircuitBreaker.state (breaker w') = CircuitBreaker.CLOSED.
Proof.
  destruct (@callHuggingFace_success
              (world_with (answering (summary_reply model_summary))) 200
              (str "OK") (summary_reply model_summary) 0%Z)
    as (w' & Hrun & Hcalls & _ & Hstate & _).
  - reflexivity.
  - lia.
  - reflexivity.
  - reflexivity.
  - exists w'. split; [exact Hrun|]. split; [exact Hcalls | exact Hstate].
Defined.

Lemma callHuggingFace_errors_witness :
  exists e w',
    callHuggingFace (world_with offline) = (Throw e, w')
    /\ message e = str "Network error: socket hang up"
    /\ message e <> str "Model is loading. Please wait a moment and try again.".
Proof.
  assert (Hrun :
    callHuggingFace (world_with offline)
    = (Throw (new_Error (str "Network error: socket hang up")),
       snd (callHuggingFace (world_with offline)))) by (vm_compute; reflexivity).
  eexists. eexists. split; [exact Hrun|]. split; [reflexivity|].
  exact (proj1 (proj2 (@callHuggingFace_errors _ _ _ Hrun))).
Defined.

Lemma processDocument_request_budget_witness :
  wordCount six_sentences < 500
  /\ calls (snd (processDocument lower_ascii parse_sample six_sentences (world_with offline)))
     <= calls (world_with offline) + 20.
Proof.
  assert (Hshort : wordCount six_sentences < 500)
    by (apply Nat.ltb_lt; vm_compute; reflexivity).
  split; [exact Hshort|].
  exact (proj2 (proj2 (@processDocument_request_budget lower_ascii parse_sample
                         six_sentences (world_with offline))) Hshort).
Defined.

Lemma processDocument_offline_witness :
  is_blank six_sentences = false
  /\ wordCount six_sentences <= 3000
  /\ all_calls_fail (world_with offline)
  /\ fst (processDocument lower_ascii parse_sample six_sentences (world_with offline))
     = Ok {| summary := extractiveSummary lower_ascii six_sentences;
             mcqs := generateIntelligentMCQs lower_ascii six_sentences |}.
Proof.
  assert (Hblank : is_blank six_sentences = false) by (vm_compute; reflexivity).
  assert (Hwords : wordCount six_sentences <= 3000)
    by (apply Nat.leb_le; vm_compute; reflexivity).
  assert (Hall : all_calls_fail (world_with offline)) by (intros n; reflexivity).
  split; [exact Hblank|]. split; [exact Hwords|]. split; [exact Hall|].
  exact (proj2 (@processDocument_offline lower_ascii parse_sample six_sentences)
           Hblank Hwords (world_with offline) Hall).
Defined.

Lemma generateMCQs_shape_witness :
  is_blank six_sentences = false
  /\ exists l w',
       generateMCQs lower_ascii parse_sample six_sentences (world_with offline) = (Ok l, w')
       /\ Forall (fun m => mcq_shape m = true) l.
Proof.
  assert (Hblank : is_blank six_sentences = false) by (vm_compute; reflexivity).
  split; [exact Hblank|].
  destruct (@generateMCQs_shape lower_ascii parse_sample six_sentences
              (world_with offline) Hblank) as (l & w' & Hrun & _ & Hshape).
  exists l, w'. split; [exact Hrun | exact Hshape].
Defined.

Lemma cleanText_normal_form_witness :
  cleanText untidy_text = Ok six_sentences
  /\ single_spaced six_sentences = true
  /\ join [sp] (split_ws six_sentences) = six_sentences.
Proof.
  assert (Hclean : cleanText untidy_text = Ok six_sentences) by (vm_compute; reflexivity).
  split; [exact Hclean|].
  destruct (@cleanText_normal_form untidy_text six_sentences Hclean)
    as (_ & _ & Hss & _ & Hjoin).
  split; [exact Hss | exact Hjoin].
Defined.

Lemma cleanText_idempotent_witness :
  cleanText untidy_text = Ok six_sentences
  /\ cleanText six_sentences = Ok six_sentences.
Proof.
  assert (Hclean : cleanText untidy_text = Ok six_sentences) by (vm_compute; reflexivity).
  split; [exact Hclean|].
  exact (@cleanText_idempotent untidy_text six_sentences Hclean).
Defined.

Lemma chunkText_partition_witness :
  is_blank (words_of "a" 5) = false
  /\ exists chunks,
       chunkText (words_of "a" 5) 2 = Ok chunks
       /\ concat (map split_ws chunks) = split_ws (words_of "a" 5)
       /\ join [sp] chunks = words_of "a" 5.
Proof.
  assert (Hblank : is_blank (words_of "a" 5) = false) by reflexivity.
  split; [exact Hblank|].
  destruct (@chunkText_partition (words_of "a" 5) 2 Hblank) as (chunks & Hrun & Hwords & Hjoin).
  - lia.
  - exists chunks. split; [exact Hrun|]. split; [exact Hwords|].
    apply Hjoin. reflexivity.
Defined.

Lemma uploadPDF_status_witness :
  (forall r w1, exists w2, save_ok r w1 = (Ok tt, w2))
  /\ (statusCode (fst (uploadPDF lower_ascii parse_sample (parser_of untidy_text) save_ok
                         (Some pdf_bytes) (world_with offline))) = 201
      \/ statusCode (fst (uploadPDF lower_ascii parse_sample (parser_of untidy_text) save_ok
                            (Some pdf_bytes) (world_with offline))) = 400).
Proof.
  assert (Hsave : forall r w1, exists w2, save_ok r w1 = (Ok tt, w2))
    by (intros r w1; exists w1; reflexivity).
  split; [exact Hsave|].
  exact (proj2 (@uploadPDF_status lower_ascii parse_sample (parser_of untidy_text) save_ok
                  (Some pdf_bytes) (world_with offline)) Hsave).
Defined.

Lemma chunkText_edge_cases_witness :
  is_blank (words_of "a" 5) = false
  /\ chunkText (words_of "a" 5) 0 = Throw (RangeError "Invalid array length")
  /\ is_blank [sp; nl] = true
  /\ chunkText [sp; nl] 600 = Throw (new_Error (str "Text is empty")).
Proof.
  assert (Hfull : is_blank (words_of "a" 5) = false) by reflexivity.
  assert (Hblank : is_blank [sp; nl] = true) by reflexivity.
  split; [exact Hfull|].
  split; [exact (proj1 (proj2 (chunkText_edge_cases (words_of "a" 5)) Hfull))|].
  split; [exact Hblank|].
  exact (proj1 (chunkText_edge_cases [sp; nl]) Hblank 600).
Defined.

Lemma summarizeText_normalised_witness :
  is_blank lorem = false
  /\ exists s w',
       summarizeText lower_ascii lorem (world_with (answering (summary_reply model_summary)))
       = (Ok s, w')
       /\ single_spaced s = true.
Proof.
  assert (Hblank : is_blank lorem = false) by (vm_compute; reflexivity).
  split; [exact Hblank|].
  destruct (@summarizeText_normalised lower_ascii lorem
              (world_with (answering (summary_reply model_summary))) Hblank)
    as (s & w' & Hrun & Hss & _).
  exists s, w'. split; [exact Hrun | exact Hss].
Defined.

Lemma summarizeText_first_model_witness :
  500 <= wordCount lorem
  /\ 50 < length (trim model_summary)
  /\ calls (snd (summarizeText lower_ascii lorem
                   (world_with (answering (summary_reply model_summary))))) = 1.
Proof.
  assert (Hblank : is_blank lorem = false) by (vm_compute; reflexivity).
  assert (Hwords : 500 <= wordCount lorem) by (apply Nat.leb_le; vm_compute; reflexivity).
  assert (Hlen : 50 < length (trim model_summary))
    by (apply Nat.ltb_lt; vm_compute; reflexivity).
  split; [exact Hwords|]. split; [exact Hlen|].
  destruct (@summarizeText_first_model lower_ascii lorem
              (world_with (answering (summary_reply model_summary))) 200 (str "OK")
              model_summary 0%Z Hblank Hwords)
    as (w' & Hrun & Hcalls).
  - reflexivity.
  - reflexivity.
  - lia.
  - exact Hlen.
  - rewrite Hrun. exact Hcalls.
Defined.

Lemma processDocument_result_shape_witness :
  is_blank six_sentences = false
  /\ is_blank (substring 0 3000 six_sentences) = false
  /\ exists r w',
       processDocument lower_ascii parse_sample six_sentences (world_with offline)
       = (Ok r, w')
       /\ trim (summary r) = summary r
       /\ Forall (fun m => mcq_shape m = true) (mcqs r).
Proof.
  assert (Hblank : is_blank six_sentences = false) by (vm_compute; reflexivity).
  assert (Hprefix : is_blank (substring 0 3000 six_sentences) = false)
    by (vm_compute; reflexivity).
  split; [exact Hblank|]. split; [exact Hprefix|].
  destruct (@processDocument_result_shape lower_ascii parse_sample six_sentences
              (world_with offline) Hblank Hprefix)
    as (r & w' & Hrun & Htrim & _ & Hshape).
  exists r, w'. split; [exact Hrun|]. split; [exact Htrim | exact Hshape].
Defined.

Lemma failures_are_retried_witness :
  admits (world_with (failing_with 503)) = true
  /\ (forall n, retried_failure (fst (service (world_with (failing_with 503)) n)) = true)
  /\ exists e w',
       callHuggingFace (world_with (failing_with 503)) = (Throw e, w')
       /\ calls w' = 4.
Proof.
  assert (Hall : forall n,
            retried_failure (fst (service (world_with (failing_with 503)) n)) = true)
    by (intros n; reflexivity).
  split; [reflexivity|]. split; [exact Hall|].
  destruct (@failures_are_retried (world_with (failing_with 503)) eq_refl Hall)
    as (e & w' & Hrun & Hcalls & _).
  exists e, w'. split; [exact Hrun | exact Hcalls].
Defined.

Lemma extractKeyInformation_witness :
  keyTerms (extractKeyInformation lower_ascii proto_text)
  = [str "builders"; str "others"; str "methods"]
  /\ occurrences (fun cleanWord => (5 <? length cleanWord)
                                    && negb (arr_includes stopwords cleanWord))
       (split_ws (lower_ascii proto_text)) proto_key = 2
  /\ count_words (fun cleanWord => 5 <? length cleanWord)
       (split_ws (lower_ascii constructor_text))
     = [(str "constructor", Concat 2); (str "another", Num 1)]
  /\ (forall k k',
        In k (keyTerms (extractKeyInformation lower_ascii proto_text)) ->
        ~ In k' (keyTerms (extractKeyInformation lower_ascii proto_text)) ->
        k' <> proto_key ->
        occurrences (fun cleanWord => (5 <? length cleanWord)
                                      && negb (arr_includes stopwords cleanWord))
          (split_ws (lower_ascii proto_text)) k'
        <= occurrences (fun cleanWord => (5 <? length cleanWord)
                                         && negb (arr_includes stopwords cleanWord))
             (split_ws (lower_ascii proto_text)) k).
Proof.
  split; [vm_compute; reflexivity|]. split; [vm_compute; reflexivity|].
  split; [vm_compute; reflexivity|].
  destruct (@extractKeyInformation_spec lower_ascii proto_text)
    as (_ & _ & _ & Hranked & _).
  apply Hranked. intros word Hword.
  assert (Hall : forallb (fun word =>
                            negb (arr_includes inherited_functions (strip_non_word word)))
                   (split_ws (lower_ascii proto_text)) = true)
    by (vm_compute; reflexivity).
  apply negb_true_iff. exact (proj1 (forallb_forall _ _) Hall word Hword).
Defined.
